(** * xCDP: browser perception and control plane

    A shallow embedding of the gateway's world-state store
    (world-state.ts), its policy layer (policy.ts), its command pipeline
    (server.ts), the in-page diffing of action candidates (watchers.ts)
    and the in-page executor's verification acknowledgment (executor.ts),
    followed by the properties the specification states about them.
    The embedding goes on with the telemetry handlers of the gateway, the
    update loop of the watcher, the extraction of the action map and the
    lookup by text (actionmap.ts), the query command of the executor,
    the queue and the routing of the service worker, and the way of a
    message from the content script to the gateway; further properties of
    the code close the development.

    Conventions of the embedding.
    - A JS [Map] is a [gmap]; the insertion order of a [Map] is not
      modelled (no property below depends on it).
    - A JS string is a [string]: a sequence of code units below 256.
    - Integer-valued JS numbers (pixel coordinates, tab ids, millisecond
      timestamps, limits) are [Z]; fractional ones (normalised rectangles,
      DOM bounding boxes) are [Q].
    - [Date.now()] is an explicit argument of the function that reads it.
    - Messages arrive through [JSON.parse], so every message is a fresh
      value: objects of two messages are never aliased. The world state
      stores the candidate objects of a message and updates them in place;
      read by value, the candidate map is the one computed here. The
      deltas kept in a tab's history share those objects with the map:
      the history says which object of a kept delta the map holds.
    - A key of an object that holds [undefined] is [Some None] in the
      record of a partial object; [JSON.stringify] drops such a key.
    - A promise is an index into the trace of the gateway; the
      continuation of an [await] runs once the handler that has resolved
      the promise has returned. *)

From Stdlib Require Import ZArith QArith Qround Ascii String List Sorted Lia.
From stdpp Require Import gmap strings list sorting.

Open Scope string_scope.
Open Scope list_scope.
Open Scope Z_scope.

(** ** JavaScript strings *)

Module JsString.

(** [String.prototype.toLowerCase] on code units below 256. *)
Definition lower_unit (c : ascii) : ascii :=
  let n := nat_of_ascii c in
  if ((65 <=? n)%nat && (n <=? 90)%nat)
     || ((192 <=? n)%nat && (n <=? 222)%nat && negb (n =? 215)%nat)
  then ascii_of_nat (n + 32) else c.

Fixpoint toLowerCase (s : string) : string :=
  match s with
  | EmptyString => EmptyString
  | String c r => String (lower_unit c) (toLowerCase r)
  end.

(** [s.startsWith(p)] *)
Fixpoint startsWith (p s : string) : bool :=
  match p, s with
  | EmptyString, _ => true
  | String a p', String b s' => if Ascii.eqb a b then startsWith p' s' else false
  | String _ _, EmptyString => false
  end.

(** [s.includes(q)]: [q] occurs in [s] at some offset. *)
Fixpoint includes (q s : string) : bool :=
  startsWith q s ||
  match s with
  | EmptyString => false
  | String _ s' => includes q s'
  end.

(** [s.endsWith(q)]: some suffix of [s] is [q]. *)
Fixpoint endsWith (q s : string) : bool :=
  String.eqb s q ||
  match s with
  | EmptyString => false
  | String _ s' => endsWith q s'
  end.

(** Truthiness of a possibly-undefined string: [undefined] and [""] are
    falsy. *)
Definition truthy (o : option string) : bool :=
  match o with
  | Some s => negb (String.eqb s "")
  | None => false
  end.

End JsString.

(** ** protocol.ts: the shared message shapes *)

Module Protocol.

Record Rect := { x : Z; y : Z; w : Z; h : Z }.
Record RectN := { nx : Q; ny : Q; nw : Q; nh : Q }.

Record ActionState := {
  disabled : bool; expanded : bool; checked : bool;
  selected : bool; focused : bool }.

Record ActionContext := {
  inModal : bool; inNav : bool; inForm : bool;
  depth : Z; formId : option string }.

Record StyleHint := {
  isPrimary : bool; isDanger : bool; cursorPointer : bool;
  backgroundColor : option string; textColor : option string }.

Record HitPoint := { cx : Z; cy : Z }.

Record ActionCandidate := {
  id : string;
  rect : Rect;
  rectN : RectN;
  role : string;
  tag : string;
  name : string;
  aria : string;
  placeholder : option string;
  value : option string;
  href : option string;
  state : ActionState;
  ctx : ActionContext;
  styleHint : StyleHint;
  hit : HitPoint;
  occluded : bool;
  frameId : option Z }.

(** [Partial<ActionCandidate & { id: string }>]: [None] is an absent key.
    For the optional fields of a candidate, [Some None] is a key that is
    present and holds [undefined]. *)
Record CandidateUpdate := {
  u_id : option string;
  u_rect : option Rect;
  u_rectN : option RectN;
  u_role : option string;
  u_tag : option string;
  u_name : option string;
  u_aria : option string;
  u_placeholder : option (option string);
  u_value : option (option string);
  u_href : option (option string);
  u_state : option ActionState;
  u_ctx : option ActionContext;
  u_styleHint : option StyleHint;
  u_hit : option HitPoint;
  u_occluded : option bool;
  u_frameId : option (option Z) }.

(** The update with no key at all, [{}]. *)
Definition emptyUpdate : CandidateUpdate :=
  {| u_id := None; u_rect := None; u_rectN := None; u_role := None;
     u_tag := None; u_name := None; u_aria := None; u_placeholder := None;
     u_value := None; u_href := None; u_state := None; u_ctx := None;
     u_styleHint := None; u_hit := None; u_occluded := None;
     u_frameId := None |}.

Record ActionMapDelta := {
  d_tabId : Z;
  d_frameId : Z;
  d_timestamp : Z;
  added : list ActionCandidate;
  removed : list string;
  updated : list CandidateUpdate }.

Record Viewport := { width : Z; height : Z }.

(** [Object.assign(existing, update)]: every key of [update] overwrites
    the field of the same name. *)
Definition assign (existing : ActionCandidate) (update : CandidateUpdate)
  : ActionCandidate :=
  {| id := default (id existing) (u_id update);
     rect := default (rect existing) (u_rect update);
     rectN := default (rectN existing) (u_rectN update);
     role := default (role existing) (u_role update);
     tag := default (tag existing) (u_tag update);
     name := default (name existing) (u_name update);
     aria := default (aria existing) (u_aria update);
     placeholder := default (placeholder existing) (u_placeholder update);
     value := default (value existing) (u_value update);
     href := default (href existing) (u_href update);
     state := default (state existing) (u_state update);
     ctx := default (ctx existing) (u_ctx update);
     styleHint := default (styleHint existing) (u_styleHint update);
     hit := default (hit existing) (u_hit update);
     occluded := default (occluded existing) (u_occluded update);
     frameId := default (frameId existing) (u_frameId update) |}.

End Protocol.

(** ** world-state.ts: the gateway's per-tab store *)

Module WorldState.
Import Protocol.

(** An object of the [added] array of a delta kept in [deltaHistory].
    [handleDelta] puts the objects of that array themselves into the
    candidate map, so that [Object.assign] on an entry of the map changes
    the object the kept delta holds. [inMap k]: the object is the one the
    candidate map holds under [k]. [detached c]: the map does not hold the
    object; its fields are those of [c]. *)
Inductive AddedObject :=
| inMap (k : string)
| detached (c : ActionCandidate).

(** A delta kept in [deltaHistory]: the object the message was parsed
    into. *)
Record StoredDelta := {
  sd_tabId : Z;
  sd_frameId : Z;
  sd_timestamp : Z;
  sd_added : list AddedObject;
  sd_removed : list string;
  sd_updated : list CandidateUpdate }.

Record TabState := {
  tabId : Z;
  url : string;
  viewport : Viewport;
  userAgent : string;
  connectedAt : Z;
  lastUpdate : Z;
  candidates : gmap string ActionCandidate;
  deltaHistory : list StoredDelta }.

(** The module-level [state.tabs]. *)
Record WorldState := { tabs : gmap Z TabState }.

Definition MAX_DELTA_HISTORY : nat := 50.

(** [for (const id of delta.removed) candidates.delete(id)] *)
Definition applyRemovals (ids : list string)
    (m : gmap string ActionCandidate) : gmap string ActionCandidate :=
  fold_left (fun m id => delete id m) ids m.

(** [for (const c of delta.added) candidates.set(c.id, c)] *)
Definition applyAdditions (cs : list ActionCandidate)
    (m : gmap string ActionCandidate) : gmap string ActionCandidate :=
  fold_left (fun m c => <[id c := c]> m) cs m.

(** One turn of the update loop: skip an update without a truthy id,
    look the candidate up, and assign the update onto it if it exists. *)
Definition applyUpdate (m : gmap string ActionCandidate)
    (update : CandidateUpdate) : gmap string ActionCandidate :=
  match u_id update with
  | None => m
  | Some i =>
      if String.eqb i "" then m
      else match m !! i with
           | Some existing => <[i := assign existing update]> m
           | None => m
           end
  end.

Definition applyUpdates (us : list CandidateUpdate)
    (m : gmap string ActionCandidate) : gmap string ActionCandidate :=
  fold_left applyUpdate us m.

(** The fields an object of a kept delta has when the candidate map is
    [m]. *)
Definition shown (m : gmap string ActionCandidate) (o : AddedObject)
  : option ActionCandidate :=
  match o with
  | inMap k => m !! k
  | detached c => Some c
  end.

(** The object the map [m] holds under [k] is about to leave the map, by
    [delete(k)] or by [set(k, another)]: a kept delta that holds it goes on
    holding it, with the fields it has. *)
Definition letGo (m : gmap string ActionCandidate) (k : string)
    (o : AddedObject) : AddedObject :=
  match o with
  | inMap k' =>
      if String.eqb k' k
      then match m !! k with
           | Some c => detached c
           | None => o
           end
      else o
  | detached _ => o
  end.

Definition letGoOf (m : gmap string ActionCandidate) (k : string)
    (d : StoredDelta) : StoredDelta :=
  {| sd_tabId := sd_tabId d;
     sd_frameId := sd_frameId d;
     sd_timestamp := sd_timestamp d;
     sd_added := letGo m k <$> sd_added d;
     sd_removed := sd_removed d;
     sd_updated := sd_updated d |}.

(** The loop of the removals, with the kept deltas [hist] alongside the
    map. *)
Definition removeObjects (ids : list string)
    (m : gmap string ActionCandidate) (hist : list StoredDelta)
  : gmap string ActionCandidate * list StoredDelta :=
  fold_left (fun mh id => (delete id mh.1, letGoOf mh.1 id <$> mh.2))
    ids (m, hist).

(** The loop of the additions, with the kept deltas [hist] alongside the
    map; the third component is the objects of [delta.added] the loop has
    gone through. *)
Definition addObjects (cs : list ActionCandidate)
    (m : gmap string ActionCandidate) (hist : list StoredDelta)
  : gmap string ActionCandidate * list StoredDelta * list AddedObject :=
  fold_left
    (fun mho c =>
       let '(m, hist, objs) := mho in
       (<[id c := c]> m,
        letGoOf m (id c) <$> hist,
        (letGo m (id c) <$> objs) ++ [inMap (id c)]))
    cs (m, hist, []).

(** [deltaHistory.push(delta)], then [shift()] once past the limit. *)
Definition pushHistory (delta : StoredDelta)
    (hist : list StoredDelta) : list StoredDelta :=
  let hist' := hist ++ [delta] in
  if (MAX_DELTA_HISTORY <? List.length hist')%nat then tail hist' else hist'.

(** The history [handleDelta] leaves: the kept deltas let go of the
    objects that leave the map, and the delta itself is pushed. The loop
    of the updates changes fields of objects of the map and nothing
    else. *)
Definition storeDelta (delta : ActionMapDelta)
    (m : gmap string ActionCandidate) (hist : list StoredDelta)
  : list StoredDelta :=
  let '(m1, hist1) := removeObjects (removed delta) m hist in
  let '(_, hist2, objs) := addObjects (added delta) m1 hist1 in
  pushHistory
    {| sd_tabId := d_tabId delta;
       sd_frameId := d_frameId delta;
       sd_timestamp := d_timestamp delta;
       sd_added := objs;
       sd_removed := removed delta;
       sd_updated := updated delta |}
    hist2.

(** The effect of [handleDelta] on an existing tab state. *)
Definition applyDelta (now : Z) (delta : ActionMapDelta)
    (tabState : TabState) : TabState :=
  {| tabId := tabId tabState;
     url := url tabState;
     viewport := viewport tabState;
     userAgent := userAgent tabState;
     connectedAt := connectedAt tabState;
     lastUpdate := now;
     candidates :=
       applyUpdates (updated delta)
         (applyAdditions (added delta)
            (applyRemovals (removed delta) (candidates tabState)));
     deltaHistory :=
       storeDelta delta (candidates tabState) (deltaHistory tabState) |}.

(** [handleDelta]: the new store and the returned tab state ([None] for
    [null], when the tab is unknown and the delta is dropped). *)
Definition handleDelta (now : Z) (delta : ActionMapDelta)
    (st : WorldState) : WorldState * option TabState :=
  match tabs st !! d_tabId delta with
  | None => (st, None)
  | Some tabState =>
      let tabState' := applyDelta now delta tabState in
      ({| tabs := <[d_tabId delta := tabState']> (tabs st) |},
       Some tabState')
  end.

Definition getTab (tabId : Z) (st : WorldState) : option TabState :=
  tabs st !! tabId.

(** [Array.from(tabState.candidates.values())], or [[]]. *)
Definition getCandidates (tabId : Z) (st : WorldState)
  : list ActionCandidate :=
  match tabs st !! tabId with
  | Some tabState => (map_to_list (candidates tabState)).*2
  | None => []
  end.

Record Filters := {
  f_role : option string;
  f_tag : option string;
  f_visible : option bool;
  f_enabled : option bool }.

(** The predicate handed to [candidates.filter] by [searchCandidates];
    [filters] is [None] when the argument is [undefined]. *)
Definition searchKeeps (search : string) (filters : option Filters)
    (c : ActionCandidate) : bool :=
  let query := JsString.toLowerCase search in
  if negb (String.eqb search "")
     && negb (JsString.includes query (JsString.toLowerCase (name c)))
     && negb (JsString.includes query (JsString.toLowerCase (aria c)))
     && negb (JsString.includes query (JsString.toLowerCase (id c)))
  then false
  else if JsString.truthy (filters ≫= f_role)
          && negb (bool_decide (Some (role c) = filters ≫= f_role))
  then false
  else if JsString.truthy (filters ≫= f_tag)
          && negb (bool_decide (Some (tag c) = filters ≫= f_tag))
  then false
  else if bool_decide (Some (occluded c) = filters ≫= f_visible)
  then false
  else if bool_decide (Some (disabled (state c)) = filters ≫= f_enabled)
  then false
  else true.

Definition searchCandidates (tabId : Z) (search : string)
    (filters : option Filters) (st : WorldState) : list ActionCandidate :=
  List.filter (searchKeeps search filters) (getCandidates tabId st).

End WorldState.

(** ** Commands and acknowledgments (protocol.ts, continued) *)

Module Command.
Import Protocol.

Inductive Curve := linear | ease | bezier.
Inductive Button := left | right | middle.
Inductive Modifier := ctrl | shift | alt | meta.
Inductive Mode := replace | append | prepend.

#[global] Instance Modifier_eq_dec : EqDecision Modifier.
Proof. solve_decision. Defined.

(** The [type] tag of a command. *)
Inductive CommandType :=
| move_mouse | hover | click | type | scroll | focus | select | query.

(** The operation-specific fields of each variant of [Command]. *)
Inductive CommandBody :=
| MoveMouseCommand (x y : Z) (steps : option Z) (curve : option Curve)
    (duration : option Z)
| HoverCommand (id : string) (duration : option Z)
| ClickCommand (id : string) (button : option Button)
    (modifiers : option (list Modifier)) (clickCount : option Z)
| TypeCommand (id : string) (text : string) (mode : option Mode)
    (delay : option Z) (clearFirst : option bool)
| ScrollCommand (dx dy : Z) (target : option string)
| FocusCommand (id : string)
| SelectCommand (id : string) (value : list string)
| QueryCommand (search : string) (filters : option WorldState.Filters).

(** A command as the gateway receives it in an [act] request: the
    [commandId] may be absent ([None]) or empty. *)
Record Command := {
  commandId : option string;
  tabId : Z;
  body : CommandBody }.

Definition commandType (c : Command) : CommandType :=
  match body c with
  | MoveMouseCommand _ _ _ _ _ => move_mouse
  | HoverCommand _ _ => hover
  | ClickCommand _ _ _ _ => click
  | TypeCommand _ _ _ _ _ => type
  | ScrollCommand _ _ _ => scroll
  | FocusCommand _ => focus
  | SelectCommand _ _ => select
  | QueryCommand _ _ => query
  end.

(** [(command as any).id]: [undefined] for the variants without a
    target. *)
Definition targetId (c : Command) : option string :=
  match body c with
  | HoverCommand i _ | ClickCommand i _ _ _ | TypeCommand i _ _ _ _
  | FocusCommand i | SelectCommand i _ => Some i
  | MoveMouseCommand _ _ _ _ _ | ScrollCommand _ _ _ | QueryCommand _ _ => None
  end.

Record Verification := {
  v_id : string;
  stillVisible : bool;
  hitTestOk : bool;
  rectChanged : bool;
  newRect : option Rect }.

Inductive Status :=
| ok (result : option string)
| fail (reason : string)
| verify (verification : Verification).

(** An acknowledgment. [a_tabId] is the [tabId] key, which the types of
    protocol.ts do not have: the executor and the gateway build
    acknowledgments without it, the service worker adds it to every
    acknowledgment it relays from a content script. *)
Record CommandAck := {
  a_commandId : string;
  status : Status;
  timestamp : Z;
  a_tabId : option Z }.

End Command.

(** ** policy.ts: admission of commands *)

Module Policy.
Import Command.

Inductive DomainMode := allowlist | blocklist | all.

Record PolicyConfig := {
  domainMode : DomainMode;
  domainList : list string;
  blockPaymentActions : bool;
  blockDeleteActions : bool;
  requireUserPresent : bool;
  maxCommandsPerSecond : Z;
  maxCommandsPerMinute : Z;
  logAllCommands : bool }.

Definition defaultConfig : PolicyConfig :=
  {| domainMode := all;
     domainList := [];
     blockPaymentActions := true;
     blockDeleteActions := true;
     requireUserPresent := false;
     maxCommandsPerSecond := 10;
     maxCommandsPerMinute := 300;
     logAllCommands := true |}.

(** *** The regular expressions of the pattern tables

    Every pattern of the two tables is a sequence of literal characters
    and [\s*], with the [i] flag. *)

Inductive Atom :=
| Lit (c : ascii)
| WsStar.

Definition Pattern := list Atom.

(** Case folding of the [i] flag (without the [u] flag) on code units
    below 256: the upper-case code unit when there is one below 256. *)
Definition canonicalize (c : ascii) : ascii :=
  let n := nat_of_ascii c in
  if ((97 <=? n)%nat && (n <=? 122)%nat)
     || ((224 <=? n)%nat && (n <=? 254)%nat && negb (n =? 247)%nat)
  then ascii_of_nat (n - 32) else c.

(** The class [\s] on code units below 256. *)
Definition isWhiteSpace (c : ascii) : bool :=
  let n := nat_of_ascii c in
  ((9 <=? n)%nat && (n <=? 13)%nat) || (n =? 32)%nat || (n =? 160)%nat.

(** [\s*] followed by the continuation [k]. *)
Fixpoint starWs (k : string -> bool) (s : string) : bool :=
  k s ||
  match s with
  | String c s' => isWhiteSpace c && starWs k s'
  | EmptyString => false
  end.

(** A match of the whole pattern that starts at the head of [s]. *)
Fixpoint matchHere (p : Pattern) (s : string) : bool :=
  match p with
  | [] => true
  | Lit c :: p' =>
      match s with
      | String d s' =>
          Ascii.eqb (canonicalize c) (canonicalize d) && matchHere p' s'
      | EmptyString => false
      end
  | WsStar :: p' => starWs (matchHere p') s
  end.

(** [pattern.test(s)]: a match that starts at some offset of [s]. *)
Fixpoint test (p : Pattern) (s : string) : bool :=
  matchHere p s ||
  match s with
  | String _ s' => test p s'
  | EmptyString => false
  end.

Fixpoint lits (s : string) : Pattern :=
  match s with
  | EmptyString => []
  | String c s' => Lit c :: lits s'
  end.

Definition PAYMENT_PATTERNS : list Pattern :=
  [ lits "checkout";
    lits "payment";
    lits "purchase";
    lits "buy" ++ WsStar :: lits "now";
    lits "place" ++ WsStar :: lits "order";
    lits "confirm" ++ WsStar :: lits "order";
    lits "submit" ++ WsStar :: lits "order";
    lits "pay" ++ WsStar :: lits "$" ].

Definition DELETE_PATTERNS : list Pattern :=
  [ lits "delete";
    lits "remove";
    lits "clear" ++ WsStar :: lits "all";
    lits "destroy";
    lits "erase" ].

Section WithUrlParser.

(** [new URL(url).hostname] of the platform: [None] when the
    constructor throws. *)
Variable hostname : string -> option string.

Definition isDomainAllowed (config : PolicyConfig) (url : string) : bool :=
  match domainMode config with
  | all => true
  | mode =>
      match hostname url with
      | Some host =>
          let domain := JsString.toLowerCase host in
          let matches :=
            existsb
              (fun d =>
                 String.eqb domain (JsString.toLowerCase d)
                 || JsString.endsWith ("." +:+ JsString.toLowerCase d) domain)
              (domainList config) in
          match mode with
          | allowlist => matches
          | _ => negb matches
          end
      | None => false
      end
  end.

Definition isPaymentAction (config : PolicyConfig)
    (elementName : option string) : bool :=
  if negb (blockPaymentActions config) then false
  else match elementName with
       | Some n =>
           if String.eqb n "" then false
           else existsb (fun pattern => test pattern n) PAYMENT_PATTERNS
       | None => false
       end.

Definition isDeleteAction (config : PolicyConfig)
    (elementName : option string) : bool :=
  if negb (blockDeleteActions config) then false
  else match elementName with
       | Some n =>
           if String.eqb n "" then false
           else existsb (fun pattern => test pattern n) DELETE_PATTERNS
       | None => false
       end.

Record PolicyCheckResult := {
  allowed : bool;
  reason : option string;
  warnings : option (list string) }.

Definition deny (r : string) : PolicyCheckResult :=
  {| allowed := false; reason := Some r; warnings := None |}.

(** [while (history.length > 0 && history[0] < oneMinuteAgo) shift()] *)
Fixpoint dropOld (oneMinuteAgo : Z) (commandHistory : list Z) : list Z :=
  match commandHistory with
  | t :: rest =>
      if t <? oneMinuteAgo then dropOld oneMinuteAgo rest else commandHistory
  | [] => []
  end.

(** [checkRateLimits]: the verdict and the cleaned history; [now] is
    the reading of the clock. *)
Definition checkRateLimits (config : PolicyConfig) (now : Z)
    (commandHistory : list Z) : PolicyCheckResult * list Z :=
  let oneMinuteAgo := now - 60000 in
  let commandHistory := dropOld oneMinuteAgo commandHistory in
  if Z.of_nat (List.length commandHistory) >=? maxCommandsPerMinute config
  then (deny "Rate limit exceeded (per minute)", commandHistory)
  else
    let oneSecondAgo := now - 1000 in
    let recentCommands :=
      Z.of_nat (List.length (List.filter (fun t => t >? oneSecondAgo) commandHistory)) in
    if recentCommands >=? maxCommandsPerSecond config
    then (deny "Rate limit exceeded (per second)", commandHistory)
    else ({| allowed := true; reason := None; warnings := None |},
          commandHistory).

(** [recordCommand]; [now] is its own reading of the clock. *)
Definition recordCommand (now : Z) (commandHistory : list Z) : list Z :=
  commandHistory ++ [now].

(** [checkCommand]: the verdict and the new history. [now] is the clock
    read by the rate-limit check, [recNow] the clock read when the
    command is recorded. The console line of an allowed command is not
    part of the model. *)
Definition checkCommand (config : PolicyConfig) (now recNow : Z)
    (command : Command) (tabUrl elementName : option string)
    (commandHistory : list Z) : PolicyCheckResult * list Z :=
  if JsString.truthy tabUrl
     && negb (isDomainAllowed config (default "" tabUrl))
  then (deny ("Domain not allowed: " +:+ default "" tabUrl), commandHistory)
  else
    let '(rateCheck, commandHistory) :=
      checkRateLimits config now commandHistory in
    if negb (allowed rateCheck)
    then ({| allowed := false; reason := reason rateCheck;
             warnings := None |}, commandHistory)
    else
      let dangerous :=
        match commandType command with
        | click | type =>
            if isPaymentAction config elementName
            then Some ("Payment action blocked: " +:+ default "undefined" elementName)
            else if isDeleteAction config elementName
            then Some ("Delete action blocked: " +:+ default "undefined" elementName)
            else None
        | _ => None
        end in
      match dangerous with
      | Some r => (deny r, commandHistory)
      | None =>
          ({| allowed := true; reason := None; warnings := Some [] |},
           recordCommand recNow commandHistory)
      end.

End WithUrlParser.

(** A stand-in for the platform's url parser, used to run the policy on
    concrete urls: the host of [scheme://host], up to the first of
    [/ ? # :]; [None] without [://] or with an empty host. *)
Fixpoint afterScheme (s : string) : option string :=
  match s with
  | String ":" (String "/" (String "/" r)) => Some r
  | String _ r => afterScheme r
  | EmptyString => None
  end.

Fixpoint upToDelimiter (s : string) : string :=
  match s with
  | String c r =>
      if existsb (Ascii.eqb c) ["/"; "?"; "#"; ":"]%char then EmptyString
      else String c (upToDelimiter r)
  | EmptyString => EmptyString
  end.

Definition schemeHost (url : string) : option string :=
  match afterScheme url with
  | Some r =>
      let host := upToDelimiter r in
      if String.eqb host "" then None else Some host
  | None => None
  end.

End Policy.

(** ** server.ts: the gateway's command pipeline

    The gateway is single-threaded: each handler runs to completion. Its
    state holds the module-level tables of server.ts together with the
    timers armed through [setTimeout] and the promises created so far; the
    [trace] lists the effects of the command pipeline in the order they
    happen. *)

Module Server.
Import Protocol Command Policy.

Definition WsId := nat.
Definition PromiseId := nat.
Definition TimerId := nat.

(** A websocket of the agent endpoint and its [readyState === OPEN]. *)
Record Socket := { ws : WsId; isOpen : bool }.

(** An entry of [replConnections]: the controller's socket and its
    subscription. *)
Record ReplConnection := {
  r_socket : Socket;
  subscribedTabId : option Z }.

(** An entry of [pendingCommands]. *)
Record Pending := { resolve : PromiseId; timeout : TimerId }.

(** An armed timer: the closure of the timeout callback of
    [executeCommand] holds the command and the promise's [resolve]. *)
Record Timer := {
  armedAt : Z;
  delay : Z;
  t_command : Command;
  t_resolve : PromiseId }.

Inductive Effect :=
| Created (p : PromiseId) (command : Command)
    (* [new Promise] of [executeCommand], returned to the caller *)
| ToExtension (to : WsId) (message : Command)
    (* [ws.send] on an agent socket *)
| ToRepl (to : WsId) (frame : CommandAck)
    (* [ws.send] of a broadcast acknowledgment on a controller socket *)
| Resolved (p : PromiseId) (ack : CommandAck)
    (* [resolve(ack)]: the caller of [executeCommand] receives [ack] *)
| Audit (commandId : option string) (type : CommandType) (tabId : Z)
    (result : string) (details : option string)
    (* the record written by [logCommand] *)
| Awaits (p : PromiseId) (to : WsId)
    (* [await executeCommand(command)] in the [act] case of
       [handleReplRequest], for the request of the controller on [to] *)
| Reply (p : PromiseId) (to : WsId) (frame : CommandAck).
    (* the call [ws.send(JSON.stringify(ack))] after that [await], on the
       socket the request came in on *)

Record Gateway := {
  world : WorldState.WorldState;
  policy : PolicyConfig;
  commandHistory : list Z;
  extensionConnections : list Socket;
  replConnections : list ReplConnection;
  pendingCommands : gmap string Pending;
  timers : gmap TimerId Timer;
  nextPromise : PromiseId;
  nextTimer : TimerId;
  trace : list Effect }.

Definition init : Gateway :=
  {| world := {| WorldState.tabs := ∅ |};
     policy := defaultConfig;
     commandHistory := [];
     extensionConnections := [];
     replConnections := [];
     pendingCommands := ∅;
     timers := ∅;
     nextPromise := 0%nat;
     nextTimer := 0%nat;
     trace := [] |}.

(** [sendToExtension]: the frame sent on the first open agent socket, or
    [None] for [false]. *)
Definition sendToExtension (message : Command) (conns : list Socket)
  : option Effect :=
  match List.find isOpen conns with
  | Some s => Some (ToExtension (ws s) message)
  | None => None
  end.

(** [broadcastToRepl]: the frames sent, in the order of the connection
    table. [msgTabId] is [(message as any).tabId]. *)
Definition receives (msgTabId : option Z) (c : ReplConnection) : bool :=
  if negb (isOpen (r_socket c)) then false
  else match subscribedTabId c, msgTabId with
       | Some sub, Some t => Z.eqb t sub
       | _, _ => true
       end.

Definition broadcastToRepl (message : CommandAck) (msgTabId : option Z)
    (conns : list ReplConnection) : list Effect :=
  List.map (fun c => ToRepl (ws (r_socket c)) message)
    (List.filter (receives msgTabId) conns).

(** [logCommand] *)
Definition logCommand (config : PolicyConfig) (command : Command)
    (result : string) (details : option string) : list Effect :=
  if negb (logAllCommands config) then []
  else [Audit (commandId command) (commandType command) (tabId command)
          result details].

(** [handleCommandAck] *)
Definition handleCommandAck (ack : CommandAck) (g : Gateway) : Gateway :=
  let forwarded := broadcastToRepl ack (a_tabId ack) (replConnections g) in
  match pendingCommands g !! a_commandId ack with
  | Some pending =>
      {| world := world g; policy := policy g;
         commandHistory := commandHistory g;
         extensionConnections := extensionConnections g;
         replConnections := replConnections g;
         pendingCommands := delete (a_commandId ack) (pendingCommands g);
         timers := delete (timeout pending) (timers g);
         nextPromise := nextPromise g; nextTimer := nextTimer g;
         trace := trace g ++ Resolved (resolve pending) ack :: forwarded |}
  | None =>
      {| world := world g; policy := policy g;
         commandHistory := commandHistory g;
         extensionConnections := extensionConnections g;
         replConnections := replConnections g;
         pendingCommands := pendingCommands g;
         timers := timers g;
         nextPromise := nextPromise g; nextTimer := nextTimer g;
         trace := trace g ++ forwarded |}
  end.

(** [if (!command.commandId) command.commandId = generateCommandId()];
    [gen] is the generated identifier. *)
Definition ensureCommandId (gen : string) (command : Command) : Command :=
  if JsString.truthy (commandId command) then command
  else {| commandId := Some gen; tabId := tabId command;
          body := body command |}.

(** The readings of the clock during one call of [executeCommand]. *)
Record Clock := {
  atCheck : Z;    (* [checkRateLimits] *)
  atRecord : Z;   (* [recordCommand] *)
  atAck : Z;      (* the timestamp of a synthesized acknowledgment *)
  atArm : Z }.    (* [setTimeout] *)

Definition COMMAND_TIMEOUT : Z := 30000.

Definition failAck (command : Command) (reason : string) (now : Z)
  : CommandAck :=
  {| a_commandId := default "" (commandId command);
     status := fail reason;
     timestamp := now;
     a_tabId := None |}.

Section WithUrlParser.

Variable hostname : string -> option string.

(** The "check policy" step of [executeCommand]: the tab and the candidate
    are looked up and handed to [checkCommand]. *)
Definition consultPolicy (clk : Clock) (command : Command) (g : Gateway)
  : PolicyCheckResult * list Z :=
  let tab := WorldState.getTab (tabId command) (world g) in
  let candidate :=
    tab ≫= fun t => targetId command ≫= fun i => WorldState.candidates t !! i in
  checkCommand hostname (policy g) (atCheck clk) (atRecord clk) command
    (WorldState.url <$> tab) (name <$> candidate) (commandHistory g).

(** [executeCommand]; the promise it returns is [nextPromise g]. *)
Definition executeCommand (clk : Clock) (gen : string) (command : Command)
    (g : Gateway) : Gateway :=
  let p := nextPromise g in
  let command := ensureCommandId gen command in
  let '(policyResult, history) := consultPolicy clk command g in
  if negb (allowed policyResult) then
    let ack :=
      failAck command
        (if JsString.truthy (reason policyResult)
         then default "" (reason policyResult) else "Policy denied")
        (atAck clk) in
    {| world := world g; policy := policy g;
       commandHistory := history;
       extensionConnections := extensionConnections g;
       replConnections := replConnections g;
       pendingCommands := pendingCommands g;
       timers := timers g;
       nextPromise := S p; nextTimer := nextTimer g;
       trace := trace g ++ Created p command
                  :: logCommand (policy g) command "fail" (reason policyResult)
                  ++ [Resolved p ack] |}
  else
    match sendToExtension command (extensionConnections g) with
    | None =>
        let ack := failAck command "No extension connected" (atAck clk) in
        {| world := world g; policy := policy g;
           commandHistory := history;
           extensionConnections := extensionConnections g;
           replConnections := replConnections g;
           pendingCommands := pendingCommands g;
           timers := timers g;
           nextPromise := S p; nextTimer := nextTimer g;
           trace := trace g ++ [Created p command; Resolved p ack] |}
    | Some sent =>
        let timer :=
          {| armedAt := atArm clk; delay := COMMAND_TIMEOUT;
             t_command := command; t_resolve := p |} in
        {| world := world g; policy := policy g;
           commandHistory := history;
           extensionConnections := extensionConnections g;
           replConnections := replConnections g;
           pendingCommands :=
             <[default "" (commandId command) :=
                 {| resolve := p; timeout := nextTimer g |}]>
               (pendingCommands g);
           timers := <[nextTimer g := timer]> (timers g);
           nextPromise := S p; nextTimer := S (nextTimer g);
           trace := trace g ++ [Created p command; sent] |}
    end.

End WithUrlParser.

(** The callback of the timeout, run by the runtime for the armed timer
    [tid] once its delay has elapsed; [now] is the clock at that time. A
    timer that is not armed or not yet due does not fire. *)
Definition fireTimer (now : Z) (tid : TimerId) (g : Gateway) : Gateway :=
  match timers g !! tid with
  | Some timer =>
      if armedAt timer + delay timer <=? now then
        let command := t_command timer in
        {| world := world g; policy := policy g;
           commandHistory := commandHistory g;
           extensionConnections := extensionConnections g;
           replConnections := replConnections g;
           pendingCommands :=
             delete (default "" (commandId command)) (pendingCommands g);
           timers := delete tid (timers g);
           nextPromise := nextPromise g; nextTimer := nextTimer g;
           trace := trace g
                      ++ logCommand (policy g) command "fail" (Some "timeout")
                      ++ [Resolved (t_resolve timer)
                            (failAck command "Command timeout" now)] |}
      else g
  | None => g
  end.

(** The [query] case of [handleReplRequest]: the candidates sent back to
    the controller; [search] is [None] when the request has none. *)
Definition handleQuery (tabId : Z) (search : option string)
    (filters : option WorldState.Filters) (g : Gateway) : list ActionCandidate :=
  if JsString.truthy search
  then WorldState.searchCandidates tabId (default "" search) filters (world g)
  else WorldState.getCandidates tabId (world g).

(** The acknowledgments [resolve] was called with for promise [p]. *)
Definition resolutions (p : PromiseId) (tr : list Effect) : list CommandAck :=
  omap (fun e => match e with
                 | Resolved q ack => if Nat.eqb q p then Some ack else None
                 | _ => None
                 end) tr.

(** The command promise [p] was created for. *)
Definition submitted (p : PromiseId) (tr : list Effect) : list Command :=
  omap (fun e => match e with
                 | Created q command => if Nat.eqb q p then Some command else None
                 | _ => None
                 end) tr.

(** The frames that reached controller sockets through
    [broadcastToRepl]. *)
Definition controllerFrames (tr : list Effect) : list (WsId * CommandAck) :=
  omap (fun e => match e with
                 | ToRepl to frame => Some (to, frame)
                 | _ => None
                 end) tr.

(** The frames that reached agent sockets. *)
Definition agentFrames (tr : list Effect) : list (WsId * Command) :=
  omap (fun e => match e with
                 | ToExtension to message => Some (to, message)
                 | _ => None
                 end) tr.

(** The replies to the [act] request that awaits promise [p]. *)
Definition replies (p : PromiseId) (tr : list Effect) : list (WsId * CommandAck) :=
  omap (fun e => match e with
                 | Reply q to frame => if Nat.eqb q p then Some (to, frame) else None
                 | _ => None
                 end) tr.

(** The controller whose [act] request awaits promise [p]. *)
Definition awaiter (p : PromiseId) (tr : list Effect) : option WsId :=
  head (omap (fun e => match e with
                       | Awaits q to => if Nat.eqb q p then Some to else None
                       | _ => None
                       end) tr).

(** The gateway with its trace replaced. *)
Definition withTrace (g : Gateway) (tr : list Effect) : Gateway :=
  {| world := world g; policy := policy g;
     commandHistory := commandHistory g;
     extensionConnections := extensionConnections g;
     replConnections := replConnections g;
     pendingCommands := pendingCommands g;
     timers := timers g;
     nextPromise := nextPromise g; nextTimer := nextTimer g;
     trace := tr |}.

(** The continuations that run once a handler has returned. For every
    promise among the effects [new] that is resolved for the first time
    and that an [act] request awaits, the request goes on after its
    [await] and sends the acknowledgment on its socket; [tr] is the trace
    before [new]. A promise keeps the value of its first [resolve]. *)
Fixpoint settle (tr new : list Effect) : list Effect :=
  match new with
  | [] => []
  | e :: rest =>
      match e with
      | Resolved p ack =>
          match resolutions p tr, awaiter p tr with
          | [], Some to => [Reply p to ack]
          | _, _ => []
          end
      | _ => []
      end ++ settle (tr ++ [e]) rest
  end.

(** The handler has taken the gateway from [before] to [after]; the
    continuations of the promises it has resolved run next. *)
Definition resume (before after : Gateway) : Gateway :=
  withTrace after
    (trace after
     ++ settle (trace before)
          (drop (List.length (trace before)) (trace after))).

Section WithUrlParser.

Variable hostname : string -> option string.

(** The [act] case of [handleReplRequest], for the controller on socket
    [to]: the command id is ensured,
    [const ack = await executeCommand(command)], then
    [ws.send(JSON.stringify(ack))]. When the promise is resolved by the
    time [executeCommand] returns, the reply follows at once. *)
Definition handleAct (to : WsId) (clk : Clock) (gen : string)
    (command : Command) (g : Gateway) : Gateway :=
  let p := nextPromise g in
  let command := ensureCommandId gen command in
  let g1 := executeCommand hostname clk gen command g in
  withTrace g1
    (trace g1
     ++ Awaits p to
        :: match resolutions p (trace g1) with
           | ack :: _ => [Reply p to ack]
           | [] => []
           end).

End WithUrlParser.

(** Who calls [executeCommand]: the [act] case of [handleReplRequest] for
    a controller, or the route [POST /command], whose response is not a
    frame on a socket. *)
Inductive Caller :=
| Controller (to : WsId)
| Http.

(** What happens at the gateway. [Other] stands for every handler outside
    the command pipeline (telemetry, connections opening and closing,
    subscriptions, policy updates): it may change the world state, the
    policy and the two connection tables in any way, and touches nothing
    else. *)
Inductive Event :=
| Act (caller : Caller) (clk : Clock) (gen : string) (command : Command)
| AgentAck (ack : CommandAck)
| TimerFires (now : Z) (tid : TimerId)
| Other (world' : WorldState.WorldState) (policy' : PolicyConfig)
    (agents : list Socket) (controllers : list ReplConnection).

Definition step (hostname : string -> option string)
    (g : Gateway) (e : Event) : Gateway :=
  match e with
  | Act (Controller to) clk gen command => handleAct hostname to clk gen command g
  | Act Http clk gen command => executeCommand hostname clk gen command g
  | AgentAck ack => resume g (handleCommandAck ack g)
  | TimerFires now tid => resume g (fireTimer now tid g)
  | Other world' policy' agents controllers =>
      {| world := world'; policy := policy';
         commandHistory := commandHistory g;
         extensionConnections := agents;
         replConnections := controllers;
         pendingCommands := pendingCommands g;
         timers := timers g;
         nextPromise := nextPromise g; nextTimer := nextTimer g;
         trace := trace g |}
  end.

Definition run (hostname : string -> option string)
    (events : list Event) (g : Gateway) : Gateway :=
  fold_left (step hostname) events g.

End Server.

(** ** watchers.ts: the in-page diff of two candidate sets *)

Module Watchers.
Import Protocol.

Definition rectChangedBy (oldR newR : Rect) : bool :=
  (Z.abs (x oldR - x newR) >? 2)
  || (Z.abs (y oldR - y newR) >? 2)
  || (Z.abs (w oldR - w newR) >? 2)
  || (Z.abs (h oldR - h newR) >? 2).

Definition stateChanged (oldS newS : ActionState) : bool :=
  negb (Bool.eqb (disabled oldS) (disabled newS))
  || negb (Bool.eqb (expanded oldS) (expanded newS))
  || negb (Bool.eqb (checked oldS) (checked newS))
  || negb (Bool.eqb (selected oldS) (selected newS))
  || negb (Bool.eqb (focused oldS) (focused newS)).

Definition ctxChanged (oldC newC : ActionContext) : bool :=
  negb (Bool.eqb (inModal oldC) (inModal newC))
  || negb (Bool.eqb (inNav oldC) (inNav newC)).

(** [diffCandidate]: the changed fields, or [None] for [null]. *)
Definition diffCandidate (oldCandidate newCandidate : ActionCandidate)
  : option CandidateUpdate :=
  let rectCh := rectChangedBy (rect oldCandidate) (rect newCandidate) in
  let stateCh := stateChanged (state oldCandidate) (state newCandidate) in
  let nameCh := negb (String.eqb (name oldCandidate) (name newCandidate)) in
  let valueCh := negb (bool_decide (value oldCandidate = value newCandidate)) in
  let occludedCh := negb (Bool.eqb (occluded oldCandidate) (occluded newCandidate)) in
  let ctxCh := ctxChanged (ctx oldCandidate) (ctx newCandidate) in
  let changes :=
    {| u_id := None;
       u_rect := if rectCh then Some (rect newCandidate) else None;
       u_rectN := if rectCh then Some (rectN newCandidate) else None;
       u_role := None;
       u_tag := None;
       u_name := if nameCh then Some (name newCandidate) else None;
       u_aria := None;
       u_placeholder := None;
       u_value := if valueCh then Some (value newCandidate) else None;
       u_href := None;
       u_state := if stateCh then Some (state newCandidate) else None;
       u_ctx := if ctxCh then Some (ctx newCandidate) else None;
       u_styleHint := None;
       u_hit := if rectCh then Some (hit newCandidate) else None;
       u_occluded := if occludedCh then Some (occluded newCandidate) else None;
       u_frameId := None |} in
  let hasChanges := rectCh || stateCh || nameCh || valueCh || occludedCh || ctxCh in
  if hasChanges then Some changes else None.

(** The object literal [{ id, ...diff }]: a key [id] of [diff] would
    overwrite the first one. *)
Definition withId (i : string) (diff : CandidateUpdate) : CandidateUpdate :=
  {| u_id := Some (default i (u_id diff));
     u_rect := u_rect diff; u_rectN := u_rectN diff; u_role := u_role diff;
     u_tag := u_tag diff; u_name := u_name diff; u_aria := u_aria diff;
     u_placeholder := u_placeholder diff; u_value := u_value diff;
     u_href := u_href diff; u_state := u_state diff; u_ctx := u_ctx diff;
     u_styleHint := u_styleHint diff; u_hit := u_hit diff;
     u_occluded := u_occluded diff; u_frameId := u_frameId diff |}.

(** [new Map(currentCandidates.map(c => [c.id, c]))] *)
Definition toMap (cs : list ActionCandidate) : gmap string ActionCandidate :=
  fold_left (fun m c => <[id c := c]> m) cs ∅.

(** One turn of the loop over [previousCandidates]. *)
Definition compare (currentMap : gmap string ActionCandidate)
    (acc : list string * list CandidateUpdate)
    (entry : string * ActionCandidate) : list string * list CandidateUpdate :=
  match currentMap !! entry.1 with
  | None => (acc.1 ++ [entry.1], acc.2)
  | Some newCandidate =>
      match diffCandidate entry.2 newCandidate with
      | Some diff => (acc.1, acc.2 ++ [withId entry.1 diff])
      | None => acc
      end
  end.

(** [computeDelta]; [previousCandidates] is the module-level map. *)
Definition computeDelta (now : Z)
    (previousCandidates : gmap string ActionCandidate)
    (currentCandidates : list ActionCandidate) : ActionMapDelta :=
  let currentMap := toMap currentCandidates in
  let '(removed, updated) :=
    fold_left (compare currentMap) (map_to_list previousCandidates) ([], []) in
  let added :=
    List.filter
      (fun c => negb (bool_decide (is_Some (previousCandidates !! id c))))
      currentCandidates in
  {| d_tabId := 0; d_frameId := 0; d_timestamp := now;
     added := added; removed := removed; updated := updated |}.

End Watchers.

(** ** executor.ts: execution of a command inside the page *)

Module Executor.
Import Protocol Command.

(** A [DOMRect]. *)
Record Bounds := { b_left : Q; b_top : Q; b_width : Q; b_height : Q }.

(** [Math.round]: to the nearest integer, halves upwards. *)
Definition round (q : Q) : Z := Qfloor (q + (1 # 2))%Q.

Record MouseEventInit := {
  button : Z;
  ctrlKey : option bool;
  shiftKey : option bool;
  altKey : option bool;
  metaKey : option bool;
  detail : Z }.

(** An operation on the page either returns, or throws an [Error] with a
    message; the page it has reached by then comes with the message. *)
Definition Throws (Page A : Type) : Type := (A + Page * string)%type.

Definition bind {Page A B} (m : Throws Page A) (k : A -> Throws Page B)
  : Throws Page B :=
  match m with
  | inl a => k a
  | inr e => inr e
  end.

Notation "x <- m ;; k" := (bind m (fun x => k))
  (at level 100, m at next level, right associativity).

(** The part of the browser the executor talks to. What an event
    handler, a focus change, a native click or the passing of time does
    to the page is left open. *)
Class Browser (Element Page : Type) := {
  getElementById : Page -> string -> option Element;
  getBoundingClientRect : Page -> Element -> Bounds;
  elementFromPoint : Page -> Q -> Q -> option Element;
  sameElement : Element -> Element -> bool;
  contains : Page -> Element -> Element -> bool;
  dispatchMouseEvent :
    Element -> string -> Q -> Q -> MouseEventInit -> Page -> Throws Page Page;
  isHTMLElement : Element -> bool;
  focusableOnClick : Page -> Element -> bool;
  focusElement : Element -> Page -> Throws Page Page;
  nativeClick : Element -> Page -> Throws Page Page;
  elapse : Z -> Page -> Page;
  (* the handlers of the commands other than hover and click; each of them
     ends in [ackOk] with a result or in [ackFail] with a reason *)
  otherCommand : CommandBody -> Page -> Page * (option string + string) }.

Section WithBrowser.
Context {Element Page : Type} `{Browser Element Page}.

Definition ackOk (commandId : string) (result : option string) (now : Z)
  : CommandAck :=
  {| a_commandId := commandId; status := ok result; timestamp := now;
     a_tabId := None |}.

Definition ackFail (commandId reason : string) (now : Z) : CommandAck :=
  {| a_commandId := commandId; status := fail reason; timestamp := now;
     a_tabId := None |}.

(** [ackVerify]; [element] is [None] for [null]. *)
Definition ackVerify (commandId id : string) (element : option Element)
    (page : Page) (now : Z) : CommandAck :=
  let stillVisible := bool_decide (is_Some element) in
  let hitTestOk := false in
  let rectChanged := false in
  let newRect : option Rect := None in
  let '(hitTestOk, newRect) :=
    match element with
    | Some el =>
        let bounds := getBoundingClientRect page el in
        let cx := (b_left bounds + b_width bounds / 2)%Q in
        let cy := (b_top bounds + b_height bounds / 2)%Q in
        let topEl := elementFromPoint page cx cy in
        (match topEl with
         | Some t => sameElement t el || contains page el t || contains page t el
         | None => false
         end,
         Some {| x := round (b_left bounds); y := round (b_top bounds);
                 w := round (b_width bounds); h := round (b_height bounds) |})
    | None => (hitTestOk, newRect)
    end in
  {| a_commandId := commandId;
     status := verify {| v_id := id; stillVisible := stillVisible;
                         hitTestOk := hitTestOk; rectChanged := rectChanged;
                         newRect := newRect |};
     timestamp := now;
     a_tabId := None |}.

(** [findElement] throws when the id is unknown. *)
Definition findElement (page : Page) (id : string) : Throws Page Element :=
  match getElementById page id with
  | Some el => inl el
  | None => inr (page, "Element not found: " +:+ id)
  end.

(** [simulateMouseEvent]: an event at the centre of the element. *)
Definition simulateMouseEvent (element : Element) (eventType : string)
    (options : MouseEventInit) (page : Page) : Throws Page Page :=
  let bounds := getBoundingClientRect page element in
  let cx := (b_left bounds + b_width bounds / 2)%Q in
  let cy := (b_top bounds + b_height bounds / 2)%Q in
  dispatchMouseEvent element eventType cx cy options page.

Definition plainEvent : MouseEventInit :=
  {| button := 0; ctrlKey := None; shiftKey := None; altKey := None;
     metaKey := None; detail := 0 |}.

(** [executeHover]: the page afterwards and the acknowledgment. *)
Definition executeHover (commandId id : string) (duration : option Z)
    (page : Page) (now : Z) : Page * CommandAck :=
  let attempt :=
    element <- findElement page id ;;
    page <- simulateMouseEvent element "mouseenter" plainEvent page ;;
    page <- simulateMouseEvent element "mouseover" plainEvent page ;;
    page <- simulateMouseEvent element "mousemove" plainEvent page ;;
    let page :=
      match duration with
      | Some d => if Z.eqb d 0 then page else elapse d page
      | None => page
      end in
    inl (page, ackVerify commandId id (Some element) page now) in
  match attempt with
  | inl r => r
  | inr (page, message) => (page, ackFail commandId message now)
  end.

(** The body of the [for] loop of [executeClick], for [i] from
    [clickCount - remaining] up to [clickCount - 1]. *)
Fixpoint clickSequence (element : Element) (modifiers : MouseEventInit)
    (i : Z) (remaining : nat) (page : Page) : Throws Page Page :=
  match remaining with
  | O => inl page
  | S remaining' =>
      let options :=
        {| button := button modifiers; ctrlKey := ctrlKey modifiers;
           shiftKey := shiftKey modifiers; altKey := altKey modifiers;
           metaKey := metaKey modifiers; detail := i + 1 |} in
      page <- simulateMouseEvent element "mousedown" options page ;;
      page <- simulateMouseEvent element "mouseup" options page ;;
      page <- simulateMouseEvent element "click" options page ;;
      clickSequence element modifiers (i + 1) remaining' page
  end.

Definition includesModifier (m : Modifier) (ms : option (list Modifier))
  : option bool :=
  (fun l => existsb (fun m' => bool_decide (m' = m)) l) <$> ms.

(** [executeClick] *)
Definition executeClick (commandId id : string) (btn : option Button)
    (mods : option (list Modifier)) (clickCount : option Z)
    (page : Page) (now : Z) : Page * CommandAck :=
  let attempt :=
    element <- findElement page id ;;
    let modifiers :=
      {| button := match btn with
                   | Some right => 2
                   | Some middle => 1
                   | _ => 0
                   end;
         ctrlKey := includesModifier ctrl mods;
         shiftKey := includesModifier shift mods;
         altKey := includesModifier alt mods;
         metaKey := includesModifier meta mods;
         detail := 0 |} in
    let clickCount :=
      match clickCount with
      | Some n => if Z.eqb n 0 then 1 else n
      | None => 1
      end in
    page <- clickSequence element modifiers 0 (Z.to_nat clickCount) page ;;
    page <- (if isHTMLElement element && focusableOnClick page element
             then focusElement element page else inl page) ;;
    page <- (if isHTMLElement element
             then nativeClick element page else inl page) ;;
    inl (page, ackVerify commandId id (Some element) page now) in
  match attempt with
  | inl r => r
  | inr (page, message) => (page, ackFail commandId message now)
  end.

(** The executor's [executeCommand]: the dispatch on the type of the
    command. *)
Definition executeCommand (command : Command) (page : Page) (now : Z)
  : Page * CommandAck :=
  let commandId := default "" (commandId command) in
  match body command with
  | HoverCommand id duration =>
      executeHover commandId id duration page now
  | ClickCommand id btn mods clickCount =>
      executeClick commandId id btn mods clickCount page now
  | other =>
      let '(page, outcome) := otherCommand other page in
      (page,
       match outcome with
       | inl result => ackOk commandId result now
       | inr reason => ackFail commandId reason now
       end)
  end.

End WithBrowser.

End Executor.

(** ** world-state.ts and server.ts: the telemetry handlers *)

Module Telemetry.
Import Protocol WorldState.

Record HelloMessage := {
  h_tabId : Z;
  h_url : string;
  h_viewport : Viewport;
  h_userAgent : string;
  h_timestamp : Z }.

Record ActionMapSnapshot := {
  s_tabId : Z;
  s_frameId : Z;
  s_url : string;
  s_viewport : Viewport;
  s_timestamp : Z;
  s_candidates : list ActionCandidate }.

Inductive EventType :=
| menu_opened | menu_closed | modal_opened | modal_closed
| navigation | load | unload.

Inductive TelemetryMessage :=
| hello (message : HelloMessage)
| snapshot (message : ActionMapSnapshot)
| delta (message : ActionMapDelta)
| pointer (tabId : Z) (px py buttons : Z)
| event (tabId : Z) (eventType : EventType)
| heartbeat.

(** [handleHello]; [created] is the clock read for [connectedAt] and [now]
    the one read for [lastUpdate]. [existing?.connectedAt || Date.now()]
    keeps the time of the first connection unless it is 0; the map of
    candidates and the history of an existing tab are kept. *)
Definition handleHello (created now : Z) (message : HelloMessage)
    (st : WorldState) : WorldState * TabState :=
  let existing := tabs st !! h_tabId message in
  let tabState :=
    {| tabId := h_tabId message;
       url := h_url message;
       viewport := h_viewport message;
       userAgent := h_userAgent message;
       connectedAt :=
         match existing with
         | Some e => if Z.eqb (connectedAt e) 0 then created else connectedAt e
         | None => created
         end;
       lastUpdate := now;
       candidates := default ∅ (candidates <$> existing);
       deltaHistory := default [] (deltaHistory <$> existing) |} in
  ({| tabs := <[h_tabId message := tabState]> (tabs st) |}, tabState).

(** [handleSnapshot]: the tab state is created if it is missing, then its
    candidates are cleared and rebuilt and its history is emptied.
    [created] is the clock read when a tab state is created, [now] the
    one read for the final [lastUpdate]. *)
Definition handleSnapshot (created now : Z) (message : ActionMapSnapshot)
    (st : WorldState) : WorldState * TabState :=
  let tabState :=
    match tabs st !! s_tabId message with
    | Some t => t
    | None =>
        {| tabId := s_tabId message;
           url := s_url message;
           viewport := s_viewport message;
           userAgent := "";
           connectedAt := created;
           lastUpdate := created;
           candidates := ∅;
           deltaHistory := [] |}
    end in
  let tabState :=
    {| tabId := tabId tabState;
       url := s_url message;
       viewport := s_viewport message;
       userAgent := userAgent tabState;
       connectedAt := connectedAt tabState;
       lastUpdate := now;
       candidates := applyAdditions (s_candidates message) ∅;
       deltaHistory := [] |} in
  ({| tabs := <[s_tabId message := tabState]> (tabs st) |}, tabState).

(** [handleDisconnect] *)
Definition handleDisconnect (tabId : Z) (st : WorldState) : WorldState :=
  {| tabs := delete tabId (tabs st) |}.

(** [getCandidate] *)
Definition getCandidate (tabId : Z) (candidateId : string) (st : WorldState)
  : option ActionCandidate :=
  tabs st !! tabId ≫= fun tabState => candidates tabState !! candidateId.

(** [clearState], as far as the tabs go. *)
Definition clearState : WorldState := {| tabs := ∅ |}.

(** What [handleTelemetry] of server.ts does to the tabs of the world
    state. The pointer is kept apart from the tabs and a heartbeat changes
    nothing. *)
Definition handleTelemetry (created now : Z) (message : TelemetryMessage)
    (st : WorldState) : WorldState :=
  match message with
  | hello m => (handleHello created now m st).1
  | snapshot m => (handleSnapshot created now m st).1
  | delta m => (handleDelta now m st).1
  | pointer _ _ _ _ => st
  | event tabId eventType =>
      match eventType with
      | unload => handleDisconnect tabId st
      | _ => st
      end
  | heartbeat => st
  end.

(** [(message as any).tabId], which a heartbeat does not have. *)
Definition messageTabId (message : TelemetryMessage) : option Z :=
  match message with
  | hello m => Some (h_tabId m)
  | snapshot m => Some (s_tabId m)
  | delta m => Some (d_tabId m)
  | pointer tabId _ _ _ => Some tabId
  | event tabId _ => Some tabId
  | heartbeat => None
  end.

(** The messages of an agent, each with the two readings of the clock at
    its arrival, handled one after the other. *)
Definition handleAll (messages : list (Z * Z * TelemetryMessage))
    (st : WorldState) : WorldState :=
  fold_left (fun st m => handleTelemetry m.1.1 m.1.2 m.2 st) messages st.

End Telemetry.

(** ** watchers.ts: the debounced update loop *)

Module Watching.
Import Protocol Watchers.

Definition TimeoutId := nat.

(** The module-level variables of watchers.ts. [deltaCallback] tells
    whether the callback of the content script is registered; [armed]
    holds the timeouts the runtime has yet to fire, and [emitted] the
    deltas handed to the callback so far. *)
Record Watcher := {
  previousCandidates : gmap string ActionCandidate;
  deltaCallback : bool;
  isWatching : bool;
  pendingUpdate : bool;
  updateTimeout : option TimeoutId;
  armed : gset TimeoutId;
  nextTimeout : TimeoutId;
  emitted : list ActionMapDelta }.

(** [clearTimeout(updateTimeout)] when it is not [null]. *)
Definition clearTimeout (handle : option TimeoutId) (timeouts : gset TimeoutId)
  : gset TimeoutId :=
  match handle with
  | Some h => timeouts ∖ {[h]}
  | None => timeouts
  end.

(** [processPendingUpdate]; [currentCandidates] is what [extractActionMap]
    returns and [now] the clock read by [computeDelta]. *)
Definition processPendingUpdate (now : Z)
    (currentCandidates : list ActionCandidate) (w : Watcher) : Watcher :=
  if negb (deltaCallback w) then w
  else
    let delta := computeDelta now (previousCandidates w) currentCandidates in
    {| previousCandidates := toMap currentCandidates;
       deltaCallback := deltaCallback w;
       isWatching := isWatching w;
       pendingUpdate := false;
       updateTimeout := None;
       armed := armed w;
       nextTimeout := nextTimeout w;
       emitted :=
         if (0 <? List.length (added delta))%nat
            || (0 <? List.length (removed delta))%nat
            || (0 <? List.length (updated delta))%nat
         then emitted w ++ [delta] else emitted w |}.

(** [scheduleUpdate] *)
Definition scheduleUpdate (w : Watcher) : Watcher :=
  if pendingUpdate w then w
  else
    {| previousCandidates := previousCandidates w;
       deltaCallback := deltaCallback w;
       isWatching := isWatching w;
       pendingUpdate := true;
       updateTimeout := Some (nextTimeout w);
       armed := {[nextTimeout w]} ∪ clearTimeout (updateTimeout w) (armed w);
       nextTimeout := S (nextTimeout w);
       emitted := emitted w |}.

(** [stopWatching] *)
Definition stopWatching (w : Watcher) : Watcher :=
  {| previousCandidates := ∅;
     deltaCallback := false;
     isWatching := false;
     pendingUpdate := pendingUpdate w;
     updateTimeout := None;
     armed := clearTimeout (updateTimeout w) (armed w);
     nextTimeout := nextTimeout w;
     emitted := emitted w |}.

(** [startWatching]: the new state and the candidates it returns, which
    are those of the initial extraction. *)
Definition startWatching (candidates : list ActionCandidate) (w : Watcher)
  : Watcher * list ActionCandidate :=
  let w := if isWatching w then stopWatching w else w in
  ({| previousCandidates := toMap candidates;
      deltaCallback := true;
      isWatching := true;
      pendingUpdate := pendingUpdate w;
      updateTimeout := updateTimeout w;
      armed := armed w;
      nextTimeout := nextTimeout w;
      emitted := emitted w |}, candidates).

(** [forceUpdate] *)
Definition forceUpdate (now : Z) (currentCandidates : list ActionCandidate)
    (w : Watcher) : Watcher :=
  if negb (deltaCallback w) then w
  else processPendingUpdate now currentCandidates w.

(** The runtime fires the timeout [h], if it is still armed. *)
Definition fireTimeout (h : TimeoutId) (now : Z)
    (currentCandidates : list ActionCandidate) (w : Watcher) : Watcher :=
  if decide (h ∈ armed w) then
    processPendingUpdate now currentCandidates
      {| previousCandidates := previousCandidates w;
         deltaCallback := deltaCallback w;
         isWatching := isWatching w;
         pendingUpdate := pendingUpdate w;
         updateTimeout := updateTimeout w;
         armed := armed w ∖ {[h]};
         nextTimeout := nextTimeout w;
         emitted := emitted w |}
  else w.

(** What happens to a watcher that has been started: an observer or a
    scroll or resize listener schedules an update, a timeout fires, or
    the content script forces an update. The page at that time comes
    with the event as the result of [extractActionMap]. *)
Inductive Event :=
| Changed
| TimeoutFires (h : TimeoutId) (now : Z) (page : list ActionCandidate)
| Forced (now : Z) (page : list ActionCandidate).

Definition step (w : Watcher) (e : Event) : Watcher :=
  match e with
  | Changed => scheduleUpdate w
  | TimeoutFires h now page => fireTimeout h now page w
  | Forced now page => forceUpdate now page w
  end.

Definition run (events : list Event) (w : Watcher) : Watcher :=
  fold_left step events w.


End Watching.

(** ** policy.ts: the status of the rate limit *)

Module PolicyState.
Import Command Policy.

Record RateLimitStatus := {
  commandsLastSecond : Z;
  commandsLastMinute : Z;
  maxPerSecond : Z;
  maxPerMinute : Z;
  remainingPerSecond : Z;
  remainingPerMinute : Z }.

(** [getRateLimitStatus]; it reads the history and leaves it as it is. *)
Definition getRateLimitStatus (config : PolicyConfig) (now : Z)
    (commandHistory : list Z) : RateLimitStatus :=
  let oneMinuteAgo := now - 60000 in
  let oneSecondAgo := now - 1000 in
  let commandsLastMinute :=
    Z.of_nat (List.length (List.filter (fun t => t >? oneMinuteAgo) commandHistory)) in
  let commandsLastSecond :=
    Z.of_nat (List.length (List.filter (fun t => t >? oneSecondAgo) commandHistory)) in
  {| commandsLastSecond := commandsLastSecond;
     commandsLastMinute := commandsLastMinute;
     maxPerSecond := maxCommandsPerSecond config;
     maxPerMinute := maxCommandsPerMinute config;
     remainingPerSecond := maxCommandsPerSecond config - commandsLastSecond;
     remainingPerMinute := maxCommandsPerMinute config - commandsLastMinute |}.

End PolicyState.

(** ** actionmap.ts: geometry of a candidate and lookup by text *)

Module ActionMap.
Import Protocol Policy Executor.

(** [getRect]; [vw] and [vh] are [window.innerWidth] and
    [window.innerHeight], which are positive. *)
Definition getRect (bounds : Bounds) (vw vh : Z) : Rect * RectN :=
  ({| x := round (b_left bounds);
      y := round (b_top bounds);
      w := round (b_width bounds);
      h := round (b_height bounds) |},
   {| nx := (b_left bounds / inject_Z vw)%Q;
      ny := (b_top bounds / inject_Z vh)%Q;
      nw := (b_width bounds / inject_Z vw)%Q;
      nh := (b_height bounds / inject_Z vh)%Q |}).

(** [getHitPoint] *)
Definition getHitPoint (rect : Rect) : HitPoint :=
  {| cx := round (inject_Z (x rect) + inject_Z (w rect) / 2)%Q;
     cy := round (inject_Z (y rect) + inject_Z (h rect) / 2)%Q |}.

(** The properties [isVisible] reads from [getComputedStyle]. *)
Record ComputedStyle := {
  display : string;
  visibility : string;
  opacity : string }.

(** [isVisible] *)
Definition isVisible (style : ComputedStyle) (rect : Rect) (vw vh : Z) : bool :=
  if (w rect =? 0) || (h rect =? 0) then false
  else if String.eqb (display style) "none" then false
  else if String.eqb (visibility style) "hidden" then false
  else if String.eqb (opacity style) "0" then false
  else if (x rect + w rect <? 0) || (x rect >? vw) then false
  else if (y rect + h rect <? 0) || (y rect >? vh) then false
  else true.

(** What [extractActionMap] reads from one element of
    [querySelectorAll(INTERACTIVE_SELECTORS)], apart from its geometry:
    the results of [getElementId], [getAccessibleName], [getRole] and the
    other readers, and of [isOccluded] for a hit point. *)
Record Reading := {
  e_bounds : Bounds;
  e_style : ComputedStyle;
  e_id : string;
  e_role : string;
  e_tag : string;
  e_name : string;
  e_aria : string;
  e_placeholder : option string;
  e_value : option string;
  e_href : option string;
  e_state : ActionState;
  e_ctx : ActionContext;
  e_styleHint : StyleHint;
  e_isOccluded : HitPoint -> bool }.

(** One turn of the loop of [extractActionMap]: [None] for [continue]. *)
Definition candidateOf (vw vh : Z) (element : Reading) : option ActionCandidate :=
  let '(rect, rectN) := getRect (e_bounds element) vw vh in
  if negb (isVisible (e_style element) rect vw vh) then None
  else
    let hit := getHitPoint rect in
    Some {| id := e_id element;
            rect := rect;
            rectN := rectN;
            role := e_role element;
            tag := e_tag element;
            name := e_name element;
            aria := e_aria element;
            placeholder := e_placeholder element;
            value := e_value element;
            href := e_href element;
            state := e_state element;
            ctx := e_ctx element;
            styleHint := e_styleHint element;
            hit := hit;
            occluded := e_isOccluded element hit;
            frameId := None |}.

(** [extractActionMap] *)
Definition extractActionMap (vw vh : Z) (elements : list Reading)
  : list ActionCandidate :=
  omap (candidateOf vw vh) elements.

(** *** [findCandidate] *)










End ActionMap.

(** ** executor.ts: the query command *)

Module AgentQuery.
Import Protocol WorldState ActionMap.


End AgentQuery.

(** ** The service worker: the queue of messages for the gateway *)

Module Background.
Import Command Telemetry.

Definition backpressureThreshold : nat := 100.

(** What [sendToBackend] is called with: a telemetry message, or an
    acknowledgment passed off as one. *)
Inductive Outbound :=
| Telemetry (message : TelemetryMessage)
| Ack (ack : CommandAck).

(** [m.type === 'snapshot' || m.type === 'hello'] *)
Definition essential (m : Outbound) : bool :=
  match m with
  | Telemetry (snapshot _) | Telemetry (hello _) => true
  | _ => false
  end.

(** [l.slice(-n)] *)
Definition lastN {A} (n : nat) (l : list A) : list A :=
  drop (List.length l - n) l.

(** [messageQueue.push(message)] and the backpressure that follows. *)
Definition enqueue (message : Outbound) (messageQueue : list Outbound)
  : list Outbound :=
  let messageQueue := messageQueue ++ [message] in
  if (backpressureThreshold <? List.length messageQueue)%nat
  then lastN 10 (List.filter essential messageQueue)
  else messageQueue.

(** The state of the socket as [sendToBackend] finds it. *)
Inductive Link :=
| Open (sendThrows : bool)
| NotOpen.

(** [sendToBackend]: the frame put on the socket, if any, and the queue
    afterwards. *)
Definition sendToBackend (link : Link) (message : Outbound)
    (messageQueue : list Outbound) : option Outbound * list Outbound :=
  match link with
  | Open false => (Some message, messageQueue)
  | Open true => (None, enqueue message messageQueue)
  | NotOpen => (None, enqueue message messageQueue)
  end.


End Background.

(** ** The service worker: frames from the gateway *)

Module Routing.
Import Command Telemetry Background.

(** A frame from the gateway, as [handleBackendMessage] tells them
    apart. *)
Inductive BackendMessage :=
| CommandFrame (command : Command)
| BroadcastFrame
| OtherFrame.

(** A port of [tabPorts]; [postMessage] on it may throw, which is caught
    and logged. *)
Record Port := { portId : nat; postThrows : bool }.

(** [port.postMessage(message)] inside its [try]: the message that
    reaches the content script of the tab. *)
Definition postMessage (tab : Z) (port : Port) (message : BackendMessage)
  : list (Z * BackendMessage) :=
  if postThrows port then [] else [(tab, message)].

Section WithNumberFormat.

(** The decimal form of a number in a template literal. *)
Variable showNumber : Z -> string.

(** [handleBackendMessage]: the messages posted to content scripts, the
    frame put on the socket, and the queue afterwards. The ports of a
    broadcast are visited in the order of [tabPorts], which the model
    takes from the keys. *)
Definition handleBackendMessage (now : Z) (link : Link)
    (message : BackendMessage) (tabPorts : gmap Z Port)
    (messageQueue : list Outbound)
  : list (Z * BackendMessage) * option Outbound * list Outbound :=
  match message with
  | CommandFrame command =>
      if JsString.truthy (commandId command) then
        match tabPorts !! tabId command with
        | Some port =>
            (postMessage (tabId command) port message, None, messageQueue)
        | None =>
            let ack :=
              {| a_commandId := default "" (commandId command);
                 status := fail ("Tab " +:+ showNumber (tabId command)
                                 +:+ " not connected");
                 timestamp := now;
                 a_tabId := None |} in
            let '(sent, messageQueue) :=
              sendToBackend link (Ack ack) messageQueue in
            ([], sent, messageQueue)
        end
      else ([], None, messageQueue)
  | BroadcastFrame =>
      (flat_map (fun entry => postMessage entry.1 entry.2 message)
         (map_to_list tabPorts),
       None, messageQueue)
  | OtherFrame => ([], None, messageQueue)
  end.

End WithNumberFormat.

End Routing.

(** ** From the content script to the gateway

    A message of a content script goes through its port to the service
    worker, which spreads it into a new object with the [tabId] of the
    sending tab and hands it to [sendToBackend]; that one puts
    [JSON.stringify(message)] on the socket, and the gateway handles
    [JSON.parse] of the frame. *)

Module Wire.
Import Protocol Command Telemetry.

(** A key of an object through [JSON.stringify] and [JSON.parse]: a key
    that holds [undefined] is left out of the text, so that it is absent
    from the parsed object. *)
Definition parsedKey {A} (key : option (option A)) : option (option A) :=
  match key with
  | Some None => None
  | _ => key
  end.

(** An entry of [delta.updated] as the gateway parses it. *)
Definition updateReceived (u : CandidateUpdate) : CandidateUpdate :=
  {| u_id := u_id u;
     u_rect := u_rect u;
     u_rectN := u_rectN u;
     u_role := u_role u;
     u_tag := u_tag u;
     u_name := u_name u;
     u_aria := u_aria u;
     u_placeholder := parsedKey (u_placeholder u);
     u_value := parsedKey (u_value u);
     u_href := parsedKey (u_href u);
     u_state := u_state u;
     u_ctx := u_ctx u;
     u_styleHint := u_styleHint u;
     u_hit := u_hit u;
     u_occluded := u_occluded u;
     u_frameId := parsedKey (u_frameId u) |}.

(** A delta of the watcher as the gateway parses it: [handleDelta] of the
    content script has set [frameId], the service worker [tabId]. *)
Definition deltaReceived (tabId frameId : Z) (d : ActionMapDelta)
  : ActionMapDelta :=
  {| d_tabId := tabId;
     d_frameId := frameId;
     d_timestamp := d_timestamp d;
     added := added d;
     removed := removed d;
     updated := updateReceived <$> updated d |}.

(** A snapshot of the content script as the gateway parses it. *)
Definition snapshotReceived (tabId : Z) (m : ActionMapSnapshot)
  : ActionMapSnapshot :=
  {| s_tabId := tabId;
     s_frameId := s_frameId m;
     s_url := s_url m;
     s_viewport := s_viewport m;
     s_timestamp := s_timestamp m;
     s_candidates := s_candidates m |}.

(** An acknowledgment of the executor as the gateway parses it. *)
Definition ackReceived (tabId : Z) (ack : CommandAck) : CommandAck :=
  {| a_commandId := a_commandId ack;
     status := status ack;
     timestamp := timestamp ack;
     a_tabId := Some tabId |}.

End Wire.

(** ** A tab and the gateway's copy of it

    The watcher of a tab and the world state of the gateway side by
    side, while the link between them is up: every message the content
    script sends is handled by the gateway, in the order of sending. *)

Module Session.
Import Protocol WorldState Telemetry Watchers Watching Wire.

(** What happens in the tab: the watcher goes its way, or the service
    worker asks for a snapshot ([request_snapshot]). The content script
    answers the request with [createSnapshotMessage(extractActionMap())]
    and does not touch the watcher; [message] is that snapshot, and
    [created] and [now] are the gateway's clock when it handles it. *)
Inductive Event :=
| Watched (e : Watching.Event)
| SnapshotRequested (created now : Z) (message : ActionMapSnapshot).

Record Session := {
  watcher : Watcher;
  gateway : WorldState }.

Section OneTab.

(** The id of the tab, the frame id of its content script, and the
    gateway's clock when it handles a delta. *)
Variables (tab frame : Z) (clock : ActionMapDelta -> Z).

(** The gateway handles the deltas the callback of the watcher has been
    called with. *)
Definition deliver (deltas : list ActionMapDelta) (st : WorldState)
  : WorldState :=
  fold_left
    (fun st d =>
       handleTelemetry (clock d) (clock d) (delta (deltaReceived tab frame d)) st)
    deltas st.

Definition step (s : Session) (e : Event) : Session :=
  match e with
  | Watched e =>
      let w := Watching.step (watcher s) e in
      {| watcher := w;
         gateway :=
           deliver (drop (List.length (emitted (watcher s))) (emitted w))
             (gateway s) |}
  | SnapshotRequested created now message =>
      {| watcher := watcher s;
         gateway :=
           handleTelemetry created now
             (snapshot (snapshotReceived tab message)) (gateway s) |}
  end.

Definition run (events : list Event) (s : Session) : Session :=
  fold_left step events s.

(** [connect] of the content script, after its hello: the watcher is
    started and the candidates it returns are sent as a snapshot;
    [candidates] is what [extractActionMap] returns to [startWatching],
    and [message] the snapshot without its candidates. *)
Definition connect (created now : Z) (message : ActionMapSnapshot)
    (candidates : list ActionCandidate) (w : Watcher) (st : WorldState)
  : Session :=
  let started := startWatching candidates w in
  let message :=
    {| s_tabId := s_tabId message;
       s_frameId := s_frameId message;
       s_url := s_url message;
       s_viewport := s_viewport message;
       s_timestamp := s_timestamp message;
       s_candidates := started.2 |} in
  {| watcher := started.1;
     gateway :=
       handleTelemetry created now
         (snapshot (snapshotReceived tab message)) st |}.

End OneTab.

End Session.

(** * Definitions used to state the properties *)

(** ** The words of the specification about a delta *)

Module DeltaSpec.
Import Protocol.

(** The added candidates as a map from their ids; of two added candidates
    with one id the later one stands. *)
Definition addedMap (cs : list ActionCandidate) : gmap string ActionCandidate :=
  WorldState.applyAdditions cs ∅.

(** [m \ removed] *)
Definition without (ids : list string) (m : gmap string ActionCandidate)
  : gmap string ActionCandidate :=
  filter (fun kv => kv.1 ∉ ids) m.

(** An update that carries a (non-empty) id is merged field by field into
    the candidate with that id, if there is one. *)
Definition mergeOne (m : gmap string ActionCandidate) (u : CandidateUpdate)
  : gmap string ActionCandidate :=
  match u_id u with
  | Some i => if String.eqb i "" then m else alter (fun c => assign c u) i m
  | None => m
  end.

Definition mergeById (us : list CandidateUpdate)
    (m : gmap string ActionCandidate) : gmap string ActionCandidate :=
  fold_left mergeOne us m.

(** "[(prev ∪ added) \ removed], then each [updated[i]] merged by id" *)
Definition unionThenRemove (prev : gmap string ActionCandidate)
    (d : ActionMapDelta) : gmap string ActionCandidate :=
  mergeById (updated d) (without (removed d) (addedMap (added d) ∪ prev)).

(** What the handler does: "remove listed ids, insert added (overwriting),
    merge updated". *)
Definition removeThenAdd (prev : gmap string ActionCandidate)
    (d : ActionMapDelta) : gmap string ActionCandidate :=
  mergeById (updated d) (addedMap (added d) ∪ without (removed d) prev).

(** The part of an update that concerns the candidate stored under [k]. *)
Definition updateFor (k : string) (u : CandidateUpdate) : CandidateUpdate :=
  match u_id u with
  | Some i => if String.eqb i "" then emptyUpdate
              else if String.eqb i k then u else emptyUpdate
  | None => emptyUpdate
  end.

(** Two updates in a row are one update: the keys of the second one win. *)
Definition andThen (u1 u2 : CandidateUpdate) : CandidateUpdate :=
  {| u_id := u_id u2 ∪ u_id u1;
     u_rect := u_rect u2 ∪ u_rect u1;
     u_rectN := u_rectN u2 ∪ u_rectN u1;
     u_role := u_role u2 ∪ u_role u1;
     u_tag := u_tag u2 ∪ u_tag u1;
     u_name := u_name u2 ∪ u_name u1;
     u_aria := u_aria u2 ∪ u_aria u1;
     u_placeholder := u_placeholder u2 ∪ u_placeholder u1;
     u_value := u_value u2 ∪ u_value u1;
     u_href := u_href u2 ∪ u_href u1;
     u_state := u_state u2 ∪ u_state u1;
     u_ctx := u_ctx u2 ∪ u_ctx u1;
     u_styleHint := u_styleHint u2 ∪ u_styleHint u1;
     u_hit := u_hit u2 ∪ u_hit u1;
     u_occluded := u_occluded u2 ∪ u_occluded u1;
     u_frameId := u_frameId u2 ∪ u_frameId u1 |}.

(** All the updates of a delta that concern [k], as one update. *)
Definition updatesFor (k : string) (us : list CandidateUpdate) : CandidateUpdate :=
  fold_left (fun acc u => andThen acc (updateFor k u)) us emptyUpdate.

(** The ids of the added candidates and the removed ids do not overlap. *)
Definition disjointIds (d : ActionMapDelta) : Prop :=
  forall c, c ∈ added d -> id c ∉ removed d.

End DeltaSpec.

(** ** The words of the specification about search *)

Module SearchSpec.
Import Protocol.

(** [s] contains [q], case-insensitively. *)
Definition containsIgnoringCase (q s : string) : Prop :=
  exists pre post,
    JsString.toLowerCase s = pre +:+ JsString.toLowerCase q +:+ post.

(** "contain the text case-insensitively in name, aria, or id" *)
Definition textMatches (q : string) (c : ActionCandidate) : Prop :=
  containsIgnoringCase q (name c)
  \/ containsIgnoringCase q (aria c)
  \/ containsIgnoringCase q (id c).

(** [c] is a candidate of tab [tabId]. *)
Definition stored (tabId : Z) (st : WorldState.WorldState) (c : ActionCandidate)
  : Prop :=
  exists t k, WorldState.tabs st !! tabId = Some t
              /\ WorldState.candidates t !! k = Some c.

Definition onlyRole (r : string) : WorldState.Filters :=
  {| WorldState.f_role := Some r; WorldState.f_tag := None;
     WorldState.f_visible := None; WorldState.f_enabled := None |}.

End SearchSpec.

(** ** The words of the specification about the policy *)

Module PolicySpec.
Import Command Policy.

(** [host] equals [d] or is a subdomain of it, case-insensitively. *)
Definition hostMatches (host d : string) : Prop :=
  JsString.toLowerCase host = JsString.toLowerCase d
  \/ exists sub,
      JsString.toLowerCase host = sub +:+ "." +:+ JsString.toLowerCase d.

Definition listed (config : PolicyConfig) (host : string) : Prop :=
  exists d, d ∈ domainList config /\ hostMatches host d.

(** The number of recorded timestamps in the last 60 seconds and in the
    last second before [now]; the windows are closed at 60 s and open
    at 1 s, as the check has them. *)
Definition lastMinute (now : Z) (history : list Z) : Z :=
  Z.of_nat (List.length (List.filter (fun t => now - 60000 <=? t) history)).

Definition lastSecond (now : Z) (history : list Z) : Z :=
  Z.of_nat (List.length (List.filter (fun t => now - 1000 <? t) history)).

(** The policy with both pattern tables switched off. *)
Definition withoutBlocks (config : PolicyConfig) : PolicyConfig :=
  {| domainMode := domainMode config;
     domainList := domainList config;
     blockPaymentActions := false;
     blockDeleteActions := false;
     requireUserPresent := requireUserPresent config;
     maxCommandsPerSecond := maxCommandsPerSecond config;
     maxCommandsPerMinute := maxCommandsPerMinute config;
     logAllCommands := logAllCommands config |}.

(** The name of the target is not known. *)
Definition nameAbsent (elementName : option string) : Prop :=
  elementName = None \/ elementName = Some "".

(** [s] contains [q] as it is written. *)
Definition contains (q s : string) : Prop :=
  exists pre post, s = pre +:+ q +:+ post.

(** The domain check of [checkCommand] lets the command through. *)
Definition domainPasses (hostname : string -> option string)
    (config : PolicyConfig) (tabUrl : option string) : Prop :=
  JsString.truthy tabUrl && negb (isDomainAllowed hostname config (default "" tabUrl))
  = false.

(** The pattern tables deny the command. *)
Definition patternDenies (config : PolicyConfig) (command : Command)
    (elementName : option string) : bool :=
  match commandType command with
  | click | type =>
      isPaymentAction config elementName || isDeleteAction config elementName
  | _ => false
  end.

Definition onePerSecond : PolicyConfig :=
  {| domainMode := all;
     domainList := [];
     blockPaymentActions := true;
     blockDeleteActions := true;
     requireUserPresent := false;
     maxCommandsPerSecond := 1;
     maxCommandsPerMinute := 300;
     logAllCommands := true |}.

Definition allowOnly (ds : list string) : PolicyConfig :=
  {| domainMode := allowlist;
     domainList := ds;
     blockPaymentActions := true;
     blockDeleteActions := true;
     requireUserPresent := false;
     maxCommandsPerSecond := 10;
     maxCommandsPerMinute := 300;
     logAllCommands := true |}.

Definition clickOn (i : string) : Command :=
  {| commandId := None; tabId := 1; body := ClickCommand i None None None |}.

Definition typeInto (i text : string) : Command :=
  {| commandId := None; tabId := 1; body := TypeCommand i text None None None |}.

Definition hoverOver (i : string) : Command :=
  {| commandId := None; tabId := 1; body := HoverCommand i None |}.

End PolicySpec.

(** ** The words of the specification about the command pipeline *)

Module ServerSpec.
Import Command Server.

(** The [commandId] a command carries once [executeCommand] has ensured
    it. *)
Definition idOf (command : Command) : string := default "" (commandId command).

(** How things stand for promise [p], created for [command]: it has been
    resolved once, with an acknowledgment that carries the command's id,
    or it has not been resolved and its timer is armed. *)
Definition Outcome (g : Gateway) (p : PromiseId) (command : Command) : Prop :=
  (exists ack, resolutions p (trace g) = [ack] /\ a_commandId ack = idOf command)
  \/ (resolutions p (trace g) = []
      /\ exists tid timer, timers g !! tid = Some timer /\ t_resolve timer = p).

(** The tables of a gateway agree with one another and with the trace. *)
Record Consistent (g : Gateway) : Prop := {
  timer_armed : forall tid timer,
    timers g !! tid = Some timer ->
    (tid < nextTimer g)%nat
    /\ delay timer = COMMAND_TIMEOUT
    /\ resolutions (t_resolve timer) (trace g) = []
    /\ submitted (t_resolve timer) (trace g) = [t_command timer];
  timer_per_promise : forall tid1 tid2 timer1 timer2,
    timers g !! tid1 = Some timer1 ->
    timers g !! tid2 = Some timer2 ->
    t_resolve timer1 = t_resolve timer2 -> tid1 = tid2;
  pending_armed : forall cid pending,
    pendingCommands g !! cid = Some pending ->
    exists timer,
      timers g !! timeout pending = Some timer
      /\ t_resolve timer = resolve pending
      /\ idOf (t_command timer) = cid;
  promise_fresh : forall p,
    (nextPromise g <= p)%nat ->
    submitted p (trace g) = [] /\ resolutions p (trace g) = [];
  promise_settled : forall p,
    (p < nextPromise g)%nat ->
    exists command, submitted p (trace g) = [command] /\ Outcome g p command }.

(** A piece of trace that neither creates nor resolves a promise. *)
Definition quiet (tr : list Effect) : Prop :=
  forall p, resolutions p tr = [] /\ submitted p tr = [].

(** A piece of trace in which no [act] request starts to wait and none is
    answered. *)
Definition silent (tr : list Effect) : Prop :=
  forall p, awaiter p tr = None /\ replies p tr = [].

(** The [act] requests and their replies: a promise not yet handed out is
    awaited by nobody, and the replies sent for a promise are the
    acknowledgments it has been resolved with, sent to the controller
    whose request awaits it. *)
Record Answered (g : Gateway) : Prop := {
  await_fresh : forall p,
    (nextPromise g <= p)%nat -> awaiter p (trace g) = None;
  replied : forall p,
    replies p (trace g)
    = match awaiter p (trace g) with
      | Some to => (fun ack => (to, ack)) <$> resolutions p (trace g)
      | None => []
      end }.

(** The controller hears the acknowledgment: its socket is open, and it
    is not subscribed to another tab than the one the acknowledgment
    names, if it names one. *)
Definition hears (ack : CommandAck) (c : ReplConnection) : Prop :=
  isOpen (r_socket c) = true
  /\ forall sub t, subscribedTabId c = Some sub -> a_tabId ack = Some t -> t = sub.

#[global] Instance hears_dec ack c : Decision (hears ack c).
Proof.
  unfold hears.
  destruct (subscribedTabId c) as [sub|], (a_tabId ack) as [t|].
  - destruct (decide (isOpen (r_socket c) = true /\ t = sub)) as [[? ->]|Hno].
    + left. split; [done|]. by intros ? ? [= <-] [= <-].
    + right. intros [Hopen Hsub]. apply Hno. split; [done|]. by apply Hsub.
  - destruct (decide (isOpen (r_socket c) = true)) as [Hopen|Hno].
    + left. split; [done|]. by intros ? ? _ [=].
    + right. by intros [? _].
  - destruct (decide (isOpen (r_socket c) = true)) as [Hopen|Hno].
    + left. split; [done|]. by intros ? ? [=].
    + right. by intros [? _].
  - destruct (decide (isOpen (r_socket c) = true)) as [Hopen|Hno].
    + left. split; [done|]. by intros ? ? [=].
    + right. by intros [? _].
Defined.

(** The frame the broadcast of [ack] puts on the socket of every
    controller that hears it. *)
Definition forwardedTo (conns : list ReplConnection) (ack : CommandAck)
  : list (WsId * CommandAck) :=
  List.map (fun c => (ws (r_socket c), ack))
    (List.filter (fun c => bool_decide (hears ack c)) conns).

(** A controller connected on socket 7, subscribed to tab 1. *)
Definition oneController : list ReplConnection :=
  [{| r_socket := {| ws := 7%nat; isOpen := true |}; subscribedTabId := Some 1 |}].

(** An agent connected on socket 3. *)
Definition oneAgent : list Socket := [{| ws := 3%nat; isOpen := true |}].

Definition strayAck : CommandAck :=
  {| a_commandId := "cmd_1_abcd"; status := ok None; timestamp := 5;
     a_tabId := Some 1 |}.

Definition noon : Clock :=
  {| atCheck := 5000; atRecord := 5000; atAck := 5001; atArm := 5001 |}.

End ServerSpec.

(** ** The words of the specification about the diff *)

Module WatchersSpec.
Import Protocol.

(** "any of [x,y,w,h] differs by more than 2 pixels" *)
Definition rectMoved (o n : Rect) : Prop :=
  2 < Z.abs (x o - x n) \/ 2 < Z.abs (y o - y n)
  \/ 2 < Z.abs (w o - w n) \/ 2 < Z.abs (h o - h n).

(** "any boolean in [state] differs" *)
Definition stateDiffers (o n : ActionState) : Prop :=
  disabled o <> disabled n \/ expanded o <> expanded n
  \/ checked o <> checked n \/ selected o <> selected n
  \/ focused o <> focused n.

(** "[inModal] or [inNav] differs" *)
Definition ctxDiffers (o n : ActionContext) : Prop :=
  inModal o <> inModal n \/ inNav o <> inNav n.

#[global] Instance rectMoved_dec o n : Decision (rectMoved o n).
Proof. unfold rectMoved. apply _. Defined.

#[global] Instance stateDiffers_dec o n : Decision (stateDiffers o n).
Proof. unfold stateDiffers. apply _. Defined.

#[global] Instance ctxDiffers_dec o n : Decision (ctxDiffers o n).
Proof. unfold ctxDiffers. apply _. Defined.

(** The two candidates differ in a way the diff reports. *)
Definition differs (o n : ActionCandidate) : Prop :=
  rectMoved (rect o) (rect n)
  \/ stateDiffers (state o) (state n)
  \/ name o <> name n
  \/ value o <> value n
  \/ occluded o <> occluded n
  \/ ctxDiffers (ctx o) (ctx n).

(** "A delta entry contains only [id] plus changed fields": the entry for
    [o] and [n] stored under [i]. *)
Definition entryFor (i : string) (o n : ActionCandidate) : CandidateUpdate :=
  {| u_id := Some i;
     u_rect := if decide (rectMoved (rect o) (rect n)) then Some (rect n) else None;
     u_rectN := if decide (rectMoved (rect o) (rect n)) then Some (rectN n) else None;
     u_role := None;
     u_tag := None;
     u_name := if decide (name o <> name n) then Some (name n) else None;
     u_aria := None;
     u_placeholder := None;
     u_value := if decide (value o <> value n) then Some (value n) else None;
     u_href := None;
     u_state := if decide (stateDiffers (state o) (state n)) then Some (state n) else None;
     u_ctx := if decide (ctxDiffers (ctx o) (ctx n)) then Some (ctx n) else None;
     u_styleHint := None;
     u_hit := if decide (rectMoved (rect o) (rect n)) then Some (hit n) else None;
     u_occluded := if decide (occluded o <> occluded n) then Some (occluded n) else None;
     u_frameId := None |}.

End WatchersSpec.

(** ** Sample data *)

Module Sample.
Import Protocol.

Definition button (i n : string) (isDisabled : bool) : ActionCandidate :=
  {| id := i;
     rect := {| x := 10; y := 10; w := 100; h := 30 |};
     rectN := {| nx := 10 # 1024; ny := 10 # 768; nw := 100 # 1024; nh := 30 # 768 |};
     role := "button"; tag := "button"; name := n; aria := "";
     placeholder := None; value := None; href := None;
     state := {| disabled := isDisabled; expanded := false; checked := false;
                 selected := false; focused := false |};
     ctx := {| inModal := false; inNav := false; inForm := false; depth := 3;
               formId := None |};
     styleHint := {| isPrimary := false; isDanger := false; cursorPointer := true;
                     backgroundColor := None; textColor := None |};
     hit := {| cx := 60; cy := 25 |};
     occluded := false;
     frameId := None |}.

Definition link (i n : string) : ActionCandidate :=
  {| id := i;
     rect := {| x := 10; y := 60; w := 80; h := 20 |};
     rectN := {| nx := 10 # 1024; ny := 60 # 768; nw := 80 # 1024; nh := 20 # 768 |};
     role := "link"; tag := "a"; name := n; aria := "";
     placeholder := None; value := None; href := Some "/help";
     state := {| disabled := false; expanded := false; checked := false;
                 selected := false; focused := false |};
     ctx := {| inModal := false; inNav := true; inForm := false; depth := 4;
               formId := None |};
     styleHint := {| isPrimary := false; isDanger := false; cursorPointer := true;
                     backgroundColor := None; textColor := None |};
     hit := {| cx := 50; cy := 70 |};
     occluded := false;
     frameId := None |}.

Definition tabWith (u : string) (cs : list ActionCandidate) : WorldState.TabState :=
  {| WorldState.tabId := 1;
     WorldState.url := u;
     WorldState.viewport := {| width := 1024; height := 768 |};
     WorldState.userAgent := "";
     WorldState.connectedAt := 0;
     WorldState.lastUpdate := 0;
     WorldState.candidates := WorldState.applyAdditions cs ∅;
     WorldState.deltaHistory := [] |}.

(** A text field that holds [v]. *)
Definition textField (i : string) (v : option string) : ActionCandidate :=
  {| id := i;
     rect := {| x := 10; y := 50; w := 200; h := 30 |};
     rectN := {| nx := 10 # 1024; ny := 50 # 768; nw := 200 # 1024; nh := 30 # 768 |};
     role := "textbox"; tag := "input"; name := "Search"; aria := "";
     placeholder := None; value := v; href := None;
     state := {| disabled := false; expanded := false; checked := false;
                 selected := false; focused := false |};
     ctx := {| inModal := false; inNav := false; inForm := true; depth := 4;
               formId := None |};
     styleHint := {| isPrimary := false; isDanger := false; cursorPointer := false;
                     backgroundColor := None; textColor := None |};
     hit := {| cx := 110; cy := 65 |};
     occluded := false;
     frameId := None |}.

Definition worldWith (u : string) (cs : list ActionCandidate)
  : WorldState.WorldState :=
  {| WorldState.tabs := {[ 1 := tabWith u cs ]} |}.

(** A delta that lists the id [a_0] both as removed and as added. *)
Definition overlapDelta : ActionMapDelta :=
  {| d_tabId := 1; d_frameId := 0; d_timestamp := 0;
     added := [button "a_0" "Sign in" false];
     removed := ["a_0"];
     updated := [] |}.

(** Scenario 5 of the specification: [a_1] added, [a_0] removed, [a_2]
    disabled. *)
Definition disableUpdate : CandidateUpdate :=
  {| u_id := Some "a_2"; u_rect := None; u_rectN := None; u_role := None;
     u_tag := None; u_name := None; u_aria := None; u_placeholder := None;
     u_value := None; u_href := None;
     u_state := Some {| disabled := true; expanded := false; checked := false;
                        selected := false; focused := false |};
     u_ctx := None; u_styleHint := None; u_hit := None; u_occluded := None;
     u_frameId := None |}.

Definition scenarioDelta : ActionMapDelta :=
  {| d_tabId := 1; d_frameId := 0; d_timestamp := 0;
     added := [button "a_1" "Register" false];
     removed := ["a_0"];
     updated := [disableUpdate] |}.

Definition scenarioWorld : WorldState.WorldState :=
  worldWith "https://a/" [button "a_0" "Sign in" false; button "a_2" "Submit" false].

End Sample.

(** ** A sample page

    One element, [a_0], whose left edge is the state of the page; every
    click event and the native click push it 50 pixels to the right. *)

Module SamplePage.
Import Executor.

Definition shiftOnClick (eventType : string) (page : Z) : Z :=
  if String.eqb eventType "click" then page + 50 else page.

#[global] Instance browser : Browser nat Z := {|
  getElementById := fun _ i => if String.eqb i "a_0" then Some 0%nat else None;
  getBoundingClientRect := fun page _ =>
    {| b_left := inject_Z page; b_top := 10; b_width := 100; b_height := 30 |};
  elementFromPoint := fun _ _ _ => Some 0%nat;
  sameElement := Nat.eqb;
  contains := fun _ a b => Nat.eqb a b;
  dispatchMouseEvent := fun _ eventType _ _ _ page => inl (shiftOnClick eventType page);
  isHTMLElement := fun _ => true;
  focusableOnClick := fun _ _ => true;
  focusElement := fun _ page => inl page;
  nativeClick := fun _ page => inl (page + 50);
  elapse := fun _ page => page;
  otherCommand := fun _ page => (page, inl None) |}.

End SamplePage.

(** ** What the telemetry handlers keep *)

Module WorldSpec.
Import Protocol WorldState Telemetry.

(** Every tab is stored under its own id, every candidate under its own
    id, and no history is longer than the limit. *)
Definition WellKept (st : WorldState) : Prop :=
  forall tab t,
    tabs st !! tab = Some t ->
    tabId t = tab
    /\ (forall k c, candidates t !! k = Some c -> id c = k)
    /\ (List.length (deltaHistory t) <= MAX_DELTA_HISTORY)%nat.

Definition helloFrom (tab : Z) (u : string) : TelemetryMessage :=
  hello {| h_tabId := tab; h_url := u;
           h_viewport := {| width := 1024; height := 768 |};
           h_userAgent := "agent"; h_timestamp := 0 |}.

Definition snapshotOf (tab : Z) (u : string) (cs : list ActionCandidate)
  : ActionMapSnapshot :=
  {| s_tabId := tab; s_frameId := 0; s_url := u;
     s_viewport := {| width := 1024; height := 768 |};
     s_timestamp := 0; s_candidates := cs |}.

(** What the history keeps for the [j]-th candidate [c] of [delta.added],
    the array being [cs]: the object the candidate map holds under the id
    of [c], unless a later candidate of the array carries the same id and
    has taken its place in the map. *)
Definition keptAs (cs : list ActionCandidate) (j : nat) (c : ActionCandidate)
  : AddedObject :=
  if decide (id c ∈ (id <$> drop (S j) cs)) then detached c else inMap (id c).

(** Every object said to be in the map [m] is there. *)
Definition anchoredObjects (m : gmap string ActionCandidate)
    (objs : list AddedObject) : Prop :=
  forall k, inMap k ∈ objs -> is_Some (m !! k).

Definition anchored (m : gmap string ActionCandidate)
    (hist : list StoredDelta) : Prop :=
  forall kept, kept ∈ hist -> anchoredObjects m (sd_added kept).

Definition Anchored (st : WorldState) : Prop :=
  forall tab t,
    tabs st !! tab = Some t -> anchored (candidates t) (deltaHistory t).

(** The update [{ id: i, name: n }]. *)
Definition rename (i n : string) : CandidateUpdate :=
  {| u_id := Some i; u_rect := None; u_rectN := None; u_role := None;
     u_tag := None; u_name := Some n; u_aria := None; u_placeholder := None;
     u_value := None; u_href := None; u_state := None; u_ctx := None;
     u_styleHint := None; u_hit := None; u_occluded := None;
     u_frameId := None |}.

(** A delta that adds the button [a_5], "Buy", and renames it "Pay" in
    its own list of updates. *)
Definition addThenRename : ActionMapDelta :=
  {| d_tabId := 1; d_frameId := 0; d_timestamp := 0;
     added := [Sample.button "a_5" "Buy" false];
     removed := [];
     updated := [rename "a_5" "Pay"] |}.

(** A delta that only updates. *)
Definition update (tab : Z) (us : list CandidateUpdate) : ActionMapDelta :=
  {| d_tabId := tab; d_frameId := 0; d_timestamp := 0;
     added := []; removed := []; updated := us |}.

(** A delta that only removes. *)
Definition removal (tab : Z) (ids : list string) : ActionMapDelta :=
  {| d_tabId := tab; d_frameId := 0; d_timestamp := 0;
     added := []; removed := ids; updated := [] |}.

End WorldSpec.

(** ** Gateway and agent in step *)

Module SyncSpec.
Import Protocol WatchersSpec.

(** The two maps hold the same ids, and the candidates under one id do
    not differ in anything the diff reports. *)
Definition inStep (m current : gmap string ActionCandidate) : Prop :=
  forall k,
    match m !! k, current !! k with
    | Some r, Some n => ~ differs r n
    | None, None => True
    | _, _ => False
    end.

(** The two candidates differ in a field the diff reports other than
    [value]. *)
Definition differsBesidesValue (o n : ActionCandidate) : Prop :=
  rectMoved (rect o) (rect n)
  \/ stateDiffers (state o) (state n)
  \/ name o <> name n
  \/ occluded o <> occluded n
  \/ ctxDiffers (ctx o) (ctx n).

(** The map [m] holds the ids of [current], and under each id a candidate
    that differs from the current one in no field the diff reports other
    than the value. Its value is the current one, except that where the
    current candidate has no value it is still the one [previous]
    holds. *)
Definition inStepButCleared (previous m current : gmap string ActionCandidate)
  : Prop :=
  forall k,
    match m !! k, current !! k with
    | Some g, Some n =>
        ~ differsBesidesValue g n
        /\ value g = match value n, previous !! k with
                     | None, Some o => value o
                     | _, _ => value n
                     end
    | None, None => True
    | _, _ => False
    end.

(** No candidate of [previous] has a value that [current] has not. *)
Definition noValueCleared (previous current : gmap string ActionCandidate)
  : Prop :=
  forall k o n,
    previous !! k = Some o -> current !! k = Some n ->
    value n = None -> value o = None.

(** The delta carries nothing. *)
Definition emptyDelta (d : ActionMapDelta) : Prop :=
  added d = [] /\ removed d = [] /\ updated d = [].

(** The entry a computed delta carries for one candidate of the previous
    set, if any. *)
Definition entryOf (currentMap : gmap string ActionCandidate)
    (e : string * ActionCandidate) : option CandidateUpdate :=
  currentMap !! e.1 ≫= fun n =>
    if decide (differs e.2 n) then Some (entryFor e.1 e.2 n) else None.

End SyncSpec.

(** ** The gateway's copy of a watched page *)

Module WatchingSpec.
Import Protocol WorldState Telemetry Watching.








(** A watcher that has never been started. *)
Definition idle : Watcher :=
  {| previousCandidates := ∅; deltaCallback := false; isWatching := false;
     pendingUpdate := false; updateTimeout := None; armed := ∅;
     nextTimeout := 0%nat; emitted := [] |}.

End WatchingSpec.

(** ** A session of the policy module *)

Module RateSpec.
Import Command Policy.

(** One call of [checkCommand]: the two readings of the clock and the
    arguments. *)
Record Call := {
  c_now : Z;
  c_recNow : Z;
  c_command : Command;
  c_tabUrl : option string;
  c_elementName : option string }.

(** The history after the calls, under one configuration. *)
Definition checkAll (hostname : string -> option string) (config : PolicyConfig)
    (calls : list Call) (commandHistory : list Z) : list Z :=
  fold_left
    (fun h c =>
       (checkCommand hostname config (c_now c) (c_recNow c) (c_command c)
          (c_tabUrl c) (c_elementName c) h).2)
    calls commandHistory.

(** The number of recorded commands in the second that ends at [T]. *)
Definition inSecond (T : Z) (commandHistory : list Z) : Z :=
  Z.of_nat
    (List.length
       (List.filter (fun t => (T - 1000 <? t) && (t <=? T)) commandHistory)).

(** The history respects the two limits. *)
Definition withinBudget (config : PolicyConfig) (commandHistory : list Z) : Prop :=
  Z.of_nat (List.length commandHistory) <= maxCommandsPerMinute config
  /\ forall T, inSecond T commandHistory <= maxCommandsPerSecond config.

Definition callAt (now : Z) (command : Command) : Call :=
  {| c_now := now; c_recNow := now; c_command := command;
     c_tabUrl := None; c_elementName := None |}.

End RateSpec.

(** ** A gateway with one agent and one controller *)

Module RoundTripSample.
Import Command Policy Server ServerSpec.

Definition connected : Gateway :=
  run schemeHost
    [Other (world init) defaultConfig oneAgent oneController] init.

Definition agentSocket : Socket := {| ws := 3%nat; isOpen := true |}.

Definition click : Command := PolicySpec.clickOn "a_0".

Definition clickAck : CommandAck :=
  {| a_commandId := "cmd_1"; status := ok None; timestamp := 6000;
     a_tabId := Some 1 |}.

(** The timer armed for [click] at [noon]. *)
Definition clickTimer : Timer :=
  {| armedAt := 5001; delay := COMMAND_TIMEOUT;
     t_command := ensureCommandId "cmd_1" click; t_resolve := 0%nat |}.

End RoundTripSample.

(** ** What an acknowledgment of the executor says *)

Module ExecutorSpec.
Import Protocol Command.


End ExecutorSpec.

(** ** A sample element *)

Module GeometrySample.
Import Protocol Executor ActionMap.

(** A button whose box is 99.5 pixels wide and starts at x = 10.5. *)
Definition reading : Reading :=
  {| e_bounds := {| b_left := 21 # 2; b_top := 10; b_width := 199 # 2;
                    b_height := 30 |};
     e_style := {| display := "block"; visibility := "visible"; opacity := "1" |};
     e_id := "a_0"; e_role := "button"; e_tag := "button";
     e_name := "Sign in"; e_aria := "";
     e_placeholder := None; e_value := None; e_href := None;
     e_state := {| disabled := false; expanded := false; checked := false;
                   selected := false; focused := false |};
     e_ctx := {| inModal := false; inNav := false; inForm := false; depth := 3;
                 formId := None |};
     e_styleHint := {| isPrimary := false; isDanger := false;
                       cursorPointer := true; backgroundColor := None;
                       textColor := None |};
     e_isOccluded := fun _ => false |}.

(** The same element with [display: none]. *)
Definition hiddenReading : Reading :=
  {| e_bounds := e_bounds reading;
     e_style := {| display := "none"; visibility := "visible"; opacity := "1" |};
     e_id := "a_1"; e_role := e_role reading; e_tag := e_tag reading;
     e_name := e_name reading; e_aria := e_aria reading;
     e_placeholder := None; e_value := None; e_href := None;
     e_state := e_state reading; e_ctx := e_ctx reading;
     e_styleHint := e_styleHint reading;
     e_isOccluded := fun _ => false |}.

End GeometrySample.

(** * Proofs *)

(** ** World state: deltas *)

Section DeltaFacts.
Import Protocol WorldState DeltaSpec.

Implicit Types (m : gmap string ActionCandidate) (c : ActionCandidate)
  (u : CandidateUpdate) (k : string).

Lemma assign_emptyUpdate c : assign c emptyUpdate = c.
Proof. by destruct c. Qed.

Lemma default_union {A} (a : A) (o1 o2 : option A) :
  default (default a o1) o2 = default a (o2 ∪ o1).
Proof. by destruct o1, o2. Qed.

Lemma assign_andThen c u1 u2 :
  assign (assign c u1) u2 = assign c (andThen u1 u2).
Proof. unfold assign, andThen; simpl. f_equal; apply default_union. Qed.

Lemma default_twice {A} (a : A) (o : option A) :
  default (default a o) o = default a o.
Proof. by destruct o. Qed.

(** Re-merging the same update changes no field. *)
Lemma assign_idempotent c u : assign (assign c u) u = assign c u.
Proof. unfold assign; simpl. f_equal; apply default_twice. Qed.

Lemma lookup_applyRemovals ids m k :
  applyRemovals ids m !! k = if decide (k ∈ ids) then None else m !! k.
Proof.
  unfold applyRemovals. revert m.
  induction ids as [|i ids IH]; intros m; cbn [fold_left].
  - destruct (decide (k ∈ [])) as [Hin|_]; [by apply elem_of_nil in Hin | done].
  - rewrite IH. destruct (decide (i = k)) as [->|Hne].
    + rewrite lookup_delete_eq.
      rewrite (decide_True (P := k ∈ k :: ids)) by left.
      by case_decide.
    + rewrite lookup_delete_ne by done.
      destruct (decide (k ∈ ids)) as [Hin|Hin].
      * by rewrite decide_True by (by right).
      * rewrite decide_False; [done|].
        intros [?|?]%elem_of_cons; congruence.
Qed.

Lemma applyRemovals_without ids m : applyRemovals ids m = without ids m.
Proof.
  apply map_eq; intros k. rewrite lookup_applyRemovals. unfold without.
  case_decide as Hin.
  - symmetry. apply map_lookup_filter_None. right. intros c _ Hn. by apply Hn.
  - destruct (m !! k) as [c|] eqn:Hk.
    + symmetry. by apply map_lookup_filter_Some.
    + symmetry. apply map_lookup_filter_None. by left.
Qed.

Lemma applyAdditions_union cs m : applyAdditions cs m = addedMap cs ∪ m.
Proof.
  unfold addedMap. revert m.
  induction cs as [|c cs IH]; intros m; simpl.
  - by rewrite (left_id_L ∅ (∪)).
  - rewrite IH, (IH (<[id c:=c]> ∅)).
    rewrite <- (assoc_L (∪)). f_equal.
    by rewrite <- insert_union_l, (left_id_L ∅ (∪)).
Qed.

Lemma applyUpdate_mergeOne m u : applyUpdate m u = mergeOne m u.
Proof.
  unfold applyUpdate, mergeOne.
  destruct (u_id u) as [i|]; [|done].
  destruct (String.eqb i ""); [done|].
  apply map_eq; intros k. destruct (decide (i = k)) as [->|Hne].
  - rewrite lookup_alter_eq. destruct (m !! k) eqn:Hk; simpl.
    + by rewrite lookup_insert_eq.
    + by rewrite Hk.
  - rewrite lookup_alter_ne by done.
    destruct (m !! i); [by rewrite lookup_insert_ne|done].
Qed.

Lemma applyUpdates_mergeById us m : applyUpdates us m = mergeById us m.
Proof.
  unfold applyUpdates, mergeById. revert m.
  induction us as [|u us IH]; intros m; simpl; [done|].
  by rewrite applyUpdate_mergeOne, IH.
Qed.

Lemma lookup_mergeOne m u k :
  mergeOne m u !! k = (fun c => assign c (updateFor k u)) <$> m !! k.
Proof.
  unfold mergeOne, updateFor.
  destruct (u_id u) as [i|].
  - destruct (String.eqb i "").
    + destruct (m !! k); simpl; by rewrite ?assign_emptyUpdate.
    + destruct (String.eqb_spec i k) as [->|Hne].
      * by rewrite lookup_alter_eq.
      * rewrite lookup_alter_ne by done.
        destruct (m !! k); simpl; by rewrite ?assign_emptyUpdate.
  - destruct (m !! k); simpl; by rewrite ?assign_emptyUpdate.
Qed.

Lemma fold_andThen_from (us : list CandidateUpdate) k acc (o : option ActionCandidate) :
  (fun c => assign c (fold_left (fun a u => andThen a (updateFor k u)) us acc)) <$> o
  = (fun c => assign c (updatesFor k us)) <$> ((fun c => assign c acc) <$> o).
Proof.
  unfold updatesFor. revert acc o.
  induction us as [|u us IH]; intros acc o; simpl.
  - destruct o; simpl; by rewrite ?assign_emptyUpdate.
  - rewrite (IH (andThen acc (updateFor k u)) o).
    rewrite (IH (andThen emptyUpdate (updateFor k u)) ((fun c => assign c acc) <$> o)).
    destruct o as [c|]; simpl; [|done].
    by rewrite <- !assign_andThen, assign_emptyUpdate.
Qed.

Lemma lookup_mergeById us m k :
  mergeById us m !! k = (fun c => assign c (updatesFor k us)) <$> m !! k.
Proof.
  unfold mergeById. revert m.
  induction us as [|u us IH]; intros m; simpl.
  - unfold updatesFor; simpl. destruct (m !! k); simpl; by rewrite ?assign_emptyUpdate.
  - rewrite IH, lookup_mergeOne.
    unfold updatesFor at 2; simpl.
    rewrite (fold_andThen_from us k (andThen emptyUpdate (updateFor k u)) (m !! k)).
    destruct (m !! k) as [c|]; simpl; [|done].
    by rewrite <- assign_andThen, assign_emptyUpdate.
Qed.

(** The candidate map after [handleDelta], key by key. *)
Lemma lookup_applyDelta now d t k :
  candidates (applyDelta now d t) !! k
  = (fun c => assign c (updatesFor k (updated d)))
      <$> (addedMap (added d) !! k
           ∪ (if decide (k ∈ removed d) then None else candidates t !! k)).
Proof.
  simpl. rewrite applyUpdates_mergeById, lookup_mergeById.
  by rewrite applyAdditions_union, lookup_union, lookup_applyRemovals.
Qed.

Lemma applyDelta_removeThenAdd now d t :
  candidates (applyDelta now d t) = removeThenAdd (candidates t) d.
Proof.
  simpl. unfold removeThenAdd.
  by rewrite applyUpdates_mergeById, applyAdditions_union, applyRemovals_without.
Qed.

Lemma addedMap_lookup_Some cs k c :
  addedMap cs !! k = Some c -> c ∈ cs /\ id c = k.
Proof.
  unfold addedMap, applyAdditions.
  assert (Hgen : forall m, fold_left (fun m c => <[id c:=c]> m) cs m !! k = Some c ->
                           (c ∈ cs /\ id c = k) \/ m !! k = Some c).
  { induction cs as [|c' cs IH]; intros m; simpl; [by right|].
    intros [[Hin Hid]|Hm]%IH.
    - left. split; [by right|done].
    - destruct (decide (id c' = k)) as [<-|Hne].
      + rewrite lookup_insert_eq in Hm. inversion Hm; subst. left. split; [by left|done].
      + rewrite lookup_insert_ne in Hm by done. by right. }
  intros [?|Hm]%Hgen; [done|]. by rewrite lookup_empty in Hm.
Qed.

Lemma removeThenAdd_unionThenRemove prev d :
  disjointIds d -> removeThenAdd prev d = unionThenRemove prev d.
Proof.
  intros Hdis. unfold removeThenAdd, unionThenRemove. f_equal.
  rewrite <- !applyRemovals_without.
  apply map_eq; intros k.
  rewrite lookup_union, !lookup_applyRemovals, lookup_union.
  destruct (addedMap (added d) !! k) as [c|] eqn:Hk.
  - apply addedMap_lookup_Some in Hk as [Hin <-].
    destruct (decide (id c ∈ removed d)) as [Hx|Hx]; [by apply Hdis in Hin|done].
  - rewrite !(left_id_L None (∪)). by destruct (decide (k ∈ removed d)).
Qed.

End DeltaFacts.

Section DeltaClaims.
Import Protocol WorldState DeltaSpec.

(** C1, as amended. For every delta whose tab has a TabState, [handleDelta]
    leaves that tab's candidate map equal to
    [(previous map \ removed) ∪ added] with the non-empty-id updates merged
    field by field into the candidate of that id; this is
    [(previous map ∪ added) \ removed] with the same merges whenever no id
    is both added and removed. *)
Theorem handleDelta_candidates now d st t :
  tabs st !! d_tabId d = Some t ->
  exists t',
    handleDelta now d st = ({| tabs := <[d_tabId d := t']> (tabs st) |}, Some t')
    /\ candidates t' = removeThenAdd (candidates t) d
    /\ (disjointIds d -> candidates t' = unionThenRemove (candidates t) d).
Proof.
  intros Ht. exists (applyDelta now d t). unfold handleDelta. rewrite Ht.
  split; [done|]. split.
  - apply applyDelta_removeThenAdd.
  - intros Hdis. rewrite applyDelta_removeThenAdd.
    by apply removeThenAdd_unionThenRemove.
Qed.

Lemma handleDelta_candidates_witness :
  tabs Sample.scenarioWorld !! d_tabId Sample.scenarioDelta
    = Some (Sample.tabWith "https://a/"
              [Sample.button "a_0" "Sign in" false;
               Sample.button "a_2" "Submit" false])
  /\ exists t',
      handleDelta 7 Sample.scenarioDelta Sample.scenarioWorld
      = ({| tabs := <[d_tabId Sample.scenarioDelta := t']> (tabs Sample.scenarioWorld) |},
         Some t')
      /\ candidates t'
         = removeThenAdd
             (candidates (Sample.tabWith "https://a/"
                [Sample.button "a_0" "Sign in" false;
                 Sample.button "a_2" "Submit" false]))
             Sample.scenarioDelta
      /\ (disjointIds Sample.scenarioDelta ->
          candidates t'
          = unionThenRemove
              (candidates (Sample.tabWith "https://a/"
                 [Sample.button "a_0" "Sign in" false;
                  Sample.button "a_2" "Submit" false]))
              Sample.scenarioDelta).
Proof.
  split; [reflexivity|].
  apply (handleDelta_candidates 7 Sample.scenarioDelta Sample.scenarioWorld).
  reflexivity.
Defined.

(** C1 as stated fails when an id is both added and removed: the handler
    keeps the added candidate, [(prev ∪ added) \ removed] does not. *)
Lemma handleDelta_overlap_counterexample :
  tabs (Sample.worldWith "https://a/" []) !! d_tabId Sample.overlapDelta
    = Some (Sample.tabWith "https://a/" [])
  /\ exists t',
      (handleDelta 7 Sample.overlapDelta (Sample.worldWith "https://a/" [])).2 = Some t'
      /\ candidates t' !! "a_0" = Some (Sample.button "a_0" "Sign in" false)
      /\ unionThenRemove (candidates (Sample.tabWith "https://a/" []))
           Sample.overlapDelta !! "a_0" = None
      /\ candidates t'
         <> unionThenRemove (candidates (Sample.tabWith "https://a/" []))
              Sample.overlapDelta.
Proof.
  split; [reflexivity|]. eexists. split; [reflexivity|].
  assert (Hcode : candidates (applyDelta 7 Sample.overlapDelta (Sample.tabWith "https://a/" []))
                    !! "a_0" = Some (Sample.button "a_0" "Sign in" false))
    by reflexivity.
  assert (Hclaim : unionThenRemove (candidates (Sample.tabWith "https://a/" []))
                     Sample.overlapDelta !! "a_0" = None)
    by (vm_compute; reflexivity).
  split; [exact Hcode|]. split; [exact Hclaim|].
  intros Heq. rewrite Heq in Hcode. congruence.
Qed.

(** Scenario 5: after the delta the tab holds [a_1] in full and [a_2]
    disabled, and [a_0] is gone. *)
Example handleDelta_scenario :
  exists t',
    (handleDelta 7 Sample.scenarioDelta Sample.scenarioWorld).2 = Some t'
    /\ candidates t' !! "a_0" = None
    /\ candidates t' !! "a_1" = Some (Sample.button "a_1" "Register" false)
    /\ candidates t' !! "a_2" = Some (Sample.button "a_2" "Submit" true).
Proof. eexists. repeat split; vm_compute; reflexivity. Qed.

End DeltaClaims.

Section ReplayClaims.
Import Protocol WorldState DeltaSpec.

Lemma applyDelta_replay now1 now2 d t :
  candidates (applyDelta now2 d (applyDelta now1 d t))
  = candidates (applyDelta now1 d t).
Proof.
  apply map_eq; intros k.
  rewrite (lookup_applyDelta now2), (lookup_applyDelta now1).
  destruct (addedMap (added d) !! k) as [c|], (decide (k ∈ removed d)),
    (candidates t !! k) as [c'|]; simpl; by rewrite ?assign_idempotent.
Qed.

Lemma applyRemovals_absent ids (m : gmap string ActionCandidate) :
  (forall i, i ∈ ids -> m !! i = None) -> applyRemovals ids m = m.
Proof.
  intros Habs. apply map_eq; intros k. rewrite lookup_applyRemovals.
  destruct (decide (k ∈ ids)) as [Hin|]; [|done].
  symmetry. by apply Habs.
Qed.

(** C3. For an existing TabState, applying the same delta a second time
    right after the first leaves the candidate map as the first
    application left it. Removing ids that are absent, adding again a
    candidate that is stored already and merging an update again each
    change nothing. *)
Theorem handleDelta_replay now1 now2 d st t :
  tabs st !! d_tabId d = Some t ->
  (exists st1 t1 st2 t2,
      handleDelta now1 d st = (st1, Some t1)
      /\ handleDelta now2 d st1 = (st2, Some t2)
      /\ candidates t2 = candidates t1)
  /\ (forall (m : gmap string ActionCandidate) ids,
        (forall i, i ∈ ids -> m !! i = None) -> applyRemovals ids m = m)
  /\ (forall (m : gmap string ActionCandidate) c,
        m !! id c = Some c -> applyAdditions [c] m = m)
  /\ (forall c u, assign (assign c u) u = assign c u).
Proof.
  intros Ht. repeat split.
  - eexists _, (applyDelta now1 d t), _, (applyDelta now2 d (applyDelta now1 d t)).
    unfold handleDelta. rewrite Ht. split; [reflexivity|].
    simpl. rewrite lookup_insert_eq. split; [reflexivity|].
    exact (applyDelta_replay now1 now2 d t).
  - intros m ids. apply applyRemovals_absent.
  - intros m c Hc. simpl. by apply insert_id.
  - apply assign_idempotent.
Qed.

Lemma handleDelta_replay_witness :
  tabs Sample.scenarioWorld !! d_tabId Sample.scenarioDelta
    = Some (Sample.tabWith "https://a/"
              [Sample.button "a_0" "Sign in" false;
               Sample.button "a_2" "Submit" false])
  /\ (exists st1 t1 st2 t2,
        handleDelta 7 Sample.scenarioDelta Sample.scenarioWorld = (st1, Some t1)
        /\ handleDelta 9 Sample.scenarioDelta st1 = (st2, Some t2)
        /\ candidates t2 = candidates t1).
Proof.
  split; [reflexivity|].
  refine (proj1 (handleDelta_replay 7 9 Sample.scenarioDelta Sample.scenarioWorld _ _)).
  reflexivity.
Defined.

End ReplayClaims.

(** ** World state: search *)

Section SearchFacts.
Import Protocol WorldState SearchSpec.

Lemma append_cons a (p post : string) :
  String a p +:+ post = String a (p +:+ post).
Proof. reflexivity. Qed.

Lemma append_empty (post : string) : "" +:+ post = post.
Proof. reflexivity. Qed.

Lemma startsWith_prefix p s :
  JsString.startsWith p s = true <-> exists post, s = p +:+ post.
Proof.
  revert s. induction p as [|a p IH]; intros s; simpl.
  - split; [intros _; by exists s|done].
  - destruct s as [|b s].
    + split; [done|]. by intros [post Hpost].
    + destruct (Ascii.eqb_spec a b) as [->|Hne].
      * rewrite IH. split; intros [post Hpost]; exists post;
          rewrite append_cons in *; congruence.
      * split; [done|]. intros [post Hpost]. rewrite append_cons in Hpost. congruence.
Qed.

Lemma includes_infix q s :
  JsString.includes q s = true <-> exists pre post, s = pre +:+ q +:+ post.
Proof.
  induction s as [|b s IH]; simpl.
  - rewrite orb_false_r, startsWith_prefix. split.
    + intros [post Hpost]. by exists "", post.
    + intros [pre [post Hpost]]. destruct pre as [|a pre].
      * by exists post.
      * by rewrite append_cons in Hpost.
  - rewrite orb_true_iff, startsWith_prefix, IH. split.
    + intros [[post Hpost]|[pre [post Hpost]]].
      * by exists "", post.
      * exists (String b pre), post. by rewrite append_cons, Hpost.
    + intros [pre [post Hpost]]. destruct pre as [|a pre].
      * left. by exists post.
      * right. exists pre, post. rewrite append_cons in Hpost. congruence.
Qed.

Lemma includes_containsIgnoringCase q s :
  JsString.includes (JsString.toLowerCase q) (JsString.toLowerCase s) = true
  <-> containsIgnoringCase q s.
Proof. apply includes_infix. Qed.

Lemma elem_of_getCandidates tabId st c :
  c ∈ getCandidates tabId st <-> stored tabId st c.
Proof.
  unfold getCandidates, stored. destruct (tabs st !! tabId) as [t|].
  - rewrite list_elem_of_fmap. split.
    + intros [[k c'] [-> Hin]]. apply elem_of_map_to_list in Hin. by exists t, k.
    + intros (t' & k & Ht & Hk). inversion Ht; subst t'.
      exists (k, c). split; [done|]. by apply elem_of_map_to_list.
  - split; [by intros ?%elem_of_nil|]. by intros (t & k & ? & _).
Qed.

Lemma truthy_Some_iff (o : option string) :
  JsString.truthy o = true <-> exists r, o = Some r /\ r <> "".
Proof.
  destruct o as [r|]; simpl.
  - destruct (String.eqb_spec r ""); simpl; split; try done.
    + intros (r' & Hr & Hne). congruence.
    + intros _. by exists r.
  - split; [done|]. by intros (r & ? & _).
Qed.

Lemma stringFilter_passes (o : option string) (actual : string) :
  negb (JsString.truthy o && negb (bool_decide (Some actual = o))) = true
  <-> forall r, o = Some r -> r <> "" -> actual = r.
Proof.
  destruct o as [r|]; simpl; [|done].
  destruct (String.eqb_spec r "") as [->|Hne]; simpl.
  - split; [|done]. intros _ r [= <-]. done.
  - case_bool_decide as Heq; simpl.
    + split; [|done]. intros _ r' [= <-] _. congruence.
    + split; [done|]. intros Hall. destruct Heq. f_equal. by apply Hall.
Qed.

Lemma boolFilter_passes (o : option bool) (actual : bool) :
  negb (bool_decide (Some actual = o)) = true
  <-> forall v, o = Some v -> actual = negb v.
Proof.
  case_bool_decide as Heq; simpl.
  - split; [done|]. intros Hall. subst o. specialize (Hall actual eq_refl).
    by destruct actual.
  - split; [|done]. intros _ v ->. destruct actual, v; try done; by destruct Heq.
Qed.

Lemma textFilter_passes search c :
  negb (negb (String.eqb search "")
        && negb (JsString.includes (JsString.toLowerCase search)
                   (JsString.toLowerCase (name c)))
        && negb (JsString.includes (JsString.toLowerCase search)
                   (JsString.toLowerCase (aria c)))
        && negb (JsString.includes (JsString.toLowerCase search)
                   (JsString.toLowerCase (id c)))) = true
  <-> (search <> "" -> textMatches search c).
Proof.
  unfold textMatches. rewrite <- !includes_containsIgnoringCase.
  destruct (String.eqb_spec search "") as [Hs|Hs]; simpl; [done|].
  destruct (JsString.includes _ (JsString.toLowerCase (name c))); simpl;
    [naive_solver|].
  destruct (JsString.includes _ (JsString.toLowerCase (aria c))); simpl;
    [naive_solver|].
  destruct (JsString.includes _ (JsString.toLowerCase (id c))); simpl;
    [naive_solver|].
  split; [done|]. intros Hm. by destruct (Hm Hs) as [?|[?|?]].
Qed.

Lemma searchKeeps_conjunction search filters c :
  searchKeeps search filters c
  = negb (negb (String.eqb search "")
          && negb (JsString.includes (JsString.toLowerCase search)
                     (JsString.toLowerCase (name c)))
          && negb (JsString.includes (JsString.toLowerCase search)
                     (JsString.toLowerCase (aria c)))
          && negb (JsString.includes (JsString.toLowerCase search)
                     (JsString.toLowerCase (id c))))
    && negb (JsString.truthy (filters ≫= f_role)
             && negb (bool_decide (Some (role c) = filters ≫= f_role)))
    && negb (JsString.truthy (filters ≫= f_tag)
             && negb (bool_decide (Some (tag c) = filters ≫= f_tag)))
    && negb (bool_decide (Some (occluded c) = filters ≫= f_visible))
    && negb (bool_decide (Some (disabled (state c)) = filters ≫= f_enabled)).
Proof.
  unfold searchKeeps.
  repeat match goal with
         | |- context [if ?b then _ else _] => destruct b; simpl; try reflexivity
         end.
Qed.

(** When [searchKeeps] holds of a candidate. *)
Lemma searchKeeps_true search filters c :
  searchKeeps search filters c = true <->
  (search <> "" -> textMatches search c)
  /\ (forall r, filters ≫= f_role = Some r -> r <> "" -> role c = r)
  /\ (forall t, filters ≫= f_tag = Some t -> t <> "" -> tag c = t)
  /\ (forall v, filters ≫= f_visible = Some v -> occluded c = negb v)
  /\ (forall e, filters ≫= f_enabled = Some e -> disabled (state c) = negb e).
Proof.
  rewrite searchKeeps_conjunction, !andb_true_iff.
  rewrite textFilter_passes, !stringFilter_passes, !boolFilter_passes.
  tauto.
Qed.

Lemma elem_of_searchCandidates tabId search filters st c :
  c ∈ searchCandidates tabId search filters st <->
  stored tabId st c /\ searchKeeps search filters c = true.
Proof.
  unfold searchCandidates.
  rewrite list_elem_of_In, filter_In, <- list_elem_of_In.
  by rewrite elem_of_getCandidates.
Qed.

End SearchFacts.

Section SearchClaims.
Import Protocol WorldState SearchSpec.

Lemma handleQuery_sign_in_button tabId g c :
  c ∈ Server.handleQuery tabId (Some "sign in") (Some (onlyRole "button")) g <->
  stored tabId (Server.world g) c
  /\ role c = "button"
  /\ textMatches "sign in" c.
Proof.
  unfold Server.handleQuery. simpl.
  rewrite elem_of_searchCandidates, searchKeeps_true. simpl. split.
  - intros (Hst & Htext & Hrole & _). split; [done|]. split.
    + by apply Hrole.
    + by apply Htext.
  - intros (Hst & Hrole & Htext). split; [done|]. repeat split; try done.
    intros r [= <-] _. done.
Qed.

(** C8, as amended. For every tab, search text and filters,
    [searchCandidates] returns exactly the candidates of the tab that
    (when the search text is non-empty) contain the text
    case-insensitively in name, aria or id, and that satisfy every filter:
    a role or tag filter that is a non-empty string by exact equality (an
    empty-string role or tag filter is ignored), [visible] keeping the
    candidates whose [occluded] is its negation, [enabled] keeping those
    whose [state.disabled] is its negation. In particular the controller
    query with search "sign in" and role "button" returns exactly the
    candidates with role "button" whose name, aria or id contains
    "sign in". *)
Theorem searchCandidates_exact :
  (forall tabId search filters st c,
      c ∈ searchCandidates tabId search filters st <->
      stored tabId st c
      /\ (search <> "" -> textMatches search c)
      /\ (forall r, filters ≫= f_role = Some r -> r <> "" -> role c = r)
      /\ (forall t, filters ≫= f_tag = Some t -> t <> "" -> tag c = t)
      /\ (forall v, filters ≫= f_visible = Some v -> occluded c = negb v)
      /\ (forall e, filters ≫= f_enabled = Some e -> disabled (state c) = negb e))
  /\ (forall tabId g c,
        c ∈ Server.handleQuery tabId (Some "sign in") (Some (onlyRole "button")) g <->
        stored tabId (Server.world g) c
        /\ role c = "button"
        /\ textMatches "sign in" c).
Proof.
  split.
  - intros tabId search filters st c.
    by rewrite elem_of_searchCandidates, searchKeeps_true.
  - apply handleQuery_sign_in_button.
Qed.

(** C8 as stated fails for an empty-string role filter: it is given, yet
    a candidate whose role is not the empty string is returned. *)
Lemma searchCandidates_empty_role_counterexample :
  Sample.button "a_0" "Sign in" false
    ∈ searchCandidates 1 "sign in" (Some (onlyRole ""))
        (Sample.worldWith "https://a/" [Sample.button "a_0" "Sign in" false])
  /\ f_role (onlyRole "") = Some ""
  /\ role (Sample.button "a_0" "Sign in" false) <> "".
Proof.
  split; [|split; [reflexivity|discriminate]].
  apply elem_of_searchCandidates. split; [|reflexivity].
  exists (Sample.tabWith "https://a/" [Sample.button "a_0" "Sign in" false]), "a_0".
  split; reflexivity.
Qed.

(** Scenario 6: of a button "Sign in" and a link "Sign in help", the
    query for "sign in" with role "button" returns the button only. *)
Example handleQuery_scenario :
  forall g,
    Server.world g
    = Sample.worldWith "https://a/"
        [Sample.button "a_0" "Sign in" false; Sample.link "a_1" "Sign in help"] ->
    Sample.button "a_0" "Sign in" false
      ∈ Server.handleQuery 1 (Some "sign in") (Some (onlyRole "button")) g
    /\ Sample.link "a_1" "Sign in help"
      ∉ Server.handleQuery 1 (Some "sign in") (Some (onlyRole "button")) g.
Proof.
  intros g Hw. split.
  - apply handleQuery_sign_in_button. rewrite Hw. split; [|split; [done|]].
    + exists (Sample.tabWith "https://a/"
                [Sample.button "a_0" "Sign in" false; Sample.link "a_1" "Sign in help"]),
             "a_0".
      split; reflexivity.
    + left. by exists "", "".
  - intros Hin. apply handleQuery_sign_in_button in Hin as (_ & Hrole & _). done.
Qed.

End SearchClaims.

(** ** Policy: the domain check *)

Section DomainClaims.
Import Command Policy PolicySpec.

Lemma endsWith_suffix q s :
  JsString.endsWith q s = true <-> exists pre, s = pre +:+ q.
Proof.
  induction s as [|b s IH]; cbn [JsString.endsWith].
  - rewrite orb_false_r. destruct (String.eqb_spec "" q) as [<-|Hne].
    + split; [intros _; by exists ""|done].
    + split; [done|]. intros [pre Hpre]. destruct pre.
      * by rewrite append_empty in Hpre.
      * by rewrite append_cons in Hpre.
  - rewrite orb_true_iff, IH. destruct (String.eqb_spec (String b s) q) as [<-|Hne].
    + split; [intros _; by exists ""|by left].
    + split.
      * intros [?|[pre Hpre]]; [done|]. exists (String b pre).
        by rewrite append_cons, Hpre.
      * intros [pre Hpre]. destruct pre as [|a pre].
        -- by rewrite append_empty in Hpre.
        -- right. exists pre. rewrite append_cons in Hpre. congruence.
Qed.

Lemma domainList_matches config host :
  existsb
    (fun d =>
       String.eqb (JsString.toLowerCase host) (JsString.toLowerCase d)
       || JsString.endsWith ("." +:+ JsString.toLowerCase d) (JsString.toLowerCase host))
    (domainList config) = true
  <-> listed config host.
Proof.
  rewrite existsb_exists. unfold listed, hostMatches.
  split; intros (d & Hin & Hd); exists d; (split; [by apply list_elem_of_In|]).
  - apply orb_true_iff in Hd as [Heq|Hsuf].
    + left. by apply String.eqb_eq.
    + right. by apply endsWith_suffix in Hsuf.
  - apply orb_true_iff. destruct Hd as [Heq|Hsub].
    + left. by apply String.eqb_eq.
    + right. by apply endsWith_suffix.
Qed.

Section WithUrlParser.
Variable hostname : string -> option string.

Lemma isDomainAllowed_all config url :
  domainMode config = all -> isDomainAllowed hostname config url = true.
Proof. unfold isDomainAllowed. by intros ->. Qed.

Lemma isDomainAllowed_unparsable config url :
  domainMode config <> all -> hostname url = None ->
  isDomainAllowed hostname config url = false.
Proof. unfold isDomainAllowed. intros Hmode ->. by destruct (domainMode config). Qed.

Lemma isDomainAllowed_allowlist config url host :
  domainMode config = allowlist -> hostname url = Some host ->
  isDomainAllowed hostname config url = true <-> listed config host.
Proof.
  unfold isDomainAllowed. intros -> ->. apply domainList_matches.
Qed.

Lemma isDomainAllowed_blocklist config url host :
  domainMode config = blocklist -> hostname url = Some host ->
  isDomainAllowed hostname config url = true <-> ~ listed config host.
Proof.
  unfold isDomainAllowed. intros -> ->.
  rewrite <- domainList_matches, negb_true_iff. by destruct (existsb _ _).
Qed.

(** C5. For every url: in mode [all] the domain check passes, whatever
    the url; otherwise a url that cannot be parsed is denied; a url with
    host [host] passes in allowlist mode exactly when [host] equals or is
    a subdomain of an entry of the list (case-insensitively), and in
    blocklist mode exactly when it does not. In particular, with the
    allowlist ["example.com"], the url https://sub.example.com/x is allowed
    and https://other.com is denied. *)
Theorem isDomainAllowed_spec config url :
  (domainMode config = all -> isDomainAllowed hostname config url = true)
  /\ (domainMode config <> all -> hostname url = None ->
      isDomainAllowed hostname config url = false)
  /\ (forall host, hostname url = Some host ->
        (domainMode config = allowlist ->
         (isDomainAllowed hostname config url = true <-> listed config host))
        /\ (domainMode config = blocklist ->
            (isDomainAllowed hostname config url = true <-> ~ listed config host)))
  /\ (hostname "https://sub.example.com/x" = Some "sub.example.com" ->
      hostname "https://other.com" = Some "other.com" ->
      isDomainAllowed hostname (allowOnly ["example.com"]) "https://sub.example.com/x"
      = true
      /\ isDomainAllowed hostname (allowOnly ["example.com"]) "https://other.com"
         = false).
Proof.
  split; [apply isDomainAllowed_all|].
  split; [apply isDomainAllowed_unparsable|].
  split.
  - intros host Hhost. split; intros Hmode.
    + by apply isDomainAllowed_allowlist.
    + by apply isDomainAllowed_blocklist.
  - intros Hsub Hother. unfold isDomainAllowed. simpl.
    rewrite Hsub, Hother. split; reflexivity.
Qed.

End WithUrlParser.

Lemma isDomainAllowed_spec_witness :
  (schemeHost "https://sub.example.com/x" = Some "sub.example.com"
   /\ schemeHost "https://other.com" = Some "other.com")
  /\ isDomainAllowed schemeHost (allowOnly ["example.com"]) "https://sub.example.com/x"
     = true
  /\ isDomainAllowed schemeHost (allowOnly ["example.com"]) "https://other.com"
     = false.
Proof.
  split; [split; reflexivity|].
  refine (proj2 (proj2 (proj2
    (isDomainAllowed_spec schemeHost (allowOnly ["example.com"]) "https://other.com"))) _ _);
    reflexivity.
Defined.

End DomainClaims.

(** ** Policy: the rate limit *)

Section RateClaims.
Import Command Policy PolicySpec.

Lemma dropOld_split cutoff h :
  exists dropped,
    h = dropped ++ dropOld cutoff h /\ Forall (fun t => t < cutoff) dropped.
Proof.
  induction h as [|t h (dropped & Hh & Hall)]; simpl.
  - by exists [].
  - destruct (Z.ltb_spec t cutoff) as [Hlt|Hge].
    + exists (t :: dropped). split; [simpl; congruence|]. by constructor.
    + by exists [].
Qed.

Lemma dropOld_length cutoff h :
  (List.length (dropOld cutoff h) <= List.length h)%nat.
Proof.
  destruct (dropOld_split cutoff h) as (dropped & Hh & _).
  set (kept := dropOld cutoff h) in *. clearbody kept. subst h.
  rewrite length_app. lia.
Qed.

Lemma dropOld_sorted cutoff h :
  StronglySorted Z.le h ->
  dropOld cutoff h = List.filter (fun t => cutoff <=? t) h.
Proof.
  induction 1 as [|t h Hsorted IH Hall]; simpl; [done|].
  destruct (Z.ltb_spec t cutoff) as [Hlt|Hge].
  - rewrite (proj2 (Z.leb_gt cutoff t)) by done. exact IH.
  - rewrite (proj2 (Z.leb_le cutoff t)) by done. f_equal.
    symmetry. apply forallb_filter_id. apply forallb_forall.
    intros t' Hin. apply Z.leb_le.
    rewrite List.Forall_forall in Hall. specialize (Hall t' Hin). lia.
Qed.

Lemma dropOld_last cutoff h t :
  cutoff <= t -> dropOld cutoff (h ++ [t]) = dropOld cutoff h ++ [t].
Proof.
  intros Hge. induction h as [|t' h IH]; simpl.
  - by rewrite (proj2 (Z.ltb_ge t cutoff)).
  - by destruct (t' <? cutoff).
Qed.

Lemma filter_none {A} (f : A -> bool) (l : list A) :
  Forall (fun a => f a = false) l -> List.filter f l = [].
Proof.
  induction 1 as [|a l Ha _ IH]; simpl; [done|]. by rewrite Ha.
Qed.

Lemma recent_after_dropOld now h :
  List.filter (fun t => t >? now - 1000) (dropOld (now - 60000) h)
  = List.filter (fun t => now - 1000 <? t) h.
Proof.
  destruct (dropOld_split (now - 60000) h) as (dropped & Hh & Hall).
  set (kept := dropOld (now - 60000) h) in *. clearbody kept. subst h.
  rewrite List.filter_app, (filter_none _ dropped).
  - simpl. apply List.filter_ext. intros t. apply Z.gtb_ltb.
  - eapply List.Forall_impl; [|exact Hall]. simpl. intros t Ht.
    apply Z.ltb_ge. lia.
Qed.

(** What [checkRateLimits] answers, in terms of the two counts. *)
Lemma checkRateLimits_cases config now h :
  let kept := dropOld (now - 60000) h in
  checkRateLimits config now h =
  if Z.of_nat (List.length kept) >=? maxCommandsPerMinute config
  then (deny "Rate limit exceeded (per minute)", kept)
  else if lastSecond now h >=? maxCommandsPerSecond config
  then (deny "Rate limit exceeded (per second)", kept)
  else ({| allowed := true; reason := None; warnings := None |}, kept).
Proof.
  simpl. unfold checkRateLimits, lastSecond. by rewrite recent_after_dropOld.
Qed.

Lemma checkRateLimits_denies config now h :
  StronglySorted Z.le h ->
  allowed (checkRateLimits config now h).1 = false <->
  maxCommandsPerMinute config <= lastMinute now h
  \/ maxCommandsPerSecond config <= lastSecond now h.
Proof.
  intros Hsorted. rewrite checkRateLimits_cases. simpl.
  unfold lastMinute. rewrite <- (dropOld_sorted _ _ Hsorted).
  destruct (Z.geb_spec (Z.of_nat (List.length (dropOld (now - 60000) h)))
              (maxCommandsPerMinute config)) as [Hmin|Hmin]; simpl.
  - split; [intros _; left; lia|done].
  - destruct (Z.geb_spec (lastSecond now h) (maxCommandsPerSecond config))
      as [Hsec|Hsec]; simpl.
    + split; [intros _; right; lia|done].
    + split; [done|]. lia.
Qed.

Lemma checkRateLimits_history config now h :
  (checkRateLimits config now h).2 = dropOld (now - 60000) h.
Proof.
  rewrite checkRateLimits_cases. simpl.
  by repeat match goal with |- context [if ?b then _ else _] => destruct b end.
Qed.

Section WithUrlParser.
Variable hostname : string -> option string.

(** What [checkCommand] answers once the domain check has let the command
    through. *)
Lemma checkCommand_after_domain config now recNow command tabUrl elementName h :
  domainPasses hostname config tabUrl ->
  checkCommand hostname config now recNow command tabUrl elementName h =
  let rate := checkRateLimits config now h in
  if negb (allowed rate.1)
  then ({| allowed := false; reason := reason rate.1; warnings := None |}, rate.2)
  else if patternDenies config command elementName
  then (deny ((if match commandType command with
                   | click | type => isPaymentAction config elementName
                   | _ => false
                   end
               then "Payment action blocked: " else "Delete action blocked: ")
              +:+ default "undefined" elementName), rate.2)
  else ({| allowed := true; reason := None; warnings := Some [] |},
        recordCommand recNow rate.2).
Proof.
  unfold domainPasses, checkCommand, patternDenies. intros ->. simpl.
  destruct (checkRateLimits config now h) as [rate h']. simpl.
  destruct (allowed rate); simpl; [|done].
  destruct (commandType command); simpl; try done;
    by destruct (isPaymentAction config elementName),
               (isDeleteAction config elementName).
Qed.

Lemma checkCommand_history config now recNow command tabUrl elementName h :
  let r := checkCommand hostname config now recNow command tabUrl elementName h in
  (allowed r.1 = true -> r.2 = dropOld (now - 60000) h ++ [recNow])
  /\ (allowed r.1 = false -> exists dropped, h = dropped ++ r.2).
Proof.
  simpl.
  destruct (JsString.truthy tabUrl
            && negb (isDomainAllowed hostname config (default "" tabUrl))) eqn:Hdom.
  - unfold checkCommand. rewrite Hdom. simpl. split; [done|]. intros _. by exists [].
  - rewrite checkCommand_after_domain by exact Hdom. simpl.
    rewrite checkRateLimits_history.
    destruct (dropOld_split (now - 60000) h) as (dropped & Hh & _).
    destruct (allowed (checkRateLimits config now h).1); simpl.
    + destruct (patternDenies config command elementName); simpl.
      * split; [done|]. intros _. by exists dropped.
      * split; [done|]. done.
    + split; [done|]. intros _. by exists dropped.
Qed.

(** The history stays in ascending order as long as the clock does not
    run backwards. *)
Lemma checkCommand_keeps_order config now recNow command tabUrl elementName h :
  StronglySorted Z.le h ->
  Forall (fun t => t <= recNow) h ->
  StronglySorted Z.le
    (checkCommand hostname config now recNow command tabUrl elementName h).2.
Proof.
  intros Hsorted Hpast.
  destruct (checkCommand_history config now recNow command tabUrl elementName h)
    as [Hyes Hno].
  destruct (dropOld_split (now - 60000) h) as (dropped & Hh & _).
  destruct (allowed (checkCommand hostname config now recNow command tabUrl
                       elementName h).1).
  - rewrite Hyes by done. apply StronglySorted_app_2.
    + intros t1 t2 Ht1 ->%list_elem_of_singleton.
      rewrite List.Forall_forall in Hpast. apply Hpast.
      rewrite Hh. apply in_or_app. right. by apply list_elem_of_In.
    + rewrite Hh in Hsorted. by apply StronglySorted_app_1_r in Hsorted.
    + repeat constructor.
  - destruct Hno as [gone Hgone]; [done|].
    rewrite Hgone in Hsorted. by apply StronglySorted_app_1_r in Hsorted.
Qed.

Lemma checkCommand_two_within_a_second config h now1 rec1 now2 rec2
    cmd1 cmd2 url1 url2 name1 name2 :
  maxCommandsPerSecond config = 1 ->
  Forall (fun t => t <= now1 - 1000) h ->
  Z.of_nat (List.length h) + 1 < maxCommandsPerMinute config ->
  domainPasses hostname config url1 ->
  domainPasses hostname config url2 ->
  patternDenies config cmd1 name1 = false ->
  Z.abs (now2 - rec1) < 1000 ->
  let r1 := checkCommand hostname config now1 rec1 cmd1 url1 name1 h in
  let r2 := checkCommand hostname config now2 rec2 cmd2 url2 name2 r1.2 in
  allowed r1.1 = true
  /\ allowed r2.1 = false
  /\ reason r2.1 = Some "Rate limit exceeded (per second)".
Proof.
  intros Hsec Hquiet Hmin Hdom1 Hdom2 Hpat Hnear. simpl.
  assert (Hfirst :
    checkCommand hostname config now1 rec1 cmd1 url1 name1 h
    = ({| allowed := true; reason := None; warnings := Some [] |},
       dropOld (now1 - 60000) h ++ [rec1])).
  { rewrite checkCommand_after_domain by done. simpl.
    rewrite checkRateLimits_cases. simpl.
    pose proof (dropOld_length (now1 - 60000) h) as Hlen.
    destruct (Z.geb_spec (Z.of_nat (List.length (dropOld (now1 - 60000) h)))
                (maxCommandsPerMinute config)) as [Hge|_]; [lia|].
    assert (Hnone : lastSecond now1 h = 0).
    { unfold lastSecond. rewrite filter_none; [done|].
      eapply List.Forall_impl; [|exact Hquiet]. simpl. intros t Ht.
      apply Z.ltb_ge. lia. }
    rewrite Hnone, Hsec. simpl. by rewrite Hpat. }
  rewrite Hfirst. simpl. split; [done|].
  rewrite checkCommand_after_domain by done. simpl.
  rewrite checkRateLimits_cases. simpl.
  assert (Hkept : now2 - 60000 <= rec1) by lia.
  rewrite dropOld_last by done.
  set (kept := dropOld (now2 - 60000) (dropOld (now1 - 60000) h)).
  assert (Hlen : (List.length kept <= List.length h)%nat).
  { unfold kept. etrans; apply dropOld_length. }
  rewrite length_app. simpl.
  destruct (Z.geb_spec (Z.of_nat (List.length kept + 1)) (maxCommandsPerMinute config))
    as [Hge|_]; [lia|].
  assert (Hone : 1 <= lastSecond now2 ((dropOld (now1 - 60000) h) ++ [rec1])).
  { unfold lastSecond. rewrite List.filter_app, length_app. simpl.
    rewrite (proj2 (Z.ltb_lt (now2 - 1000) rec1)) by lia. simpl. lia. }
  rewrite Hsec.
  destruct (Z.geb_spec (lastSecond now2 (dropOld (now1 - 60000) h ++ [rec1])) 1)
    as [_|Hlt]; [done|lia].
Qed.

End WithUrlParser.

End RateClaims.

Section RateTheorem.
Import Command Policy PolicySpec.

(** C4. On a history in ascending order the rate-limit check denies
    exactly when the number of recorded timestamps of the last 60 seconds
    is at least [maxCommandsPerMinute] or the number of the last second is
    at least [maxCommandsPerSecond]. [checkCommand] appends a timestamp to
    the history only when it allows the command; when it denies, the new
    history is what is left of the old one. With [maxCommandsPerSecond]
    = 1, of two commands less than 1000 ms apart that both pass the domain
    check, the first being submitted after a quiet second, below the
    per-minute limit and not matching a blocked pattern, the first is
    allowed and the second is denied with a reason containing
    "per second". The history stays in ascending order as long as the
    clock does not run backwards. *)
Theorem rate_limit_spec (hostname : string -> option string) config :
  (forall now h,
      StronglySorted Z.le h ->
      allowed (checkRateLimits config now h).1 = false <->
      maxCommandsPerMinute config <= lastMinute now h
      \/ maxCommandsPerSecond config <= lastSecond now h)
  /\ (forall now recNow command tabUrl elementName h,
        let r := checkCommand hostname config now recNow command tabUrl elementName h in
        (allowed r.1 = true -> r.2 = dropOld (now - 60000) h ++ [recNow])
        /\ (allowed r.1 = false -> exists dropped, h = dropped ++ r.2))
  /\ (forall h now1 rec1 now2 rec2 cmd1 cmd2 url1 url2 name1 name2,
        maxCommandsPerSecond config = 1 ->
        Forall (fun t => t <= now1 - 1000) h ->
        Z.of_nat (List.length h) + 1 < maxCommandsPerMinute config ->
        domainPasses hostname config url1 ->
        domainPasses hostname config url2 ->
        patternDenies config cmd1 name1 = false ->
        Z.abs (now2 - rec1) < 1000 ->
        let r1 := checkCommand hostname config now1 rec1 cmd1 url1 name1 h in
        let r2 := checkCommand hostname config now2 rec2 cmd2 url2 name2 r1.2 in
        allowed r1.1 = true
        /\ allowed r2.1 = false
        /\ exists why, reason r2.1 = Some why /\ contains "per second" why)
  /\ (forall now recNow command tabUrl elementName h,
        StronglySorted Z.le h ->
        Forall (fun t => t <= recNow) h ->
        StronglySorted Z.le
          (checkCommand hostname config now recNow command tabUrl elementName h).2).
Proof.
  split; [intros now h; apply checkRateLimits_denies|].
  split; [intros now recNow command tabUrl elementName h;
          apply checkCommand_history|].
  split; [|intros now recNow command tabUrl elementName h;
           apply checkCommand_keeps_order].
  intros h now1 rec1 now2 rec2 cmd1 cmd2 url1 url2 name1 name2
    Hsec Hquiet Hmin Hdom1 Hdom2 Hpat Hnear.
  destruct (checkCommand_two_within_a_second hostname config h now1 rec1 now2 rec2
              cmd1 cmd2 url1 url2 name1 name2 Hsec Hquiet Hmin Hdom1 Hdom2 Hpat Hnear)
    as (Hfirst & Hsecond & Hwhy).
  split; [exact Hfirst|]. split; [exact Hsecond|].
  eexists. split; [exact Hwhy|]. by exists "Rate limit exceeded (", ")".
Qed.

Lemma rate_limit_spec_witness :
  (maxCommandsPerSecond onePerSecond = 1
   /\ Forall (fun t => t <= 5000 - 1000) [100; 2000]
   /\ Z.of_nat (List.length [100; 2000]) + 1 < maxCommandsPerMinute onePerSecond
   /\ domainPasses schemeHost onePerSecond (Some "https://a/")
   /\ patternDenies onePerSecond (clickOn "a_0") (Some "Sign in") = false
   /\ Z.abs (5900 - 5001) < 1000)
  /\ let r1 := checkCommand schemeHost onePerSecond 5000 5001 (clickOn "a_0")
                 (Some "https://a/") (Some "Sign in") [100; 2000] in
     let r2 := checkCommand schemeHost onePerSecond 5900 5901 (clickOn "a_0")
                 (Some "https://a/") (Some "Sign in") r1.2 in
     allowed r1.1 = true
     /\ allowed r2.1 = false
     /\ exists why, reason r2.1 = Some why /\ contains "per second" why.
Proof.
  assert (Hquiet : Forall (fun t => t <= 5000 - 1000) [100; 2000])
    by (repeat constructor; lia).
  split.
  - repeat split; try reflexivity; exact Hquiet.
  - refine (proj1 (proj2 (proj2 (rate_limit_spec schemeHost onePerSecond)))
              [100; 2000] 5000 5001 5900 5901 (clickOn "a_0") (clickOn "a_0")
              (Some "https://a/") (Some "https://a/") (Some "Sign in") (Some "Sign in")
              _ Hquiet _ _ _ _ _); try reflexivity; lia.
Defined.

(** At exactly 1000 ms the first command has left the one-second window:
    the second command is allowed. *)
Example second_command_after_1000_ms :
  let r1 := checkCommand schemeHost onePerSecond 5000 5000 (clickOn "a_0")
              (Some "https://a/") (Some "Sign in") [] in
  let r2 := checkCommand schemeHost onePerSecond 6000 6000 (clickOn "a_0")
              (Some "https://a/") (Some "Sign in") r1.2 in
  allowed r1.1 = true /\ allowed r2.1 = true.
Proof. split; reflexivity. Qed.

End RateTheorem.

(** ** Policy: the action-name patterns *)

Section PatternClaims.
Import Command Policy PolicySpec.

Lemma test_at_offset p pre s :
  matchHere p s = true -> test p (pre +:+ s) = true.
Proof.
  intros Hm. induction pre as [|a pre IH].
  - rewrite append_empty. destruct s; simpl; by rewrite Hm.
  - rewrite append_cons. simpl. by rewrite IH, orb_true_r.
Qed.

Lemma delete_account_matches name :
  contains "Delete account" name ->
  existsb (fun pattern => test pattern name) DELETE_PATTERNS = true
  /\ String.eqb name "" = false.
Proof.
  intros (pre & post & ->). split.
  - simpl. rewrite test_at_offset; [done|]. reflexivity.
  - destruct pre; reflexivity.
Qed.

Lemma isDeleteAction_delete_account config name :
  blockDeleteActions config = true ->
  contains "Delete account" name ->
  isDeleteAction config (Some name) = true.
Proof.
  intros Hblock [Hmatch Hne]%delete_account_matches.
  unfold isDeleteAction. by rewrite Hblock, Hne.
Qed.

Lemma patternDenies_off config command elementName :
  (commandType command <> click /\ commandType command <> type)
  \/ nameAbsent elementName ->
  patternDenies config command elementName = false.
Proof.
  unfold patternDenies, isPaymentAction, isDeleteAction.
  intros [[Hclick Htype]|[->| ->]].
  - by destruct (commandType command).
  - by destruct (commandType command), (blockPaymentActions config),
      (blockDeleteActions config).
  - by destruct (commandType command), (blockPaymentActions config),
      (blockDeleteActions config).
Qed.

Section WithUrlParser.
Variable hostname : string -> option string.

(** [checkCommand] in terms of [patternDenies], whatever the domain check
    says. *)
Lemma checkCommand_without_pattern config now recNow command tabUrl elementName h :
  patternDenies config command elementName = false ->
  checkCommand hostname config now recNow command tabUrl elementName h
  = checkCommand hostname (withoutBlocks config) now recNow command tabUrl
      elementName h.
Proof.
  intros Hpat. unfold checkCommand.
  change (isDomainAllowed hostname (withoutBlocks config))
    with (isDomainAllowed hostname config).
  change (checkRateLimits (withoutBlocks config))
    with (checkRateLimits config).
  destruct (JsString.truthy tabUrl && _); [done|].
  destruct (checkRateLimits config now h) as [rate h'].
  destruct (negb (allowed rate)); [done|].
  unfold patternDenies in Hpat.
  destruct (commandType command); try done;
    apply orb_false_iff in Hpat as [-> ->]; done.
Qed.

Lemma checkCommand_pattern_denied config now recNow command tabUrl elementName h :
  patternDenies config command elementName = true ->
  allowed (checkCommand hostname config now recNow command tabUrl elementName h).1
  = false.
Proof.
  intros Hpat. unfold checkCommand.
  destruct (JsString.truthy tabUrl && _); [done|].
  destruct (checkRateLimits config now h) as [rate h'].
  destruct (negb (allowed rate)); [done|].
  unfold patternDenies in Hpat.
  destruct (commandType command); try done;
    by destruct (isPaymentAction config elementName),
               (isDeleteAction config elementName).
Qed.

(** C6. For every command whose type is neither click nor type, or whose
    element name is absent, [checkCommand] answers as it does with both
    pattern tables switched off. Under [blockDeleteActions], a name
    containing "Delete account" makes [checkCommand] deny click and type,
    with a pattern reason when the domain and rate checks pass, and
    leaves hover to pass the pattern check. *)
Theorem pattern_check_spec config now recNow command tabUrl elementName h :
  ((commandType command <> click /\ commandType command <> type)
   \/ nameAbsent elementName ->
   checkCommand hostname config now recNow command tabUrl elementName h
   = checkCommand hostname (withoutBlocks config) now recNow command tabUrl
       elementName h)
  /\ (forall name,
        blockDeleteActions config = true ->
        contains "Delete account" name ->
        let r := checkCommand hostname config now recNow command tabUrl (Some name) h in
        (commandType command = click \/ commandType command = type ->
         allowed r.1 = false
         /\ (domainPasses hostname config tabUrl ->
             allowed (checkRateLimits config now h).1 = true ->
             reason r.1 = Some ("Payment action blocked: " +:+ name)
             \/ reason r.1 = Some ("Delete action blocked: " +:+ name)))
        /\ (commandType command = hover ->
            r = checkCommand hostname (withoutBlocks config) now recNow command
                  tabUrl (Some name) h
            /\ (domainPasses hostname config tabUrl ->
                allowed (checkRateLimits config now h).1 = true ->
                allowed r.1 = true))).
Proof.
  split.
  - intros Hoff. apply checkCommand_without_pattern. by apply patternDenies_off.
  - intros name Hblock Hname. simpl. split.
    + intros Hkind.
      assert (Hpat : patternDenies config command (Some name) = true).
      { unfold patternDenies.
        rewrite (isDeleteAction_delete_account config name Hblock Hname), orb_true_r.
        by destruct Hkind as [-> | ->]. }
      split; [by apply checkCommand_pattern_denied|].
      intros Hdom Hrate. rewrite checkCommand_after_domain by done. simpl.
      rewrite Hrate, Hpat. simpl.
      destruct Hkind as [-> | ->];
        destruct (isPaymentAction config (Some name)); simpl; auto.
    + intros Hhover.
      assert (Hpat : patternDenies config command (Some name) = false).
      { apply patternDenies_off. left. rewrite Hhover. by split. }
      split; [by apply checkCommand_without_pattern|].
      intros Hdom Hrate. rewrite checkCommand_after_domain by done. simpl.
      by rewrite Hrate, Hpat.
Qed.

End WithUrlParser.

Lemma pattern_check_spec_witness :
  (blockDeleteActions defaultConfig = true
   /\ contains "Delete account" "Delete account now"
   /\ commandType (clickOn "a_0") = click
   /\ commandType (typeInto "a_0" "x") = type
   /\ commandType (hoverOver "a_0") = hover)
  /\ allowed (checkCommand schemeHost defaultConfig 5000 5001 (clickOn "a_0")
                (Some "https://a/") (Some "Delete account now") []).1 = false
  /\ allowed (checkCommand schemeHost defaultConfig 5000 5001 (typeInto "a_0" "x")
                (Some "https://a/") (Some "Delete account now") []).1 = false
  /\ allowed (checkCommand schemeHost defaultConfig 5000 5001 (hoverOver "a_0")
                (Some "https://a/") (Some "Delete account now") []).1 = true.
Proof.
  assert (Hname : contains "Delete account" "Delete account now")
    by (by exists "", " now").
  split; [repeat split; try reflexivity; exact Hname|].
  split; [|split].
  - refine (proj1 (proj1 (proj2
      (pattern_check_spec schemeHost defaultConfig 5000 5001 (clickOn "a_0")
         (Some "https://a/") None [])
      "Delete account now" eq_refl Hname) _)).
    by left.
  - refine (proj1 (proj1 (proj2
      (pattern_check_spec schemeHost defaultConfig 5000 5001 (typeInto "a_0" "x")
         (Some "https://a/") None [])
      "Delete account now" eq_refl Hname) _)).
    by right.
  - refine (proj2 (proj2 (proj2
      (pattern_check_spec schemeHost defaultConfig 5000 5001 (hoverOver "a_0")
         (Some "https://a/") None [])
      "Delete account now" eq_refl Hname) _) _ _); reflexivity.
Defined.

End PatternClaims.

(** ** Gateway: a command the policy denies *)

Section DeniedClaims.
Import Protocol Command Policy PolicySpec Server ServerSpec.

Lemma resolutions_app p tr1 tr2 :
  resolutions p (tr1 ++ tr2) = resolutions p tr1 ++ resolutions p tr2.
Proof. apply omap_app. Qed.

Lemma submitted_app p tr1 tr2 :
  submitted p (tr1 ++ tr2) = submitted p tr1 ++ submitted p tr2.
Proof. apply omap_app. Qed.

Lemma agentFrames_app tr1 tr2 :
  agentFrames (tr1 ++ tr2) = agentFrames tr1 ++ agentFrames tr2.
Proof. apply omap_app. Qed.

Lemma controllerFrames_app tr1 tr2 :
  controllerFrames (tr1 ++ tr2) = controllerFrames tr1 ++ controllerFrames tr2.
Proof. apply omap_app. Qed.

Lemma logCommand_silent config command result details :
  agentFrames (logCommand config command result details) = []
  /\ controllerFrames (logCommand config command result details) = []
  /\ (forall p, resolutions p (logCommand config command result details) = [])
  /\ (forall p, submitted p (logCommand config command result details) = []).
Proof. unfold logCommand. by destruct (logAllCommands config). Qed.

Section WithUrlParser.
Variable hostname : string -> option string.

(** Every denial of [checkCommand] carries a non-empty reason. *)
Lemma checkCommand_denied_reason config now recNow command tabUrl elementName h :
  allowed (checkCommand hostname config now recNow command tabUrl elementName h).1
  = false ->
  exists why,
    reason (checkCommand hostname config now recNow command tabUrl elementName h).1
    = Some why
    /\ JsString.truthy (Some why) = true.
Proof.
  destruct (JsString.truthy tabUrl
            && negb (isDomainAllowed hostname config (default "" tabUrl))) eqn:Hdom.
  - unfold checkCommand. rewrite Hdom. simpl. intros _. by eexists.
  - rewrite checkCommand_after_domain by exact Hdom. simpl.
    rewrite checkRateLimits_cases. simpl.
    destruct (_ >=? maxCommandsPerMinute config); simpl;
      [intros _; by eexists|].
    destruct (_ >=? maxCommandsPerSecond config); simpl;
      [intros _; by eexists|].
    destruct (patternDenies config command elementName); simpl; [|done].
    intros _. eexists. split; [reflexivity|].
    by destruct (match commandType command with
                 | click | type => isPaymentAction config elementName
                 | _ => false
                 end).
Qed.

(** The identifier is ensured once. *)
Lemma ensureCommandId_twice gen command :
  ensureCommandId gen (ensureCommandId gen command) = ensureCommandId gen command.
Proof.
  unfold ensureCommandId.
  destruct (JsString.truthy (commandId command)) eqn:Hid; [by rewrite Hid|].
  cbn [commandId]. by destruct (JsString.truthy (Some gen)).
Qed.

Lemma executeCommand_ensured clk gen command g :
  executeCommand hostname clk gen (ensureCommandId gen command) g
  = executeCommand hostname clk gen command g.
Proof. unfold executeCommand. by rewrite ensureCommandId_twice. Qed.

(** The trace of an [act] request. *)
Lemma handleAct_trace to clk gen command g :
  let g1 := executeCommand hostname clk gen command g in
  trace (handleAct hostname to clk gen command g)
  = trace g1
    ++ Awaits (nextPromise g) to
       :: match resolutions (nextPromise g) (trace g1) with
          | ack :: _ => [Reply (nextPromise g) to ack]
          | [] => []
          end.
Proof. unfold handleAct. by rewrite executeCommand_ensured. Qed.

(** C7. For every command the policy denies, [executeCommand] resolves the
    caller's promise with an acknowledgment whose status is "fail" and
    whose reason is the policy's reason, under the command's id; it sends
    nothing to the agent and leaves the pending-command table and the
    timers as they were. When the caller is the [act] request of a
    controller, that acknowledgment is sent to the controller as the reply
    right away. When the denial comes from the domain check the reason is
    "Domain not allowed: " followed by the tab's url. *)
Theorem executeCommand_policy_denied clk gen command g :
  let command' := ensureCommandId gen command in
  let verdict := (consultPolicy hostname clk command' g).1 in
  let g' := executeCommand hostname clk gen command g in
  allowed verdict = false ->
  (exists why,
      let ack := {| a_commandId := idOf command';
                    status := fail why;
                    timestamp := atAck clk;
                    a_tabId := None |} in
      reason verdict = Some why
      /\ trace g'
         = trace g
           ++ Created (nextPromise g) command'
              :: logCommand (policy g) command' "fail" (Some why)
              ++ [Resolved (nextPromise g) ack]
      /\ agentFrames (trace g') = agentFrames (trace g)
      /\ pendingCommands g' = pendingCommands g
      /\ timers g' = timers g
      /\ (Consistent g ->
          forall to,
            trace (step hostname g (Act (Controller to) clk gen command))
            = trace g' ++ [Awaits (nextPromise g) to;
                           Reply (nextPromise g) to ack]))
  /\ (forall tab,
        WorldState.getTab (tabId command') (world g) = Some tab ->
        WorldState.url tab <> "" ->
        isDomainAllowed hostname (policy g) (WorldState.url tab) = false ->
        reason verdict = Some ("Domain not allowed: " +:+ WorldState.url tab)).
Proof.
  intros command' verdict g' Hdenied. split.
  - unfold verdict, consultPolicy in *.
    destruct (checkCommand_denied_reason _ _ _ _ _ _ _ Hdenied)
      as (why & Hwhy & Htruthy).
    exists why. cbv zeta.
    set (ack := {| a_commandId := idOf command'; status := fail why;
                   timestamp := atAck clk; a_tabId := None |}).
    split; [exact Hwhy|].
    assert (Htrace : trace g'
                     = trace g
                       ++ Created (nextPromise g) command'
                          :: logCommand (policy g) command' "fail" (Some why)
                          ++ [Resolved (nextPromise g) ack]
                     /\ pendingCommands g' = pendingCommands g
                     /\ timers g' = timers g).
    { unfold g', executeCommand, consultPolicy. fold command'.
      destruct (checkCommand hostname (policy g) (atCheck clk) (atRecord clk)
                  command' _ _ (commandHistory g)) as [result history].
      simpl in Hdenied, Hwhy. rewrite Hdenied, Hwhy. simpl.
      simpl in Htruthy. rewrite Htruthy. done. }
    destruct Htrace as (Htrace & Hpending & Htimers).
    split; [exact Htrace|]. split; [|split; [exact Hpending|split; [exact Htimers|]]].
    + rewrite Htrace, agentFrames_app. simpl. rewrite agentFrames_app.
      destruct (logCommand_silent (policy g) command' "fail" (Some why))
        as (-> & _).
      simpl. by rewrite app_nil_r.
    + intros Hg to. cbn [step]. rewrite handleAct_trace. cbv zeta. fold g'.
      destruct (promise_fresh g Hg (nextPromise g) (le_n _)) as [_ Hfresh].
      replace (resolutions (nextPromise g) (trace g')) with [ack]; [done|].
      rewrite Htrace, resolutions_app, Hfresh.
      change (Created ?p ?c :: ?l) with ([Created p c] ++ l).
      rewrite !resolutions_app.
      destruct (logCommand_silent (policy g) command' "fail" (Some why))
        as (_ & _ & -> & _).
      simpl. by rewrite Nat.eqb_refl.
  - intros tab Htab Hurl Hdom. unfold verdict, consultPolicy, checkCommand.
    rewrite Htab. simpl. rewrite Hdom.
    destruct (String.eqb_spec (WorldState.url tab) ""); [done|]. reflexivity.
Qed.

End WithUrlParser.

End DeniedClaims.

(** ** Gateway: every command is resolved once *)

Section ResolutionFacts.
Import Protocol Command Policy PolicySpec Server ServerSpec.

Lemma quiet_nil : quiet [].
Proof. by intros p. Qed.

Lemma quiet_logCommand config command result details :
  quiet (logCommand config command result details).
Proof. intros p. unfold logCommand. by destruct (logAllCommands config). Qed.

Lemma quiet_broadcast ack msgTabId conns :
  quiet (broadcastToRepl ack msgTabId conns).
Proof.
  intros p. unfold broadcastToRepl.
  by induction (List.filter (receives msgTabId) conns).
Qed.

Lemma receives_hears ack c :
  receives (a_tabId ack) c = bool_decide (hears ack c).
Proof.
  destruct (decide (hears ack c)) as [Hyes|Hno].
  - rewrite (bool_decide_eq_true_2 _ Hyes). destruct Hyes as [Hopen Hsub].
    unfold receives. rewrite Hopen. simpl.
    destruct (subscribedTabId c) as [sub|], (a_tabId ack) as [t|]; try done.
    apply Z.eqb_eq. by apply Hsub.
  - rewrite (bool_decide_eq_false_2 _ Hno).
    unfold receives. destruct (isOpen (r_socket c)) eqn:Hopen; simpl; [|done].
    destruct (subscribedTabId c) as [sub|] eqn:Hs, (a_tabId ack) as [t|] eqn:Ha.
    + apply Z.eqb_neq. intros ->. apply Hno. split; [done|]. congruence.
    + exfalso. apply Hno. split; [done|]. congruence.
    + exfalso. apply Hno. split; [done|]. congruence.
    + exfalso. apply Hno. split; [done|]. congruence.
Qed.

Lemma controllerFrames_broadcast ack conns :
  controllerFrames (broadcastToRepl ack (a_tabId ack) conns) = forwardedTo conns ack.
Proof.
  unfold broadcastToRepl, forwardedTo.
  induction conns as [|c conns IH]; [done|].
  cbn [List.filter]. rewrite <- receives_hears.
  destruct (receives (a_tabId ack) c); [|exact IH].
  cbn [List.map controllerFrames omap]. simpl. f_equal. exact IH.
Qed.

Lemma replies_app p tr1 tr2 :
  replies p (tr1 ++ tr2) = replies p tr1 ++ replies p tr2.
Proof. apply omap_app. Qed.

Lemma quiet_app tr1 tr2 : quiet tr1 -> quiet tr2 -> quiet (tr1 ++ tr2).
Proof.
  intros H1 H2 p. rewrite resolutions_app, submitted_app.
  by rewrite (proj1 (H1 p)), (proj2 (H1 p)), (proj1 (H2 p)), (proj2 (H2 p)).
Qed.

(** The continuations only send replies. *)
Lemma quiet_settle tr new : quiet (settle tr new).
Proof.
  revert tr. induction new as [|e new IH]; intros tr; [apply quiet_nil|].
  cbn [settle]. apply quiet_app; [|apply IH].
  destruct e; try apply quiet_nil.
  destruct (resolutions p tr), (awaiter p tr); by intros q.
Qed.

Lemma settle_app tr new1 new2 :
  settle tr (new1 ++ new2) = settle tr new1 ++ settle (tr ++ new1) new2.
Proof.
  revert tr. induction new1 as [|e new1 IH]; intros tr.
  - by rewrite app_nil_r.
  - cbn [settle app]. rewrite IH, <- !app_assoc. done.
Qed.

(** Effects that resolve no promise start no continuation. *)
Lemma settle_unresolved tr new :
  (forall p, resolutions p new = []) -> settle tr new = [].
Proof.
  revert tr. induction new as [|e new IH]; intros tr Hnew; [done|].
  cbn [settle]. rewrite IH.
  - destruct e; try done.
    specialize (Hnew p). simpl in Hnew. by rewrite Nat.eqb_refl in Hnew.
  - intros p. specialize (Hnew p). simpl in Hnew.
    destruct e; try done. by destruct (Nat.eqb p0 p).
Qed.

Lemma awaiter_app p tr1 tr2 :
  awaiter p (tr1 ++ tr2)
  = match awaiter p tr1 with Some to => Some to | None => awaiter p tr2 end.
Proof. unfold awaiter. rewrite omap_app. by destruct (omap _ tr1). Qed.

Lemma silent_nil : silent [].
Proof. by intros p. Qed.

Lemma silent_logCommand config command result details :
  silent (logCommand config command result details).
Proof. intros p. unfold logCommand. by destruct (logAllCommands config). Qed.

Lemma silent_broadcast ack msgTabId conns :
  silent (broadcastToRepl ack msgTabId conns).
Proof.
  intros p. unfold broadcastToRepl.
  by induction (List.filter (receives msgTabId) conns).
Qed.

Lemma silent_app tr1 tr2 : silent tr1 -> silent tr2 -> silent (tr1 ++ tr2).
Proof.
  intros H1 H2 p. rewrite awaiter_app, replies_app.
  by rewrite (proj1 (H1 p)), (proj2 (H1 p)), (proj1 (H2 p)), (proj2 (H2 p)).
Qed.

Lemma controllerFrames_settle tr new : controllerFrames (settle tr new) = [].
Proof.
  revert tr. induction new as [|e new IH]; intros tr; [done|].
  cbn [settle]. rewrite controllerFrames_app, IH, app_nil_r.
  destruct e; try done. by destruct (resolutions p tr), (awaiter p tr).
Qed.

Lemma withTrace_same g : withTrace g (trace g) = g.
Proof. by destruct g. Qed.

(** One resolution between effects that resolve nothing. *)
Lemma settle_resolved tr before p ack after :
  quiet before -> quiet after -> silent before ->
  settle tr (before ++ Resolved p ack :: after)
  = match resolutions p tr, awaiter p tr with
    | [], Some to => [Reply p to ack]
    | _, _ => []
    end.
Proof.
  intros Hbefore Hafter Hsilent.
  rewrite settle_app, (settle_unresolved tr before) by (intros q; apply Hbefore).
  cbn [settle app]. rewrite (settle_unresolved _ after) by (intros q; apply Hafter).
  rewrite app_nil_r, resolutions_app, (proj1 (Hbefore p)), app_nil_r.
  rewrite awaiter_app, (proj1 (Hsilent p)). by destruct (awaiter p tr).
Qed.

(** A handler that resolves one promise, not resolved before: the
    request that awaits it, if there is one, replies next. *)
Lemma resume_resolved g g' p ack before after :
  resolutions p (trace g) = [] ->
  quiet before -> quiet after -> silent before ->
  trace g' = trace g ++ before ++ Resolved p ack :: after ->
  trace (resume g g')
  = trace g' ++ match awaiter p (trace g) with
                | Some to => [Reply p to ack]
                | None => []
                end.
Proof.
  intros Hr Hbefore Hafter Hsilent Htrace. unfold resume, withTrace. cbn [trace].
  f_equal. rewrite Htrace, drop_app_length, settle_resolved by done.
  by rewrite Hr.
Qed.

(** A handler that resolves nothing. *)
Lemma resume_unresolved g g' extra :
  quiet extra ->
  trace g' = trace g ++ extra ->
  resume g g' = g'.
Proof.
  intros Hextra Htrace. unfold resume.
  rewrite Htrace at 2. rewrite drop_app_length.
  rewrite settle_unresolved by (intros q; apply Hextra).
  by rewrite app_nil_r, withTrace_same.
Qed.

Lemma Answered_init : Answered init.
Proof. by constructor. Qed.

(** What a handler has to append to the trace to keep the requests
    answered. *)
Lemma Answered_extend g g' new :
  Answered g ->
  (nextPromise g <= nextPromise g')%nat ->
  trace g' = trace g ++ new ->
  (forall q, (nextPromise g' <= q)%nat -> awaiter q new = None) ->
  (forall q,
      replies q new
      = match awaiter q (trace g), awaiter q new with
        | Some to, _ => (fun ack => (to, ack)) <$> resolutions q new
        | None, Some to =>
            (fun ack => (to, ack)) <$> (resolutions q (trace g) ++ resolutions q new)
        | None, None => []
        end) ->
  Answered g'.
Proof.
  intros Ha Hnext Htrace Hfresh Hreplies. constructor.
  - intros q Hq. rewrite Htrace, awaiter_app, (await_fresh g Ha q) by lia.
    by apply Hfresh.
  - intros q. rewrite Htrace, awaiter_app, replies_app, resolutions_app.
    rewrite (replied g Ha q), (Hreplies q).
    destruct (awaiter q (trace g)) as [to|]; [by rewrite fmap_app|].
    by destruct (awaiter q new).
Qed.


Lemma sendToExtension_frame command conns sent :
  sendToExtension command conns = Some sent ->
  exists to, sent = ToExtension to command.
Proof.
  unfold sendToExtension. destruct (List.find isOpen conns) as [s|]; [|done].
  intros [= <-]. by eexists.
Qed.

Lemma resolutions_resolved p q ack :
  resolutions p [Resolved q ack] = if Nat.eqb q p then [ack] else [].
Proof. simpl. by destruct (Nat.eqb q p). Qed.

Lemma submitted_created p q command :
  submitted p [Created q command] = if Nat.eqb q p then [command] else [].
Proof. simpl. by destruct (Nat.eqb q p). Qed.

Lemma Consistent_init : Consistent init.
Proof.
  constructor; simpl; try done.
  intros p Hp. lia.
Qed.

(** A promise that is created and resolved within one handler. *)
Lemma Consistent_settled_at_once g g' command logs ack :
  Consistent g ->
  quiet logs ->
  a_commandId ack = idOf command ->
  pendingCommands g' = pendingCommands g ->
  timers g' = timers g ->
  nextPromise g' = S (nextPromise g) ->
  nextTimer g' = nextTimer g ->
  trace g' = trace g ++ Created (nextPromise g) command
                          :: logs ++ [Resolved (nextPromise g) ack] ->
  Consistent g'.
Proof.
  intros Hc Hlogs Hid Hpending Htimers Hnext HnextT Htrace.
  set (p := nextPromise g) in *.
  assert (Hres : forall q, resolutions q (trace g')
                           = resolutions q (trace g) ++ if Nat.eqb p q then [ack] else []).
  { intros q. rewrite Htrace, resolutions_app. f_equal.
    change (Created p command :: logs ++ [Resolved p ack])
      with ([Created p command] ++ logs ++ [Resolved p ack]).
    rewrite !resolutions_app, (proj1 (Hlogs q)), resolutions_resolved. done. }
  assert (Hsub : forall q, submitted q (trace g')
                           = submitted q (trace g) ++ if Nat.eqb p q then [command] else []).
  { intros q. rewrite Htrace, submitted_app. f_equal.
    change (Created p command :: logs ++ [Resolved p ack])
      with ([Created p command] ++ logs ++ [Resolved p ack]).
    rewrite !submitted_app, (proj2 (Hlogs q)), submitted_created. simpl.
    by destruct (Nat.eqb p q). }
  assert (Hold : forall tid timer, timers g !! tid = Some timer ->
                                   Nat.eqb p (t_resolve timer) = false).
  { intros tid timer Ht. apply Nat.eqb_neq. intros Heq.
    destruct (timer_armed g Hc tid timer Ht) as (_ & _ & _ & Hs).
    destruct (promise_fresh g Hc p) as [Hf _]; [done|].
    rewrite <- Heq in Hs. by rewrite Hf in Hs. }
  constructor.
  - rewrite Htimers, HnextT. intros tid timer Ht.
    destruct (timer_armed g Hc tid timer Ht) as (? & ? & Hr & Hs).
    rewrite Hres, Hsub, Hr, Hs, (Hold tid timer Ht). by rewrite !app_nil_r.
  - rewrite Htimers. apply (timer_per_promise g Hc).
  - rewrite Hpending, Htimers. apply (pending_armed g Hc).
  - rewrite Hnext. intros q Hq.
    destruct (promise_fresh g Hc q) as [Hs Hr]; [lia|].
    rewrite Hres, Hsub, Hs, Hr.
    by rewrite (proj2 (Nat.eqb_neq p q)) by lia.
  - rewrite Hnext. intros q Hq. destruct (decide (q = p)) as [->|Hne].
    + exists command. destruct (promise_fresh g Hc p) as [Hs Hr]; [done|].
      rewrite Hsub, Hs, Nat.eqb_refl. split; [done|].
      left. exists ack. by rewrite Hres, Hr, Nat.eqb_refl.
    + destruct (promise_settled g Hc q) as (cmd & Hs & Hout); [lia|].
      exists cmd. rewrite Hsub, Hs.
      rewrite (proj2 (Nat.eqb_neq p q)) by done. split; [by rewrite app_nil_r|].
      unfold Outcome in *. rewrite Hres, Htimers.
      rewrite (proj2 (Nat.eqb_neq p q)) by done. by rewrite app_nil_r.
Qed.

(** A promise whose command went to the agent: a timer and a pending
    entry. *)
Lemma Consistent_sent g g' command sent at_ :
  Consistent g ->
  quiet [sent] ->
  pendingCommands g'
  = <[idOf command := {| resolve := nextPromise g; timeout := nextTimer g |}]>
      (pendingCommands g) ->
  timers g'
  = <[nextTimer g := {| armedAt := at_; delay := COMMAND_TIMEOUT;
                        t_command := command; t_resolve := nextPromise g |}]>
      (timers g) ->
  nextPromise g' = S (nextPromise g) ->
  nextTimer g' = S (nextTimer g) ->
  trace g' = trace g ++ [Created (nextPromise g) command; sent] ->
  Consistent g'.
Proof.
  intros Hc Hsent Hpending Htimers Hnext HnextT Htrace.
  set (p := nextPromise g) in *. set (tid0 := nextTimer g) in *.
  assert (Hres : forall q, resolutions q (trace g') = resolutions q (trace g)).
  { intros q. rewrite Htrace, resolutions_app.
    change [Created p command; sent] with ([Created p command] ++ [sent]).
    rewrite resolutions_app, (proj1 (Hsent q)). simpl. by rewrite app_nil_r. }
  assert (Hsub : forall q, submitted q (trace g')
                           = submitted q (trace g) ++ if Nat.eqb p q then [command] else []).
  { intros q. rewrite Htrace, submitted_app. f_equal.
    change [Created p command; sent] with ([Created p command] ++ [sent]).
    rewrite submitted_app, (proj2 (Hsent q)), submitted_created. by rewrite app_nil_r. }
  assert (Hold : forall tid timer, timers g !! tid = Some timer ->
                                   tid <> tid0 /\ Nat.eqb p (t_resolve timer) = false).
  { intros tid timer Ht.
    destruct (timer_armed g Hc tid timer Ht) as (Hlt & _ & _ & Hs).
    split; [unfold tid0; lia|]. apply Nat.eqb_neq. intros Heq.
    destruct (promise_fresh g Hc p) as [Hf _]; [done|].
    rewrite <- Heq in Hs. by rewrite Hf in Hs. }
  destruct (promise_fresh g Hc p) as [Hfs Hfr]; [done|].
  constructor.
  - rewrite Htimers, HnextT. intros tid timer Ht.
    destruct (decide (tid = tid0)) as [->|Hne].
    + rewrite lookup_insert_eq in Ht. injection Ht as <-. simpl.
      rewrite Hres, Hsub, Hfs, Hfr, Nat.eqb_refl. repeat split; try done.
      unfold tid0. lia.
    + rewrite lookup_insert_ne in Ht by done.
      destruct (timer_armed g Hc tid timer Ht) as (? & ? & Hr & Hs).
      destruct (Hold tid timer Ht) as [_ Hp].
      rewrite Hres, Hsub, Hr, Hs, Hp, app_nil_r. repeat split; try done. lia.
  - rewrite Htimers. intros tid1 tid2 timer1 timer2 Ht1 Ht2 Heq.
    destruct (decide (tid1 = tid0)) as [->|Hne1], (decide (tid2 = tid0)) as [->|Hne2];
      [done| | |].
    + rewrite lookup_insert_eq in Ht1. injection Ht1 as <-.
      rewrite lookup_insert_ne in Ht2 by done.
      destruct (Hold tid2 timer2 Ht2) as [_ Hp]. apply Nat.eqb_neq in Hp.
      simpl in Heq. congruence.
    + rewrite lookup_insert_eq in Ht2. injection Ht2 as <-.
      rewrite lookup_insert_ne in Ht1 by done.
      destruct (Hold tid1 timer1 Ht1) as [_ Hp]. apply Nat.eqb_neq in Hp.
      simpl in Heq. congruence.
    + rewrite lookup_insert_ne in Ht1, Ht2 by done.
      by apply (timer_per_promise g Hc tid1 tid2 timer1 timer2).
  - rewrite Hpending, Htimers. intros cid pending Hcid.
    destruct (decide (cid = idOf command)) as [->|Hne].
    + rewrite lookup_insert_eq in Hcid. injection Hcid as <-. simpl.
      eexists. by rewrite lookup_insert_eq.
    + rewrite lookup_insert_ne in Hcid by done.
      destruct (pending_armed g Hc cid pending Hcid) as (timer & Ht & ? & ?).
      exists timer. destruct (Hold _ _ Ht) as [Htid _].
      by rewrite lookup_insert_ne.
  - rewrite Hnext. intros q Hq.
    destruct (promise_fresh g Hc q) as [Hs Hr]; [lia|].
    rewrite Hres, Hsub, Hs, Hr.
    by rewrite (proj2 (Nat.eqb_neq p q)) by lia.
  - rewrite Hnext. intros q Hq. destruct (decide (q = p)) as [->|Hne].
    + exists command. rewrite Hsub, Hfs, Nat.eqb_refl. split; [done|].
      right. rewrite Hres, Hfr. split; [done|].
      eexists tid0, _. rewrite Htimers, lookup_insert_eq. done.
    + destruct (promise_settled g Hc q) as (cmd & Hs & Hout); [lia|].
      exists cmd. rewrite Hsub, Hs.
      rewrite (proj2 (Nat.eqb_neq p q)) by done. split; [by rewrite app_nil_r|].
      unfold Outcome in *. rewrite Hres.
      destruct Hout as [?|(Hr & tid & timer & Ht & Hp)]; [by left|].
      right. split; [done|]. exists tid, timer.
      destruct (Hold _ _ Ht) as [Htid _].
      by rewrite Htimers, lookup_insert_ne.
Qed.

(** An armed timer's promise is resolved, by the agent's acknowledgment
    or by the timer itself; the timer and the pending entry of its
    command id go. *)
Lemma Consistent_resolved g g' tid timer ack before after :
  Consistent g ->
  timers g !! tid = Some timer ->
  a_commandId ack = idOf (t_command timer) ->
  quiet before -> quiet after ->
  pendingCommands g' = delete (idOf (t_command timer)) (pendingCommands g) ->
  timers g' = delete tid (timers g) ->
  nextPromise g' = nextPromise g ->
  nextTimer g' = nextTimer g ->
  trace g' = trace g ++ before ++ Resolved (t_resolve timer) ack :: after ->
  Consistent g'.
Proof.
  intros Hc Htimer Hid Hbefore Hafter Hpending Htimers Hnext HnextT Htrace.
  set (p := t_resolve timer) in *.
  destruct (timer_armed g Hc tid timer Htimer) as (Htid & Hdelay & Hpr & Hps).
  fold p in Hpr, Hps.
  assert (Hres : forall q, resolutions q (trace g')
                           = resolutions q (trace g) ++ if Nat.eqb p q then [ack] else []).
  { intros q. rewrite Htrace, resolutions_app. f_equal.
    change (Resolved p ack :: after) with ([Resolved p ack] ++ after).
    rewrite !resolutions_app, (proj1 (Hbefore q)), (proj1 (Hafter q)),
      resolutions_resolved. by rewrite app_nil_r. }
  assert (Hsub : forall q, submitted q (trace g') = submitted q (trace g)).
  { intros q. rewrite Htrace, submitted_app.
    change (Resolved p ack :: after) with ([Resolved p ack] ++ after).
    rewrite !submitted_app, (proj2 (Hbefore q)), (proj2 (Hafter q)). simpl.
    by rewrite app_nil_r. }
  assert (Hothers : forall tid' timer', tid' <> tid -> timers g !! tid' = Some timer' ->
                                        Nat.eqb p (t_resolve timer') = false).
  { intros tid' timer' Hne Ht'. apply Nat.eqb_neq. intros Heq. apply Hne.
    by apply (timer_per_promise g Hc tid' tid timer' timer). }
  assert (Hp : (p < nextPromise g)%nat).
  { destruct (Nat.lt_ge_cases p (nextPromise g)) as [|Hge]; [done|].
    destruct (promise_fresh g Hc p Hge) as [Hf _]. by rewrite Hf in Hps. }
  constructor.
  - rewrite Htimers, HnextT. intros tid' timer' Ht'.
    apply lookup_delete_Some in Ht' as [Hne Ht'].
    destruct (timer_armed g Hc tid' timer' Ht') as (? & ? & Hr & Hs).
    rewrite Hres, Hsub, Hr, Hs, (Hothers tid' timer') by done. done.
  - rewrite Htimers. intros tid1 tid2 timer1 timer2 Ht1 Ht2.
    apply lookup_delete_Some in Ht1 as [_ Ht1].
    apply lookup_delete_Some in Ht2 as [_ Ht2].
    by apply (timer_per_promise g Hc).
  - rewrite Hpending, Htimers. intros cid pending Hcid.
    apply lookup_delete_Some in Hcid as [Hne Hcid].
    destruct (pending_armed g Hc cid pending Hcid) as (timer' & Ht' & ? & Hcmd).
    exists timer'. split; [|done].
    rewrite lookup_delete_ne; [done|]. intros Heq. rewrite <- Heq in Ht'.
    rewrite Htimer in Ht'. injection Ht' as <-. congruence.
  - rewrite Hnext. intros q Hq.
    destruct (promise_fresh g Hc q) as [Hs Hr]; [done|].
    rewrite Hres, Hsub, Hs, Hr.
    by rewrite (proj2 (Nat.eqb_neq p q)) by lia.
  - rewrite Hnext. intros q Hq. destruct (decide (q = p)) as [->|Hne].
    + exists (t_command timer). rewrite Hsub. split; [done|].
      left. exists ack. by rewrite Hres, Hpr, Nat.eqb_refl.
    + destruct (promise_settled g Hc q Hq) as (cmd & Hs & Hout).
      exists cmd. rewrite Hsub. split; [done|].
      unfold Outcome in *. rewrite Hres.
      rewrite (proj2 (Nat.eqb_neq p q)) by done. rewrite app_nil_r.
      destruct Hout as [?|(Hr & tid' & timer' & Ht' & Hq')]; [by left|].
      right. split; [done|]. exists tid', timer'. split; [|done].
      rewrite Htimers, lookup_delete_ne; [done|].
      intros <-. rewrite Htimer in Ht'. injection Ht' as <-. by apply Hne.
Qed.

(** Nothing of the command pipeline moves. *)
Lemma Consistent_unmoved g g' extra :
  Consistent g ->
  quiet extra ->
  pendingCommands g' = pendingCommands g ->
  timers g' = timers g ->
  nextPromise g' = nextPromise g ->
  nextTimer g' = nextTimer g ->
  trace g' = trace g ++ extra ->
  Consistent g'.
Proof.
  intros Hc Hextra Hpending Htimers Hnext HnextT Htrace.
  assert (Hres : forall q, resolutions q (trace g') = resolutions q (trace g)).
  { intros q. by rewrite Htrace, resolutions_app, (proj1 (Hextra q)), app_nil_r. }
  assert (Hsub : forall q, submitted q (trace g') = submitted q (trace g)).
  { intros q. by rewrite Htrace, submitted_app, (proj2 (Hextra q)), app_nil_r. }
  constructor.
  - rewrite Htimers, HnextT. intros tid timer Ht. rewrite Hres, Hsub.
    by apply (timer_armed g Hc).
  - rewrite Htimers. apply (timer_per_promise g Hc).
  - rewrite Hpending, Htimers. apply (pending_armed g Hc).
  - rewrite Hnext. intros q Hq. rewrite Hres, Hsub. by apply (promise_fresh g Hc).
  - rewrite Hnext. intros q Hq.
    destruct (promise_settled g Hc q Hq) as (cmd & Hs & Hout).
    exists cmd. rewrite Hsub. split; [done|].
    unfold Outcome in *. by rewrite Hres, Htimers.
Qed.

End ResolutionFacts.

Section ResolutionClaims.
Import Protocol Command Policy PolicySpec Server ServerSpec.

Variable hostname : string -> option string.

Lemma Consistent_executeCommand clk gen command g :
  Consistent g -> Consistent (executeCommand hostname clk gen command g).
Proof.
  intros Hc. unfold executeCommand.
  destruct (consultPolicy hostname clk (ensureCommandId gen command) g)
    as [verdict history].
  destruct (negb (allowed verdict)).
  - eapply (Consistent_settled_at_once g) with (logs := logCommand _ _ _ _);
      cycle 7; [reflexivity|exact Hc|apply quiet_logCommand|reflexivity..].
  - destruct (sendToExtension _ _) as [sent|] eqn:Hsent.
    + apply sendToExtension_frame in Hsent as [to ->].
      eapply (Consistent_sent g); cycle 6; [reflexivity|exact Hc|done|reflexivity..].
    + eapply (Consistent_settled_at_once g) with (logs := []);
        cycle 7; [reflexivity|exact Hc|apply quiet_nil|reflexivity..].
Qed.

Lemma Consistent_handleCommandAck ack g :
  Consistent g -> Consistent (handleCommandAck ack g).
Proof.
  intros Hc. unfold handleCommandAck.
  destruct (pendingCommands g !! a_commandId ack) as [pending|] eqn:Hpending.
  - destruct (pending_armed g Hc _ _ Hpending) as (timer & Htimer & Hres & Hid).
    eapply (Consistent_resolved g _ (timeout pending) timer ack []
              (broadcastToRepl ack (a_tabId ack) (replConnections g)));
      [exact Hc|exact Htimer|by rewrite Hid|apply quiet_nil|apply quiet_broadcast
      |simpl; by rewrite Hid|reflexivity..|simpl; by rewrite Hres].
  - eapply (Consistent_unmoved g _
              (broadcastToRepl ack (a_tabId ack) (replConnections g)));
      [exact Hc|apply quiet_broadcast|reflexivity..].
Qed.

Lemma Consistent_fireTimer now tid g :
  Consistent g -> Consistent (fireTimer now tid g).
Proof.
  intros Hc. unfold fireTimer.
  destruct (timers g !! tid) as [timer|] eqn:Htimer; [|done].
  destruct (armedAt timer + delay timer <=? now); [|done].
  eapply (Consistent_resolved g _ tid timer
            (failAck (t_command timer) "Command timeout" now)
            (logCommand (policy g) (t_command timer) "fail" (Some "timeout")) []);
    [exact Hc|exact Htimer|reflexivity|apply quiet_logCommand|apply quiet_nil
    |reflexivity..].
Qed.

(** The replies of the continuations leave the tables of the pipeline
    alone. *)
Lemma Consistent_resume g g' : Consistent g' -> Consistent (resume g g').
Proof.
  intros Hc. eapply (Consistent_unmoved g' _ _ Hc (quiet_settle _ _));
    reflexivity.
Qed.

Lemma Consistent_handleAct to clk gen command g :
  Consistent g -> Consistent (handleAct hostname to clk gen command g).
Proof.
  intros Hc. unfold handleAct.
  eapply (Consistent_unmoved _ _ _ (Consistent_executeCommand clk gen _ g Hc));
    [|reflexivity..].
  by destruct (resolutions _ _); intros q.
Qed.

Lemma Consistent_step g e : Consistent g -> Consistent (step hostname g e).
Proof.
  intros Hc.
  destruct e as [[to|] clk gen command|ack|now tid|world' policy' agents controllers];
    simpl.
  - by apply Consistent_handleAct.
  - by apply Consistent_executeCommand.
  - by apply Consistent_resume, Consistent_handleCommandAck.
  - by apply Consistent_resume, Consistent_fireTimer.
  - eapply (Consistent_unmoved g _ []);
      [exact Hc|apply quiet_nil|reflexivity..|simpl; by rewrite app_nil_r].
Qed.

Lemma Consistent_run events g :
  Consistent g -> Consistent (run hostname events g).
Proof.
  unfold run. revert g. induction events as [|e events IH]; intros g Hc; simpl.
  - done.
  - apply IH. by apply Consistent_step.
Qed.

(** [executeCommand] hands a new promise to its caller. *)
Lemma executeCommand_creates clk gen command g :
  Consistent g ->
  nextPromise (executeCommand hostname clk gen command g) = S (nextPromise g)
  /\ submitted (nextPromise g) (trace (executeCommand hostname clk gen command g))
     = [ensureCommandId gen command].
Proof.
  intros Hc. destruct (promise_fresh g Hc (nextPromise g)) as [Hs _]; [done|].
  unfold executeCommand.
  destruct (consultPolicy hostname clk (ensureCommandId gen command) g)
    as [verdict history].
  destruct (negb (allowed verdict)); simpl.
  - split; [done|]. rewrite submitted_app, Hs. simpl. rewrite Nat.eqb_refl.
    rewrite submitted_app, (proj2 (quiet_logCommand _ _ _ _ _)). simpl.
    done.
  - destruct (sendToExtension _ _) as [sent|] eqn:Hsent; simpl.
    + apply sendToExtension_frame in Hsent as [to ->].
      split; [done|]. rewrite submitted_app, Hs. simpl. by rewrite Nat.eqb_refl.
    + split; [done|]. rewrite submitted_app, Hs. simpl. by rewrite Nat.eqb_refl.
Qed.

(** What [executeCommand] appends to the trace: no [await], no reply, and
    no resolution of another promise than its own. *)
Lemma executeCommand_extends clk gen command g :
  exists new,
    trace (executeCommand hostname clk gen command g) = trace g ++ new
    /\ silent new
    /\ forall q, q <> nextPromise g -> resolutions q new = [].
Proof.
  unfold executeCommand.
  destruct (consultPolicy hostname clk (ensureCommandId gen command) g)
    as [verdict history].
  destruct (negb (allowed verdict)).
  - eexists. split; [reflexivity|]. split.
    + apply (silent_app [_]); [by intros q|].
      apply silent_app; [apply silent_logCommand|by intros q].
    + intros q Hq. change (Created ?p ?c :: ?l) with ([Created p c] ++ l).
      rewrite !resolutions_app, (proj1 (quiet_logCommand _ _ _ _ _)).
      rewrite resolutions_resolved. by rewrite (proj2 (Nat.eqb_neq _ _)) by done.
  - destruct (sendToExtension _ _) as [sent|] eqn:Hsent.
    + apply sendToExtension_frame in Hsent as [to ->].
      eexists. split; [reflexivity|]. split; by intros q.
    + eexists. split; [reflexivity|]. split; [by intros q|].
      intros q Hq. simpl. by rewrite (proj2 (Nat.eqb_neq _ _)) by done.
Qed.

Lemma Answered_executeCommand clk gen command g :
  Answered g -> Answered (executeCommand hostname clk gen command g).
Proof.
  intros Ha.
  destruct (executeCommand_extends clk gen command g) as (new & Htrace & Hsilent & Hres).
  assert (Hnext : nextPromise (executeCommand hostname clk gen command g)
                  = S (nextPromise g)).
  { unfold executeCommand.
    destruct (consultPolicy _ _ _ _) as [verdict history].
    destruct (negb (allowed verdict)); [done|].
    by destruct (sendToExtension _ _). }
  apply (Answered_extend g _ new Ha); [lia|exact Htrace| |].
  - intros q _. apply Hsilent.
  - intros q. rewrite (proj1 (Hsilent q)), (proj2 (Hsilent q)).
    destruct (awaiter q (trace g)) as [to|] eqn:Haw; [|done].
    rewrite Hres; [done|]. intros ->.
    by rewrite (await_fresh g Ha (nextPromise g)) in Haw.
Qed.

Lemma awaiter_awaits q p to tr :
  awaiter q (Awaits p to :: tr) = if Nat.eqb p q then Some to else awaiter q tr.
Proof. unfold awaiter. simpl. by destruct (Nat.eqb p q). Qed.

(** The reply that follows at once when the promise is resolved by the
    time [executeCommand] returns. *)
Lemma reply_at_once q p to rs :
  let reply := match rs with
               | ack :: _ => [Reply p to ack]
               | [] => []
               end in
  awaiter q reply = None
  /\ resolutions q reply = []
  /\ replies q reply
     = if Nat.eqb p q
       then match rs with ack :: _ => [(to, ack)] | [] => [] end
       else [].
Proof.
  destruct rs as [|ack rest]; simpl; [by destruct (Nat.eqb p q)|].
  by destruct (Nat.eqb p q).
Qed.

Lemma Answered_handleAct to clk gen command g :
  Consistent g -> Answered g ->
  Answered (handleAct hostname to clk gen command g).
Proof.
  intros Hc Ha. set (p := nextPromise g).
  pose proof (Consistent_executeCommand clk gen command g Hc) as Hc1.
  destruct (executeCommand_creates clk gen command g Hc) as [Hnext _].
  destruct (executeCommand_extends clk gen command g) as (new & Htrace & Hsilent & Hres).
  fold p in Hnext, Hres.
  set (rs := resolutions p (trace g ++ new)).
  assert (Hone : (fun ack => (to, ack)) <$> rs
                 = match rs with ack :: _ => [(to, ack)] | [] => [] end).
  { unfold rs. rewrite <- Htrace.
    destruct (promise_settled _ Hc1 p) as (cmd & _ & [(ack & -> & _)|[-> _]]);
      [rewrite Hnext; lia|done..]. }
  assert (Htr : trace (handleAct hostname to clk gen command g)
                = trace g ++ (new ++ Awaits p to
                                     :: match rs with
                                        | ack :: _ => [Reply p to ack]
                                        | [] => []
                                        end)).
  { rewrite handleAct_trace. cbv zeta. fold p. rewrite Htrace. fold rs.
    by rewrite <- app_assoc. }
  assert (Hnx : nextPromise (handleAct hostname to clk gen command g) = S p).
  { unfold handleAct. cbn [nextPromise withTrace].
    by rewrite executeCommand_ensured. }
  destruct (reply_at_once p p to rs) as (_ & _ & Hmine).
  rewrite Nat.eqb_refl in Hmine.
  eapply (Answered_extend g _ _ Ha); cycle 1; [exact Htr| | |rewrite Hnx; unfold p; lia].
  - intros q Hq. rewrite Hnx in Hq.
    rewrite awaiter_app, (proj1 (Hsilent q)), awaiter_awaits.
    rewrite (proj2 (Nat.eqb_neq p q)) by lia.
    apply (reply_at_once q p to rs).
  - intros q. rewrite awaiter_app, replies_app, resolutions_app.
    rewrite (proj1 (Hsilent q)), (proj2 (Hsilent q)), awaiter_awaits.
    change (replies q (Awaits p to :: ?l)) with (replies q l).
    change (resolutions q (Awaits p to :: ?l)) with (resolutions q l).
    destruct (reply_at_once q p to rs) as (Haw & -> & ->).
    destruct (Nat.eqb_spec p q) as [<-|Hne].
    + rewrite (await_fresh g Ha p) by (unfold p; lia).
      rewrite app_nil_r, <- resolutions_app. fold rs. by rewrite Hone.
    + rewrite Haw, Hres by done. by destruct (awaiter q (trace g)).
Qed.

(** A handler that resolves one promise whose timer was armed. *)
Lemma Answered_resolved g g' p ack before after :
  Answered g ->
  resolutions p (trace g) = [] ->
  quiet before -> quiet after -> silent before -> silent after ->
  nextPromise g' = nextPromise g ->
  trace g' = trace g ++ before ++ Resolved p ack :: after ->
  Answered (resume g g').
Proof.
  intros Ha Hr Hqb Hqa Hsb Hsa Hnext Htrace.
  pose proof (resume_resolved g g' p ack before after Hr Hqb Hqa Hsb Htrace) as Hresume.
  set (reply := match awaiter p (trace g) with
                | Some to => [Reply p to ack]
                | None => []
                end) in *.
  assert (Hreply : silent [Resolved p ack] /\ quiet [] /\ forall q, awaiter q reply = None).
  { split; [by intros q|]. split; [by intros q|].
    intros q. unfold reply. by destruct (awaiter p (trace g)). }
  destruct Hreply as (Hsr & _ & Hareply).
  apply (Answered_extend g _ ((before ++ Resolved p ack :: after) ++ reply) Ha).
  - unfold resume. cbn [nextPromise withTrace]. lia.
  - by rewrite Hresume, Htrace, <- app_assoc.
  - intros q _. rewrite awaiter_app.
    change (Resolved p ack :: after) with ([Resolved p ack] ++ after).
    rewrite !awaiter_app, (proj1 (Hsb q)), (proj1 (Hsa q)). apply Hareply.
  - intros q.
    change (Resolved p ack :: after) with ([Resolved p ack] ++ after).
    rewrite !awaiter_app, !replies_app, !resolutions_app.
    rewrite (proj1 (Hsb q)), (proj1 (Hsa q)), (proj2 (Hsb q)), (proj2 (Hsa q)).
    rewrite (proj1 (Hqb q)), (proj1 (Hqa q)), resolutions_resolved, Hareply.
    rewrite (proj1 (Hsr q)), (proj2 (Hsr q)), !app_nil_r. cbn [app].
    destruct (Nat.eqb_spec p q) as [<-|Hne].
    + unfold reply. destruct (awaiter p (trace g)) as [to|]; [|done].
      simpl. by rewrite Nat.eqb_refl.
    + assert (Hnone : replies q reply = [] /\ resolutions q reply = []).
      { unfold reply. destruct (awaiter p (trace g)); [|done].
        simpl. by rewrite (proj2 (Nat.eqb_neq _ _) Hne). }
      destruct Hnone as [-> ->]. by destruct (awaiter q (trace g)).
Qed.

(** A handler that resolves nothing. *)
Lemma Answered_unmoved g g' extra :
  Answered g ->
  quiet extra -> silent extra ->
  nextPromise g' = nextPromise g ->
  trace g' = trace g ++ extra ->
  Answered g'.
Proof.
  intros Ha Hq Hs Hnext Htrace.
  apply (Answered_extend g _ extra Ha); [lia|exact Htrace| |].
  - intros q _. apply Hs.
  - intros q. rewrite (proj1 (Hs q)), (proj2 (Hs q)), (proj1 (Hq q)).
    by destruct (awaiter q (trace g)).
Qed.

(** The trace of an acknowledgment that finds its pending entry: the
    promise is resolved, the acknowledgment is broadcast, and the request
    that awaits the promise replies. *)
Lemma step_ack_pending ack pending g :
  Consistent g ->
  pendingCommands g !! a_commandId ack = Some pending ->
  resolutions (resolve pending) (trace g) = []
  /\ trace (step hostname g (AgentAck ack))
     = trace g
       ++ Resolved (resolve pending) ack
          :: broadcastToRepl ack (a_tabId ack) (replConnections g)
       ++ match awaiter (resolve pending) (trace g) with
          | Some to => [Reply (resolve pending) to ack]
          | None => []
          end.
Proof.
  intros Hc Hpending.
  destruct (pending_armed g Hc _ _ Hpending) as (timer & Htimer & Hres & _).
  destruct (timer_armed g Hc _ _ Htimer) as (_ & _ & Hr & _).
  rewrite Hres in Hr. split; [exact Hr|].
  cbn [step].
  rewrite (resume_resolved g (handleCommandAck ack g) (resolve pending) ack []
             (broadcastToRepl ack (a_tabId ack) (replConnections g)) Hr);
    [|apply quiet_nil|apply quiet_broadcast|apply silent_nil
     |unfold handleCommandAck; by rewrite Hpending].
  unfold handleCommandAck. rewrite Hpending. cbn [trace].
  by rewrite <- app_assoc.
Qed.

(** An acknowledgment without a pending entry only goes through the
    broadcast. *)
Lemma step_ack_stray ack g :
  pendingCommands g !! a_commandId ack = None ->
  step hostname g (AgentAck ack) = handleCommandAck ack g
  /\ trace (handleCommandAck ack g)
     = trace g ++ broadcastToRepl ack (a_tabId ack) (replConnections g).
Proof.
  intros Hnone.
  assert (Htrace : trace (handleCommandAck ack g)
                   = trace g ++ broadcastToRepl ack (a_tabId ack) (replConnections g)).
  { unfold handleCommandAck. by rewrite Hnone. }
  split; [|exact Htrace].
  cbn [step]. apply (resume_unresolved g _ _ (quiet_broadcast _ _ _) Htrace).
Qed.

Lemma Answered_step g e :
  Consistent g -> Answered g -> Answered (step hostname g e).
Proof.
  intros Hc Ha.
  destruct e as [[to|] clk gen command|ack|now tid|world' policy' agents controllers];
    cbn [step].
  - by apply Answered_handleAct.
  - by apply Answered_executeCommand.
  - destruct (pendingCommands g !! a_commandId ack) as [pending|] eqn:Hpending.
    + destruct (step_ack_pending ack pending g Hc Hpending) as [Hr _].
      apply (Answered_resolved g _ (resolve pending) ack []
               (broadcastToRepl ack (a_tabId ack) (replConnections g)) Ha Hr);
        [apply quiet_nil|apply quiet_broadcast|apply silent_nil|apply silent_broadcast
        |unfold handleCommandAck; by rewrite Hpending..].
    + destruct (step_ack_stray ack g Hpending) as [Hstep Htrace].
      cbn [step] in Hstep. rewrite Hstep.
      apply (Answered_unmoved g _ _ Ha
               (quiet_broadcast ack (a_tabId ack) (replConnections g))
               (silent_broadcast ack (a_tabId ack) (replConnections g)));
        [|exact Htrace].
      unfold handleCommandAck. by rewrite Hpending.
  - unfold fireTimer.
    destruct (timers g !! tid) as [timer|] eqn:Htimer.
    + destruct (armedAt timer + delay timer <=? now).
      * destruct (timer_armed g Hc _ _ Htimer) as (_ & _ & Hr & _).
        apply (Answered_resolved g _ (t_resolve timer)
                 (failAck (t_command timer) "Command timeout" now)
                 (logCommand (policy g) (t_command timer) "fail" (Some "timeout")) []
                 Ha Hr);
          [apply quiet_logCommand|apply quiet_nil|apply silent_logCommand
          |apply silent_nil|reflexivity..].
      * rewrite (resume_unresolved g g []); [done|apply quiet_nil|by rewrite app_nil_r].
    + rewrite (resume_unresolved g g []); [done|apply quiet_nil|by rewrite app_nil_r].
  - apply (Answered_unmoved g _ [] Ha quiet_nil silent_nil); [done|].
    cbn [trace]. by rewrite app_nil_r.
Qed.

Lemma Answered_run events g :
  Consistent g -> Answered g -> Answered (run hostname events g).
Proof.
  unfold run. revert g. induction events as [|e events IH]; intros g Hc Ha; simpl.
  - done.
  - apply IH; [by apply Consistent_step|by apply Answered_step].
Qed.

(** The timeout resolves the promise of an armed timer. *)
Lemma fireTimer_resolves now tid timer g :
  Consistent g ->
  timers g !! tid = Some timer ->
  armedAt timer + delay timer <= now ->
  resolutions (t_resolve timer) (trace (fireTimer now tid g))
  = [failAck (t_command timer) "Command timeout" now].
Proof.
  intros Hc Htimer Hdue. unfold fireTimer. rewrite Htimer.
  rewrite (proj2 (Z.leb_le _ _) Hdue). simpl.
  destruct (timer_armed g Hc tid timer Htimer) as (_ & _ & Hr & _).
  rewrite !resolutions_app, Hr, (proj1 (quiet_logCommand _ _ _ _ _)). simpl.
  by rewrite Nat.eqb_refl.
Qed.

(** An acknowledgment without a pending entry. *)
Lemma handleCommandAck_not_pending ack g :
  pendingCommands g !! a_commandId ack = None ->
  pendingCommands (handleCommandAck ack g) = pendingCommands g
  /\ timers (handleCommandAck ack g) = timers g
  /\ (forall p, resolutions p (trace (handleCommandAck ack g))
                = resolutions p (trace g))
  /\ controllerFrames (trace (handleCommandAck ack g))
     = controllerFrames (trace g) ++ forwardedTo (replConnections g) ack.
Proof.
  intros Hnone. unfold handleCommandAck. rewrite Hnone. simpl.
  split; [done|]. split; [done|]. split.
  - intros p. by rewrite resolutions_app, (proj1 (quiet_broadcast _ _ _ p)), app_nil_r.
  - by rewrite controllerFrames_app, controllerFrames_broadcast.
Qed.

(** C2, as amended. In every run of the gateway:
    - each call of [executeCommand] hands out one new promise, and the
      [act] request of a controller awaits the promise of its call;
    - every promise handed out so far either has been resolved exactly
      once, with an acknowledgment carrying the command's id, or has not
      been resolved and has its 30-second timer armed, whose firing
      resolves it with the failure "Command timeout";
    - the replies sent to the controller of an [act] request are the
      acknowledgments its promise has been resolved with: none so far, or
      one;
    - an agent acknowledgment that finds its pending entry resolves the
      promise of that entry with itself; it is broadcast to every
      controller whose socket is open and whose subscription admits the
      tab the acknowledgment names, and the controller whose request
      awaits the promise is also sent it as the reply, so that it may
      receive it twice;
    - an agent acknowledgment whose id has no pending entry resolves
      nothing, answers no request and leaves the pending table and the
      timers as they are; it is still broadcast to the controllers in the
      same way. *)
Theorem command_resolved_once events :
  let g := run hostname events init in
  (forall clk gen command,
      nextPromise (executeCommand hostname clk gen command g) = S (nextPromise g)
      /\ submitted (nextPromise g) (trace (executeCommand hostname clk gen command g))
         = [ensureCommandId gen command])
  /\ (forall to clk gen command,
        let g' := step hostname g (Act (Controller to) clk gen command) in
        nextPromise g' = S (nextPromise g)
        /\ submitted (nextPromise g) (trace g') = [ensureCommandId gen command]
        /\ awaiter (nextPromise g) (trace g') = Some to)
  /\ (forall p,
        (p < nextPromise g)%nat ->
        exists command,
          submitted p (trace g) = [command]
          /\ ((exists ack,
                  resolutions p (trace g) = [ack] /\ a_commandId ack = idOf command)
              \/ (resolutions p (trace g) = []
                  /\ exists tid timer,
                      timers g !! tid = Some timer
                      /\ t_resolve timer = p
                      /\ delay timer = 30000
                      /\ forall now,
                          armedAt timer + 30000 <= now ->
                          resolutions p (trace (step hostname g (TimerFires now tid)))
                          = [{| a_commandId := idOf command;
                                status := fail "Command timeout";
                                timestamp := now;
                                a_tabId := None |}])))
  /\ (forall p to,
        awaiter p (trace g) = Some to ->
        replies p (trace g) = (fun ack => (to, ack)) <$> resolutions p (trace g))
  /\ (forall ack pending,
        pendingCommands g !! a_commandId ack = Some pending ->
        let g' := step hostname g (AgentAck ack) in
        resolutions (resolve pending) (trace g') = [ack]
        /\ controllerFrames (trace g')
           = controllerFrames (trace g) ++ forwardedTo (replConnections g) ack
        /\ forall to,
            awaiter (resolve pending) (trace g) = Some to ->
            replies (resolve pending) (trace g') = [(to, ack)])
  /\ (forall ack,
        pendingCommands g !! a_commandId ack = None ->
        let g' := step hostname g (AgentAck ack) in
        pendingCommands g' = pendingCommands g
        /\ timers g' = timers g
        /\ (forall p, resolutions p (trace g') = resolutions p (trace g))
        /\ (forall p, replies p (trace g') = replies p (trace g))
        /\ controllerFrames (trace g')
           = controllerFrames (trace g) ++ forwardedTo (replConnections g) ack).
Proof.
  intros g.
  assert (Hc : Consistent g) by (apply Consistent_run, Consistent_init).
  assert (Ha : Answered g)
    by (apply Answered_run; [apply Consistent_init|apply Answered_init]).
  split; [intros clk gen command; by apply executeCommand_creates|].
  split.
  { intros to clk gen command g'.
    destruct (executeCommand_creates clk gen command g Hc) as [Hnext Hsub].
    unfold g'. cbn [step].
    split; [cbn [handleAct nextPromise withTrace];
            by rewrite executeCommand_ensured|].
    rewrite handleAct_trace. cbv zeta. split.
    - rewrite submitted_app, Hsub.
      by destruct (resolutions _ _).
    - destruct (executeCommand_extends clk gen command g)
        as (new & -> & Hsilent & _).
      rewrite !awaiter_app, (await_fresh g Ha (nextPromise g)) by lia.
      by rewrite (proj1 (Hsilent _)), awaiter_awaits, Nat.eqb_refl. }
  split.
  { intros p Hp. destruct (promise_settled g Hc p Hp) as (command & Hs & Hout).
    exists command. split; [done|].
    destruct Hout as [?|(Hr & tid & timer & Htimer & Hres)]; [by left|].
    right. split; [done|]. exists tid, timer.
    destruct (timer_armed g Hc tid timer Htimer) as (_ & Hdelay & _ & Hcmd).
    repeat split; try done.
    intros now Hdue.
    assert (Hdue' : armedAt timer + delay timer <= now) by (by rewrite Hdelay).
    pose proof (fireTimer_resolves now tid timer g Hc Htimer Hdue') as Hfired.
    rewrite Hres, Hs in Hcmd. injection Hcmd as Hcmd.
    rewrite Hres, <- Hcmd in Hfired.
    cbn [step]. unfold resume. cbn [trace withTrace].
    rewrite resolutions_app, (proj1 (quiet_settle _ _ p)), app_nil_r.
    exact Hfired. }
  split.
  { intros p to Haw. by rewrite (replied g Ha p), Haw. }
  split.
  { intros ack pending Hpending g'.
    destruct (step_ack_pending ack pending g Hc Hpending) as [Hr Htrace].
    unfold g'. rewrite Htrace.
    change (Resolved ?p ?a :: ?l) with ([Resolved p a] ++ l).
    split; [|split].
    - rewrite !resolutions_app, Hr, resolutions_resolved, Nat.eqb_refl.
      rewrite (proj1 (quiet_broadcast _ _ _ _)).
      by destruct (awaiter (resolve pending) (trace g)).
    - rewrite !controllerFrames_app, controllerFrames_broadcast.
      destruct (awaiter (resolve pending) (trace g)); simpl; by rewrite app_nil_r.
    - intros to Haw. rewrite Haw, !replies_app.
      rewrite (replied g Ha), Haw, Hr, (proj2 (silent_broadcast _ _ _ _)).
      simpl. by rewrite Nat.eqb_refl. }
  intros ack Hnone g'.
  destruct (step_ack_stray ack g Hnone) as [Hstep Htrace].
  unfold g'. rewrite Hstep.
  destruct (handleCommandAck_not_pending ack g Hnone) as (? & ? & ? & ?).
  repeat split; try done.
  intros p. by rewrite Htrace, replies_app, (proj2 (silent_broadcast _ _ _ _)), app_nil_r.
Qed.

End ResolutionClaims.

Section DeniedExamples.
Import Protocol Command Policy PolicySpec Server ServerSpec.

(** Scenario 3: with the allowlist ["b.com"], a click on tab 1, whose url
    is https://a/, fails with the domain reason and without agent
    traffic; the controller on socket 7 is sent the failure as the reply
    to its request. *)
Lemma executeCommand_policy_denied_witness :
  let g := step schemeHost init
             (Other (Sample.worldWith "https://a/" [Sample.button "a_0" "Sign in" false])
                (allowOnly ["b.com"]) oneAgent oneController) in
  let command' := ensureCommandId "cmd_5000_abcd" (clickOn "a_0") in
  let g' := executeCommand schemeHost noon "cmd_5000_abcd" (clickOn "a_0") g in
  let denied := {| a_commandId := "cmd_5000_abcd";
                   status := fail "Domain not allowed: https://a/";
                   timestamp := 5001;
                   a_tabId := None |} in
  allowed (consultPolicy schemeHost noon command' g).1 = false
  /\ trace g'
     = [Created 0%nat command';
        Audit (Some "cmd_5000_abcd") click 1 "fail"
          (Some "Domain not allowed: https://a/");
        Resolved 0%nat denied]
  /\ agentFrames (trace g') = []
  /\ pendingCommands g' = ∅
  /\ timers g' = ∅
  /\ trace (step schemeHost g
              (Act (Controller 7%nat) noon "cmd_5000_abcd" (clickOn "a_0")))
     = trace g' ++ [Awaits 0%nat 7%nat; Reply 0%nat 7%nat denied].
Proof.
  intros g command' g' denied. split; [reflexivity|].
  assert (Hg : Consistent g) by apply Consistent_step, Consistent_init.
  destruct (executeCommand_policy_denied schemeHost noon "cmd_5000_abcd"
              (clickOn "a_0") g eq_refl)
    as [(why & Hwhy & Htrace & Hagent & Hpending & Htimers & Hreply) Hdomain].
  fold command' g' in Hwhy, Htrace, Hagent, Hpending, Htimers, Hreply, Hdomain.
  rewrite (Hdomain (Sample.tabWith "https://a/" [Sample.button "a_0" "Sign in" false])
             eq_refl ltac:(discriminate) eq_refl) in Hwhy.
  injection Hwhy as <-.
  split; [exact Htrace|]. split; [exact Hagent|]. split; [exact Hpending|].
  split; [exact Htimers|]. exact (Hreply Hg 7%nat).
Defined.

Example scenario_domain_denied :
  let g := step schemeHost init
             (Other (Sample.worldWith "https://a/" [Sample.button "a_0" "Sign in" false])
                (allowOnly ["b.com"]) oneAgent oneController) in
  let g' := executeCommand schemeHost noon "cmd_5000_abcd" (clickOn "a_0") g in
  resolutions 0%nat (trace g')
  = [{| a_commandId := "cmd_5000_abcd";
        status := fail "Domain not allowed: https://a/";
        timestamp := 5001; a_tabId := None |}]
  /\ agentFrames (trace g') = []
  /\ pendingCommands g' = ∅.
Proof. repeat split. Qed.

End DeniedExamples.


Section ResolutionExamples.
Import Protocol Command Policy PolicySpec Server ServerSpec.

(** A run in which the click of the controller on socket 7 goes to the
    agent and nothing has come back: the promise is open with its timer
    armed, the request awaits it without a reply so far, and the timer
    would resolve it with the timeout failure. The agent's acknowledgment
    resolves the promise and reaches the controller twice, as a broadcast
    frame and as the reply; an acknowledgment with another id is only
    broadcast. *)
Lemma command_resolved_once_witness :
  let g := run schemeHost
             [Other (Sample.worldWith "https://a/" [Sample.button "a_0" "Sign in" false])
                defaultConfig oneAgent oneController;
              Act (Controller 7%nat) noon "cmd_5000_abcd" (clickOn "a_0")] init in
  let answer := Wire.ackReceived 1
                  {| a_commandId := "cmd_5000_abcd"; status := ok None;
                     timestamp := 5100; a_tabId := None |} in
  let answered := step schemeHost g (AgentAck answer) in
  let strayed := step schemeHost g (AgentAck strayAck) in
  ((0 < nextPromise g)%nat
   /\ awaiter 0%nat (trace g) = Some 7%nat
   /\ pendingCommands g !! a_commandId answer
      = Some {| resolve := 0%nat; timeout := 0%nat |}
   /\ pendingCommands g !! a_commandId strayAck = None)
  /\ (exists command,
        submitted 0%nat (trace g) = [command]
        /\ ((exists ack,
                resolutions 0%nat (trace g) = [ack] /\ a_commandId ack = idOf command)
            \/ (resolutions 0%nat (trace g) = []
                /\ exists tid timer,
                    timers g !! tid = Some timer
                    /\ t_resolve timer = 0%nat
                    /\ delay timer = 30000
                    /\ forall now,
                        armedAt timer + 30000 <= now ->
                        resolutions 0%nat (trace (step schemeHost g (TimerFires now tid)))
                        = [{| a_commandId := idOf command;
                              status := fail "Command timeout";
                              timestamp := now;
                              a_tabId := None |}])))
  /\ replies 0%nat (trace g)
     = (fun ack => (7%nat, ack)) <$> resolutions 0%nat (trace g)
  /\ (resolutions 0%nat (trace answered) = [answer]
      /\ controllerFrames (trace answered)
         = controllerFrames (trace g) ++ [(7%nat, answer)]
      /\ replies 0%nat (trace answered) = [(7%nat, answer)])
  /\ (pendingCommands strayed = pendingCommands g
      /\ timers strayed = timers g
      /\ resolutions 0%nat (trace strayed) = resolutions 0%nat (trace g)
      /\ replies 0%nat (trace strayed) = replies 0%nat (trace g)
      /\ controllerFrames (trace strayed)
         = controllerFrames (trace g) ++ [(7%nat, strayAck)]).
Proof.
  intros g answer answered strayed.
  assert (Hp : (0 < nextPromise g)%nat) by (vm_compute; lia).
  assert (Haw : awaiter 0%nat (trace g) = Some 7%nat) by reflexivity.
  assert (Hpending : pendingCommands g !! a_commandId answer
                     = Some {| resolve := 0%nat; timeout := 0%nat |})
    by reflexivity.
  assert (Hnone : pendingCommands g !! a_commandId strayAck = None)
    by reflexivity.
  split; [by repeat split|].
  pose proof (command_resolved_once schemeHost
                [Other (Sample.worldWith "https://a/"
                          [Sample.button "a_0" "Sign in" false])
                   defaultConfig oneAgent oneController;
                 Act (Controller 7%nat) noon "cmd_5000_abcd" (clickOn "a_0")])
    as (_ & _ & Hsettled & Hreplied & Hack & Hstray).
  split; [exact (Hsettled 0%nat Hp)|].
  split; [exact (Hreplied 0%nat 7%nat Haw)|].
  destruct (Hack answer _ Hpending) as (Hresolved & Hframes & Hreply).
  destruct (Hstray strayAck Hnone) as (Hsame & Htimers & Hres & Hrep & Hstrayed).
  split.
  - split; [exact Hresolved|]. split; [exact Hframes|exact (Hreply 7%nat Haw)].
  - split; [exact Hsame|]. split; [exact Htimers|].
    split; [exact (Hres 0%nat)|]. split; [exact (Hrep 0%nat)|exact Hstrayed].
Defined.

(** C2 as stated fails for an acknowledgment without a pending entry: it
    is not dropped silently, the controller on socket 7 receives it. *)
Lemma stray_ack_counterexample :
  let g := run schemeHost
             [Other (Sample.worldWith "https://a/" [Sample.button "a_0" "Sign in" false])
                defaultConfig oneAgent oneController] init in
  pendingCommands g !! a_commandId strayAck = None
  /\ controllerFrames (trace g) = []
  /\ controllerFrames (trace (step schemeHost g (AgentAck strayAck)))
     = [(7%nat, strayAck)].
Proof. repeat split. Qed.

(** Scenario 4: the agent never answers; once 30 s have passed the caller
    gets the timeout failure, once, as the reply to its request, and the
    pending entry is gone. *)
Example scenario_timeout :
  let timedOut := {| a_commandId := "cmd_5000_abcd"; status := fail "Command timeout";
                     timestamp := 35001; a_tabId := None |} in
  let g := run schemeHost
             [Other (Sample.worldWith "https://a/" [Sample.button "a_0" "Sign in" false])
                defaultConfig oneAgent oneController;
              Act (Controller 7%nat) noon "cmd_5000_abcd" (clickOn "a_0");
              Other (Sample.worldWith "https://a/" [Sample.button "a_0" "Sign in" false])
                defaultConfig [] oneController;
              TimerFires 35001 0%nat] init in
  resolutions 0%nat (trace g) = [timedOut]
  /\ replies 0%nat (trace g) = [(7%nat, timedOut)]
  /\ controllerFrames (trace g) = []
  /\ agentFrames (trace g)
     = [(3%nat, ensureCommandId "cmd_5000_abcd" (clickOn "a_0"))]
  /\ pendingCommands g = ∅.
Proof. repeat split; vm_compute; reflexivity. Qed.

(** The controller that asked receives the agent's acknowledgment twice,
    as a broadcast frame and as the reply to its request; an
    acknowledgment delivered a second time resolves and answers nothing,
    and is broadcast again. *)
Example duplicate_ack :
  let answer := Wire.ackReceived 1
                  {| a_commandId := "cmd_5000_abcd"; status := ok None;
                     timestamp := 5100; a_tabId := None |} in
  let g1 := run schemeHost
              [Other (Sample.worldWith "https://a/" [Sample.button "a_0" "Sign in" false])
                 defaultConfig oneAgent oneController;
               Act (Controller 7%nat) noon "cmd_5000_abcd" (clickOn "a_0");
               AgentAck answer] init in
  let g2 := step schemeHost g1 (AgentAck answer) in
  (resolutions 0%nat (trace g1) = [answer]
   /\ controllerFrames (trace g1) = [(7%nat, answer)]
   /\ replies 0%nat (trace g1) = [(7%nat, answer)])
  /\ (resolutions 0%nat (trace g2) = [answer]
      /\ controllerFrames (trace g2) = [(7%nat, answer); (7%nat, answer)]
      /\ replies 0%nat (trace g2) = [(7%nat, answer)]).
Proof. repeat split; vm_compute; reflexivity. Qed.

(** A controller subscribed to tab 2 asks for a click on tab 1: the
    agent's acknowledgment, which names tab 1, does not reach it through
    the broadcast; it is sent the reply to its request only. *)
Example subscribed_elsewhere :
  let answer := Wire.ackReceived 1
                  {| a_commandId := "cmd_5000_abcd"; status := ok None;
                     timestamp := 5100; a_tabId := None |} in
  let elsewhere := [{| r_socket := {| ws := 7%nat; isOpen := true |};
                       subscribedTabId := Some 2 |}] in
  let g := run schemeHost
             [Other (Sample.worldWith "https://a/" [Sample.button "a_0" "Sign in" false])
                defaultConfig oneAgent elsewhere;
              Act (Controller 7%nat) noon "cmd_5000_abcd" (clickOn "a_0");
              AgentAck answer] init in
  resolutions 0%nat (trace g) = [answer]
  /\ controllerFrames (trace g) = []
  /\ replies 0%nat (trace g) = [(7%nat, answer)].
Proof. repeat split; vm_compute; reflexivity. Qed.

End ResolutionExamples.

(** ** Watchers: the diff of two candidates *)

Section DiffClaims.
Import Protocol Watchers WatchersSpec.

Lemma bool_is_decide (b : bool) (P : Prop) `{Decision P} :
  (b = true <-> P) -> b = bool_decide P.
Proof.
  intros Hiff. destruct b.
  - symmetry. apply bool_decide_eq_true_2. by apply Hiff.
  - symmetry. apply bool_decide_eq_false_2. intros HP. by apply Hiff in HP.
Qed.

Lemma rectChangedBy_moved o n :
  rectChangedBy o n = bool_decide (rectMoved o n).
Proof.
  apply bool_is_decide. unfold rectChangedBy, rectMoved.
  rewrite !orb_true_iff, !Z.gtb_lt. tauto.
Qed.

Lemma differs_negb_eqb (a b : bool) : negb (Bool.eqb a b) = true <-> a <> b.
Proof. by destruct a, b. Qed.

Lemma stateChanged_differs o n :
  stateChanged o n = bool_decide (stateDiffers o n).
Proof.
  apply bool_is_decide. unfold stateChanged, stateDiffers.
  rewrite !orb_true_iff, !differs_negb_eqb. tauto.
Qed.

Lemma ctxChanged_differs o n :
  ctxChanged o n = bool_decide (ctxDiffers o n).
Proof.
  apply bool_is_decide. unfold ctxChanged, ctxDiffers.
  rewrite !orb_true_iff, !differs_negb_eqb. tauto.
Qed.

Lemma string_differs (a b : string) :
  negb (String.eqb a b) = bool_decide (a <> b).
Proof.
  destruct (String.eqb_spec a b); simpl.
  - by rewrite bool_decide_eq_false_2 by naive_solver.
  - by rewrite bool_decide_eq_true_2.
Qed.

Lemma bool_differs (a b : bool) :
  negb (Bool.eqb a b) = bool_decide (a <> b).
Proof. apply bool_is_decide, differs_negb_eqb. Qed.

Lemma option_differs (a b : option string) :
  negb (bool_decide (a = b)) = bool_decide (a <> b).
Proof.
  destruct (decide (a = b)).
  - by rewrite bool_decide_eq_true_2, bool_decide_eq_false_2 by naive_solver.
  - by rewrite bool_decide_eq_false_2, bool_decide_eq_true_2.
Qed.

(** [diffCandidate] in the words of the specification. *)
Lemma diffCandidate_entry i o n :
  withId i <$> diffCandidate o n
  = if decide (differs o n) then Some (entryFor i o n) else None.
Proof.
  unfold diffCandidate, differs, entryFor.
  rewrite rectChangedBy_moved, stateChanged_differs, ctxChanged_differs,
    string_differs, bool_differs, option_differs.
  destruct (decide (rectMoved (rect o) (rect n))) as [Hr|Hr],
    (decide (stateDiffers (state o) (state n))) as [Hs|Hs],
    (decide (name o <> name n)) as [Hn|Hn],
    (decide (value o <> value n)) as [Hv|Hv],
    (decide (occluded o <> occluded n)) as [Ho|Ho],
    (decide (ctxDiffers (ctx o) (ctx n))) as [Hc|Hc].
  all: rewrite ?(bool_decide_eq_true_2 _ Hr), ?(bool_decide_eq_false_2 _ Hr),
    ?(bool_decide_eq_true_2 _ Hs), ?(bool_decide_eq_false_2 _ Hs),
    ?(bool_decide_eq_true_2 _ Hn), ?(bool_decide_eq_false_2 _ Hn),
    ?(bool_decide_eq_true_2 _ Hv), ?(bool_decide_eq_false_2 _ Hv),
    ?(bool_decide_eq_true_2 _ Ho), ?(bool_decide_eq_false_2 _ Ho),
    ?(bool_decide_eq_true_2 _ Hc), ?(bool_decide_eq_false_2 _ Hc); simpl.
  all: first [ rewrite decide_True by tauto; reflexivity
             | rewrite decide_False by tauto; reflexivity ].
Qed.

Lemma diffCandidate_is_Some o n :
  is_Some (diffCandidate o n) <-> differs o n.
Proof.
  pose proof (diffCandidate_entry "" o n) as Hentry.
  destruct (decide (differs o n)) as [Hd|Hd].
  - split; [done|]. intros _. destruct (diffCandidate o n); [by eexists|done].
  - split; [|done]. intros [diff Hdiff]. by rewrite Hdiff in Hentry.
Qed.

Lemma fold_compare currentMap entries removed updated :
  fold_left (compare currentMap) entries (removed, updated)
  = (removed
       ++ omap (fun e : string * ActionCandidate =>
                  match currentMap !! e.1 with
                  | None => Some e.1
                  | Some _ => None
                  end) entries,
     updated
       ++ omap (fun e : string * ActionCandidate =>
                  currentMap !! e.1 ≫= fun n => withId e.1 <$> diffCandidate e.2 n)
            entries).
Proof.
  revert removed updated.
  induction entries as [|e entries IH]; intros removed updated; simpl.
  - by rewrite !app_nil_r.
  - unfold compare at 2. simpl. destruct (currentMap !! e.1) as [n|]; simpl.
    + destruct (diffCandidate e.2 n) as [diff|]; simpl.
      * by rewrite IH, <- app_assoc.
      * by rewrite IH.
    + by rewrite IH, <- app_assoc.
Qed.

Lemma elem_of_updated now previous current u :
  u ∈ updated (computeDelta now previous current) <->
  exists i o n,
    previous !! i = Some o /\ toMap current !! i = Some n
    /\ differs o n /\ u = entryFor i o n.
Proof.
  unfold computeDelta. rewrite fold_compare. simpl.
  rewrite list_elem_of_omap. split.
  - intros ([i o] & Hin & Hu). apply elem_of_map_to_list in Hin. simpl in Hu.
    destruct (toMap current !! i) as [n|] eqn:Hn; [|done]. simpl in Hu.
    rewrite diffCandidate_entry in Hu.
    destruct (decide (differs o n)); [|done]. injection Hu as <-.
    by exists i, o, n.
  - intros (i & o & n & Ho & Hn & Hd & ->). exists (i, o).
    split; [by apply elem_of_map_to_list|]. simpl. rewrite Hn. simpl.
    by rewrite diffCandidate_entry, decide_True.
Qed.

(** C9. For every pair of candidates, the diff is non-empty exactly when a
    coordinate of the rect differs by more than 2, or a boolean of the
    state differs, or name, value or occluded differ, or inModal or inNav
    differ. The update entry that [computeDelta] emits for an id holds the
    id and the changed groups only: rect, rectN and hit together when the
    rect changed, the whole state, the whole ctx, and name, value and
    occluded one by one. *)
Theorem diffCandidate_spec :
  (forall o n, is_Some (diffCandidate o n) <-> differs o n)
  /\ (forall i o n diff,
        diffCandidate o n = Some diff -> withId i diff = entryFor i o n)
  /\ (forall now previous current u,
        u ∈ updated (computeDelta now previous current) <->
        exists i o n,
          previous !! i = Some o /\ toMap current !! i = Some n
          /\ differs o n /\ u = entryFor i o n).
Proof.
  split; [apply diffCandidate_is_Some|].
  split; [|apply elem_of_updated].
  intros i o n diff Hdiff. pose proof (diffCandidate_entry i o n) as Hentry.
  rewrite Hdiff in Hentry. simpl in Hentry.
  destruct (decide (differs o n)); [congruence|done].
Qed.

(** A button that moves by one pixel and becomes disabled: the entry holds
    the id and the state, not the rect. *)
Example diffCandidate_within_tolerance :
  let o := Sample.button "a_2" "Submit" false in
  let n := {| id := "a_2";
              rect := {| x := 11; y := 12; w := 100; h := 30 |};
              rectN := rectN o; role := role o; tag := tag o; name := name o;
              aria := aria o; placeholder := None; value := None; href := None;
              state := state (Sample.button "a_2" "Submit" true);
              ctx := ctx o; styleHint := styleHint o;
              hit := {| cx := 61; cy := 27 |}; occluded := false;
              frameId := None |} in
  withId "a_2" <$> diffCandidate o n = Some Sample.disableUpdate.
Proof. reflexivity. Qed.

End DiffClaims.

(** ** Executor: the verify acknowledgment *)

Section VerifyClaims.
Import Protocol Command Executor.

Context {Element Page : Type} `{Browser Element Page}.

Lemma ackVerify_rectChanged commandId i element page now :
  exists v,
    status (ackVerify commandId i element page now) = verify v
    /\ rectChanged v = false.
Proof. unfold ackVerify. destruct element; simpl; by eexists. Qed.

Lemma ackFail_not_verify commandId why now v :
  status (ackFail commandId why now) <> verify v.
Proof. done. Qed.

Lemma verified_or_failed (attempt : Throws Page (Page * CommandAck)) commandId now
    page' ack v :
  (forall r, attempt = inl r ->
             exists i element p, r = (p, ackVerify commandId i element p now)) ->
  match attempt with
  | inl r => r
  | inr (page, message) => (page, ackFail commandId message now)
  end = (page', ack) ->
  status ack = verify v -> rectChanged v = false.
Proof.
  intros Hok. destruct attempt as [r|[page message]]; intros Heq Hv.
  - destruct (Hok r eq_refl) as (i & element & p & ->). injection Heq as _ <-.
    destruct (ackVerify_rectChanged commandId i element p now) as (v' & Hv' & Hrc).
    congruence.
  - injection Heq as <- <-. by apply ackFail_not_verify in Hv.
Qed.

Lemma executeHover_verify commandId i duration page now page' ack v :
  executeHover commandId i duration page now = (page', ack) ->
  status ack = verify v -> rectChanged v = false.
Proof.
  unfold executeHover. apply verified_or_failed. intros r.
  destruct (findElement page i) as [element|]; simpl; [|done].
  destruct (simulateMouseEvent element "mouseenter" plainEvent page) as [p1|];
    simpl; [|done].
  destruct (simulateMouseEvent element "mouseover" plainEvent p1) as [p2|];
    simpl; [|done].
  destruct (simulateMouseEvent element "mousemove" plainEvent p2) as [p3|];
    simpl; [|done].
  intros [= <-]. by eexists _, _, _.
Qed.

Lemma executeClick_verify commandId i btn mods clickCount page now page' ack v :
  executeClick commandId i btn mods clickCount page now = (page', ack) ->
  status ack = verify v -> rectChanged v = false.
Proof.
  unfold executeClick. apply verified_or_failed. intros r.
  destruct (findElement page i) as [element|]; simpl; [|done].
  destruct (clickSequence element _ 0 _ page) as [p1|]; simpl; [|done].
  destruct (if isHTMLElement element && focusableOnClick p1 element
            then focusElement element p1 else inl p1) as [p2|]; simpl; [|done].
  destruct (if isHTMLElement element then nativeClick element p2 else inl p2)
    as [p3|]; simpl; [|done].
  intros [= <-]. by eexists _, _, _.
Qed.

(** C10. Every verify acknowledgment of the executor has
    [verification.rectChanged = false]: [ackVerify] sets it so for every
    element and page, and a verify acknowledgment of [executeCommand]
    comes from a click or a hover and carries [false], whatever the
    events of the command do to the page. *)
Theorem verify_rectChanged_false :
  (forall commandId i element page now,
      exists v,
        status (ackVerify commandId i element page now) = verify v
        /\ rectChanged v = false)
  /\ (forall command page now page' ack v,
        executeCommand command page now = (page', ack) ->
        status ack = verify v ->
        rectChanged v = false
        /\ (commandType command = click \/ commandType command = hover)).
Proof.
  split; [apply ackVerify_rectChanged|].
  intros command page now page' ack v. unfold executeCommand, commandType.
  destruct (body command) eqn:Hbody; intros Hrun Hv;
    try (destruct (otherCommand _ page) as [p [result|why]];
         injection Hrun as _ <-; discriminate Hv).
  - split; [by eapply executeHover_verify|by right].
  - split; [by eapply executeClick_verify|by left].
Qed.

End VerifyClaims.

Section VerifyExamples.
Import Protocol Command Executor PolicySpec.

(** On the sample page a click moves the element from x = 10 to x = 110;
    the acknowledgment reports the new rect and [rectChanged = false]. *)
Lemma verify_rectChanged_false_witness :
  let before := getBoundingClientRect (10 : Z) 0%nat in
  let ack :=
    {| a_commandId := "";
       status := verify {| v_id := "a_0"; stillVisible := true; hitTestOk := true;
                           rectChanged := false;
                           newRect := Some {| x := 110; y := 10; w := 100; h := 30 |} |};
       timestamp := 7;
       a_tabId := None |} in
  round (b_left before) = 10
  /\ executeCommand (clickOn "a_0") (10 : Z) 7 = (110, ack)
  /\ rectChanged {| v_id := "a_0"; stillVisible := true; hitTestOk := true;
                    rectChanged := false;
                    newRect := Some {| x := 110; y := 10; w := 100; h := 30 |} |}
     = false.
Proof.
  simpl. split; [reflexivity|].
  assert (Hrun : executeCommand (clickOn "a_0") (10 : Z) 7
                 = (110,
                    {| a_commandId := "";
                       status := verify {| v_id := "a_0"; stillVisible := true;
                                           hitTestOk := true; rectChanged := false;
                                           newRect := Some {| x := 110; y := 10;
                                                              w := 100; h := 30 |} |};
                       timestamp := 7;
                       a_tabId := None |}))
    by (vm_compute; reflexivity).
  split; [exact Hrun|].
  exact (proj1 (proj2 verify_rectChanged_false (clickOn "a_0") 10 7 110 _ _ Hrun eq_refl)).
Defined.

End VerifyExamples.

(** * Further properties of the code *)

(** ** World state: hello, snapshot, disconnect *)

Section TelemetryFacts.
Import Protocol WorldState DeltaSpec Telemetry WorldSpec.

Lemma addedMap_lookup_last cs c :
  NoDup (id <$> cs) -> c ∈ cs -> addedMap cs !! id c = Some c.
Proof.
  unfold addedMap, applyAdditions.
  assert (Hgen : forall m : gmap string ActionCandidate,
             NoDup (id <$> cs) -> c ∈ cs ->
             fold_left (fun m c => <[id c:=c]> m) cs m !! id c = Some c).
  { induction cs as [|c' cs IH]; intros m Hnd Hin; [by apply elem_of_nil in Hin|].
    simpl. rewrite fmap_cons in Hnd. apply NoDup_cons in Hnd as [Hfresh Hnd].
    apply elem_of_cons in Hin as [->|Hin]; [|by apply IH].
    fold (applyAdditions cs (<[id c':=c']> m)).
    rewrite applyAdditions_union, lookup_union.
    destruct (addedMap cs !! id c') as [c''|] eqn:Hc''.
    - apply addedMap_lookup_Some in Hc'' as [Hin Hid].
      destruct Hfresh. rewrite <- Hid. apply list_elem_of_fmap. by exists c''.
    - by rewrite lookup_insert_eq. }
  apply Hgen.
Qed.

Lemma addedMap_lookup_is_Some cs c :
  c ∈ cs -> is_Some (addedMap cs !! id c).
Proof.
  unfold addedMap, applyAdditions.
  assert (Hgen : forall (m : gmap string ActionCandidate) k,
             (is_Some (m !! k) \/ exists c, c ∈ cs /\ id c = k) ->
             is_Some (fold_left (fun m c => <[id c:=c]> m) cs m !! k)).
  { induction cs as [|c' cs IH]; intros m k Hk; simpl.
    - destruct Hk as [?|(c0 & Hin & _)]; [done|by apply elem_of_nil in Hin].
    - apply IH. destruct Hk as [Hm|(c0 & Hin & Hid)].
      + left. destruct (decide (id c' = k)) as [<-|Hne].
        * by rewrite lookup_insert_eq.
        * by rewrite lookup_insert_ne.
      + apply elem_of_cons in Hin as [->|Hin].
        * left. rewrite <- Hid. by rewrite lookup_insert_eq.
        * right. by exists c0. }
  intros Hin. apply Hgen. right. by exists c.
Qed.

Lemma values_of_addedMap cs :
  NoDup (id <$> cs) -> (map_to_list (addedMap cs)).*2 ≡ₚ cs.
Proof.
  intros Hnd. apply NoDup_Permutation.
  - apply NoDup_fmap_2_strong; [|apply NoDup_map_to_list].
    intros [k1 c1] [k2 c2] H1%elem_of_map_to_list H2%elem_of_map_to_list Heq.
    simpl in Heq. subst c2.
    apply addedMap_lookup_Some in H1 as [_ <-].
    apply addedMap_lookup_Some in H2 as [_ <-]. done.
  - by apply NoDup_fmap_1 in Hnd.
  - intros c. rewrite list_elem_of_fmap. split.
    + intros ([k c'] & -> & Hin%elem_of_map_to_list).
      by apply addedMap_lookup_Some in Hin as [Hin _].
    + intros Hin. exists (id c, c). split; [done|].
      apply elem_of_map_to_list. by apply addedMap_lookup_last.
Qed.

(** X1. After a snapshot the tab holds candidates of the snapshot only, one
    for every id of the snapshot, whatever it held before, and its history
    is empty; when the ids of the snapshot are distinct, [getCandidates]
    returns the candidates of the snapshot, in some order. *)
Theorem handleSnapshot_replaces created now message st :
  let st' := (handleSnapshot created now message st).1 in
  let t := (handleSnapshot created now message st).2 in
  tabs st' !! s_tabId message = Some t
  /\ deltaHistory t = []
  /\ url t = s_url message
  /\ (forall k c, candidates t !! k = Some c ->
                  c ∈ s_candidates message /\ id c = k)
  /\ (forall c, c ∈ s_candidates message -> is_Some (candidates t !! id c))
  /\ (NoDup (id <$> s_candidates message) ->
      getCandidates (s_tabId message) st' ≡ₚ s_candidates message).
Proof.
  simpl. split; [by rewrite lookup_insert_eq|].
  split; [done|]. split; [done|].
  split; [intros k c; apply addedMap_lookup_Some|].
  split; [intros c; apply addedMap_lookup_is_Some|].
  intros Hnd. unfold getCandidates. simpl. rewrite lookup_insert_eq. simpl.
  by apply values_of_addedMap.
Qed.

Lemma handleSnapshot_replaces_witness :
  NoDup (id <$> [Sample.button "a_0" "Sign in" false; Sample.link "a_1" "Help"])
  /\ getCandidates 1
       (handleSnapshot 5 6
          (snapshotOf 1 "https://a/"
             [Sample.button "a_0" "Sign in" false; Sample.link "a_1" "Help"])
          Sample.scenarioWorld).1
     ≡ₚ [Sample.button "a_0" "Sign in" false; Sample.link "a_1" "Help"].
Proof.
  assert (Hnd : NoDup (id <$> [Sample.button "a_0" "Sign in" false;
                               Sample.link "a_1" "Help"])).
  { apply (bool_decide_unpack _). vm_compute. exact I. }
  split; [exact Hnd|].
  exact (proj2 (proj2 (proj2 (proj2 (proj2
    (handleSnapshot_replaces 5 6
       (snapshotOf 1 "https://a/"
          [Sample.button "a_0" "Sign in" false; Sample.link "a_1" "Help"])
       Sample.scenarioWorld))))) Hnd).
Defined.

(** X2. A hello changes no candidate of any tab: [getCandidates] and
    [searchCandidates] answer as before, for the tab of the hello too; the
    history of an existing tab is kept, and so is its time of connection
    unless that is 0. *)
Theorem handleHello_keeps_candidates created now message st :
  let st' := (handleHello created now message st).1 in
  (forall tab, getCandidates tab st' = getCandidates tab st)
  /\ (forall tab search filters,
        searchCandidates tab search filters st'
        = searchCandidates tab search filters st)
  /\ (forall e, tabs st !! h_tabId message = Some e ->
        exists t, tabs st' !! h_tabId message = Some t
                  /\ candidates t = candidates e
                  /\ deltaHistory t = deltaHistory e
                  /\ url t = h_url message
                  /\ (connectedAt e <> 0 -> connectedAt t = connectedAt e)).
Proof.
  simpl.
  assert (Hget : forall tab,
             getCandidates tab (handleHello created now message st).1
             = getCandidates tab st).
  { intros tab. unfold getCandidates. simpl.
    destruct (decide (tab = h_tabId message)) as [->|Hne].
    - rewrite lookup_insert_eq. simpl.
      destruct (tabs st !! h_tabId message); simpl; [done|].
      by rewrite map_to_list_empty.
    - by rewrite lookup_insert_ne. }
  split; [exact Hget|]. split.
  - intros tab search filters. unfold searchCandidates. by rewrite Hget.
  - intros e He. eexists. rewrite lookup_insert_eq. split; [done|].
    rewrite He. simpl. repeat split; try done.
    intros Hne. by rewrite (proj2 (Z.eqb_neq _ _) Hne).
Qed.

Lemma handleHello_keeps_candidates_witness :
  tabs Sample.scenarioWorld !! 1
  = Some (Sample.tabWith "https://a/"
            [Sample.button "a_0" "Sign in" false; Sample.button "a_2" "Submit" false])
  /\ exists t,
      tabs (handleHello 5 6
              {| h_tabId := 1; h_url := "https://b/";
                 h_viewport := {| width := 800; height := 600 |};
                 h_userAgent := "agent"; h_timestamp := 5 |}
              Sample.scenarioWorld).1 !! 1 = Some t
      /\ candidates t
         = candidates (Sample.tabWith "https://a/"
                         [Sample.button "a_0" "Sign in" false;
                          Sample.button "a_2" "Submit" false])
      /\ url t = "https://b/".
Proof.
  split; [reflexivity|].
  destruct (proj2 (proj2 (handleHello_keeps_candidates 5 6
              {| h_tabId := 1; h_url := "https://b/";
                 h_viewport := {| width := 800; height := 600 |};
                 h_userAgent := "agent"; h_timestamp := 5 |}
              Sample.scenarioWorld)) _ eq_refl)
    as (t & Ht & Hc & _ & Hu & _).
  exists t. by repeat split.
Defined.

(** X3. A snapshot followed by a delta for the same tab that removes every
    id of the snapshot and adds nothing leaves the tab without
    candidates. *)
Theorem snapshot_then_remove_all created now now' message d st :
  d_tabId d = s_tabId message ->
  added d = [] ->
  (forall c, c ∈ s_candidates message -> id c ∈ removed d) ->
  getCandidates (s_tabId message)
    (handleDelta now' d (handleSnapshot created now message st).1).1 = [].
Proof.
  intros Htab Hadded Hall.
  destruct (handleSnapshot created now message st) as [st' t] eqn:Hs.
  assert (Hlook : tabs st' !! s_tabId message = Some t
                  /\ candidates t = addedMap (s_candidates message)).
  { unfold handleSnapshot in Hs. injection Hs as <- <-. simpl.
    by rewrite lookup_insert_eq. }
  destruct Hlook as [Hlook Hcs].
  assert (Hm : candidates (applyDelta now' d t) = ∅).
  { apply map_eq; intros k. rewrite lookup_empty, lookup_applyDelta, Hadded, Hcs.
    change (addedMap [] !! k) with (@None ActionCandidate).
    rewrite (left_id_L None (∪)).
    destruct (decide (k ∈ removed d)) as [|Hout]; [done|].
    destruct (addedMap (s_candidates message) !! k) as [c|] eqn:Hk; [|done].
    apply addedMap_lookup_Some in Hk as [Hin <-]. destruct Hout. by apply Hall. }
  unfold getCandidates, handleDelta. cbn [fst]. rewrite Htab, Hlook.
  cbn [fst tabs]. rewrite lookup_insert_eq, Hm. by rewrite map_to_list_empty.
Qed.

Lemma snapshot_then_remove_all_witness :
  (d_tabId (removal 1 ["a_0"; "a_1"; "a_9"]) = 1
   /\ added (removal 1 ["a_0"; "a_1"; "a_9"]) = [])
  /\ getCandidates 1
       (handleDelta 9 (removal 1 ["a_0"; "a_1"; "a_9"])
          (handleSnapshot 5 6
             (snapshotOf 1 "https://a/"
                [Sample.button "a_0" "Sign in" false; Sample.link "a_1" "Help"])
             clearState).1).1 = [].
Proof.
  split; [split; reflexivity|].
  apply (snapshot_then_remove_all 5 6 9
           (snapshotOf 1 "https://a/"
              [Sample.button "a_0" "Sign in" false; Sample.link "a_1" "Help"])
           (removal 1 ["a_0"; "a_1"; "a_9"]) clearState eq_refl eq_refl).
  intros c Hin. simpl in Hin.
  apply elem_of_cons in Hin as [->|Hin]; [by left|].
  apply elem_of_cons in Hin as [->|Hin]; [by right; left|].
  by apply elem_of_nil in Hin.
Defined.

End TelemetryFacts.

(** ** World state: what every run of the handlers keeps *)

Section WorldInvariants.
Import Protocol WorldState DeltaSpec Telemetry WorldSpec.

Lemma pushHistory_last (d : StoredDelta) h :
  (List.length h <= MAX_DELTA_HISTORY)%nat ->
  (List.length (pushHistory d h) <= MAX_DELTA_HISTORY)%nat
  /\ pushHistory d h = drop (List.length h + 1 - MAX_DELTA_HISTORY) (h ++ [d])
  /\ last (pushHistory d h) = Some d.
Proof.
  intros Hlen. unfold pushHistory, MAX_DELTA_HISTORY in *.
  rewrite length_app. simpl.
  destruct (Nat.ltb_spec 50 (List.length h + 1)) as [Hover|Hfits].
  - assert (Hfull : List.length h = 50%nat) by lia. rewrite Hfull. simpl.
    destruct h as [|d0 h]; [done|]. simpl. split; [simpl in Hfull; rewrite length_app; simpl; lia|].
    split; [done|]. by rewrite last_snoc.
  - replace (List.length h + 1 - 50)%nat with 0%nat by lia. simpl.
    rewrite length_app. simpl. split; [lia|]. split; [done|].
    by rewrite last_snoc.
Qed.

Lemma removeObjects_spec ids m hist :
  (removeObjects ids m hist).1 = applyRemovals ids m
  /\ List.length (removeObjects ids m hist).2 = List.length hist.
Proof.
  unfold removeObjects, applyRemovals. revert m hist.
  induction ids as [|i ids IH]; intros m hist; simpl; [done|].
  destruct (IH (delete i m) (letGoOf m i <$> hist)) as [-> ->].
  by rewrite length_fmap.
Qed.

Lemma addObjects_snoc pre c m hist :
  addObjects (pre ++ [c]) m hist
  = let '(m', hist', objs) := addObjects pre m hist in
    (<[id c := c]> m',
     letGoOf m' (id c) <$> hist',
     (letGo m' (id c) <$> objs) ++ [inMap (id c)]).
Proof. unfold addObjects. by rewrite fold_left_app. Qed.

(** The map holds the last of the added candidates that carry an id. *)
Lemma applyAdditions_lookup_last cs m j c :
  cs !! j = Some c ->
  id c ∉ (id <$> drop (S j) cs) ->
  applyAdditions cs m !! id c = Some c.
Proof.
  revert m j. induction cs as [|c0 cs IH]; intros m j Hj Hlast; [done|].
  destruct j as [|j].
  - injection Hj as ->. simpl in Hlast. rewrite drop_0 in Hlast.
    change (applyAdditions (c :: cs) m) with (applyAdditions cs (<[id c := c]> m)).
    rewrite applyAdditions_union, lookup_union.
    destruct (addedMap cs !! id c) as [c'|] eqn:Hc'.
    + apply addedMap_lookup_Some in Hc' as [Hin Hid].
      destruct Hlast. rewrite <- Hid. apply list_elem_of_fmap. by exists c'.
    + by rewrite lookup_insert_eq.
  - change (applyAdditions (c0 :: cs) m) with (applyAdditions cs (<[id c0 := c0]> m)).
    by apply (IH _ j).
Qed.

(** What the loop of the additions leaves: the map, the kept deltas, one
    for one, and for every added candidate the object of the map, unless a
    later candidate has put another object under the same id. *)
Lemma addObjects_spec cs m hist :
  exists hist',
    addObjects cs m hist = (applyAdditions cs m, hist', imap (keptAs cs) cs)
    /\ List.length hist' = List.length hist.
Proof.
  induction cs as [|c pre IH] using rev_ind; [by exists hist|].
  destruct IH as (hist' & Hpre & Hlen).
  rewrite addObjects_snoc, Hpre.
  exists (letGoOf (applyAdditions pre m) (id c) <$> hist').
  split; [|by rewrite length_fmap].
  f_equal; [f_equal; unfold applyAdditions; by rewrite fold_left_app|].
  rewrite imap_app. f_equal.
  - apply list_eq. intros j.
    rewrite list_lookup_fmap, !list_lookup_imap.
    destruct (pre !! j) as [cj|] eqn:Hj; [|done]. simpl. f_equal.
    assert (Hdrop : drop (S j) (pre ++ [c]) = drop (S j) pre ++ [c]).
    { apply drop_app_le. apply lookup_lt_Some in Hj. lia. }
    unfold keptAs. rewrite Hdrop, fmap_app.
    destruct (decide (id cj ∈ id <$> drop (S j) pre)) as [Hin|Hlast].
    + rewrite decide_True by (apply elem_of_app; by left). done.
    + simpl. destruct (String.eqb_spec (id cj) (id c)) as [Heq|Hne].
      * rewrite decide_True by (apply elem_of_app; right; rewrite Heq; by left).
        rewrite <- Heq. by rewrite (applyAdditions_lookup_last pre m j cj Hj Hlast).
      * rewrite decide_False; [done|].
        intros [?|Hc%list_elem_of_singleton]%elem_of_app; done.
  - simpl. unfold keptAs.
    rewrite Nat.add_0_r, drop_ge by (rewrite length_app; simpl; lia).
    rewrite decide_False; [done|]. by intros ?%elem_of_nil.
Qed.

(** What [handleDelta] leaves as history. *)
Lemma storeDelta_spec d m hist :
  exists older,
    List.length older = List.length hist
    /\ storeDelta d m hist
       = pushHistory
           {| sd_tabId := d_tabId d;
              sd_frameId := d_frameId d;
              sd_timestamp := d_timestamp d;
              sd_added := imap (keptAs (added d)) (added d);
              sd_removed := removed d;
              sd_updated := updated d |}
           older.
Proof.
  unfold storeDelta.
  destruct (removeObjects (removed d) m hist) as [m1 hist1] eqn:Hremoved.
  destruct (removeObjects_spec (removed d) m hist) as [_ Hlen1].
  rewrite Hremoved in Hlen1. simpl in Hlen1.
  destruct (addObjects_spec (added d) m1 hist1) as (hist2 & -> & Hlen2).
  exists hist2. split; [congruence|done].
Qed.

(** The objects a kept delta holds in the map stay in the map when
    another object leaves it. *)
Lemma letGo_anchored (m m' : gmap string ActionCandidate) i objs :
  (forall k, k <> i -> m' !! k = m !! k) ->
  anchoredObjects m objs ->
  anchoredObjects m' (letGo m i <$> objs).
Proof.
  intros Hother Hobjs k (o & Ho & Hin)%list_elem_of_fmap.
  destruct o as [k'|c]; [|done]. simpl in Ho.
  destruct (String.eqb_spec k' i) as [Heq|Hne].
  - subst k'. destruct (Hobjs i Hin) as [c Hc]. by rewrite Hc in Ho.
  - injection Ho as ->. rewrite Hother by done. by apply Hobjs.
Qed.

Lemma letGoOf_anchored (m m' : gmap string ActionCandidate) i hist :
  (forall k, k <> i -> m' !! k = m !! k) ->
  anchored m hist ->
  anchored m' (letGoOf m i <$> hist).
Proof.
  intros Hother Hhist kept (kept0 & -> & Hin)%list_elem_of_fmap.
  apply (letGo_anchored m m' i _ Hother). by apply Hhist.
Qed.

Lemma removeObjects_anchored ids m hist :
  anchored m hist ->
  anchored (removeObjects ids m hist).1 (removeObjects ids m hist).2.
Proof.
  unfold removeObjects. revert m hist.
  induction ids as [|i ids IH]; intros m hist Hhist; simpl; [done|].
  apply IH. apply (letGoOf_anchored m); [|done].
  intros k Hne. by rewrite lookup_delete_ne.
Qed.

Lemma addObjects_anchored cs m hist :
  anchored m hist ->
  let '(m', hist', objs) := addObjects cs m hist in
  anchored m' hist' /\ anchoredObjects m' objs.
Proof.
  intros Hhist. unfold addObjects.
  assert (Hgen : forall acc : gmap string ActionCandidate * list StoredDelta
                             * list AddedObject,
             anchored acc.1.1 acc.1.2 /\ anchoredObjects acc.1.1 acc.2 ->
             let '(m', hist', objs) :=
               fold_left
                 (fun mho c =>
                    let '(m, hist, objs) := mho in
                    (<[id c := c]> m, letGoOf m (id c) <$> hist,
                     (letGo m (id c) <$> objs) ++ [inMap (id c)]))
                 cs acc in
             anchored m' hist' /\ anchoredObjects m' objs).
  { induction cs as [|c cs IH]; intros [[m0 hist0] objs0] [Hh Ho]; simpl; [done|].
    apply IH. simpl in *.
    assert (Hother : forall k, k <> id c -> <[id c := c]> m0 !! k = m0 !! k)
      by (intros k Hne; by rewrite lookup_insert_ne).
    split; [by apply (letGoOf_anchored m0)|].
    intros k [Hin|Hin%list_elem_of_singleton]%elem_of_app.
    - by apply (letGo_anchored m0 _ (id c) objs0 Hother).
    - injection Hin as ->. rewrite lookup_insert_eq. by eexists. }
  apply (Hgen (m, hist, [])). split; [done|]. by intros k ?%elem_of_nil.
Qed.

Lemma pushHistory_subset (d : StoredDelta) h kept :
  kept ∈ pushHistory d h -> kept ∈ h \/ kept = d.
Proof.
  unfold pushHistory.
  assert (Hin : kept ∈ h ++ [d] -> kept ∈ h \/ kept = d).
  { intros [?|?%list_elem_of_singleton]%elem_of_app; auto. }
  destruct (_ <? _)%nat; [|exact Hin].
  intros Htail. apply Hin. destruct (h ++ [d]); [done|]. by right.
Qed.

Lemma applyDelta_anchored now d t :
  anchored (candidates t) (deltaHistory t) ->
  anchored (candidates (applyDelta now d t)) (deltaHistory (applyDelta now d t)).
Proof.
  intros Ht. cbn [applyDelta candidates deltaHistory]. unfold storeDelta.
  pose proof (removeObjects_anchored (removed d) _ _ Ht) as Hremoved.
  destruct (removeObjects_spec (removed d) (candidates t) (deltaHistory t))
    as [Hm1 _].
  destruct (removeObjects (removed d) (candidates t) (deltaHistory t))
    as [m1 hist1].
  simpl in Hremoved, Hm1. subst m1.
  pose proof (addObjects_anchored (added d) _ _ Hremoved) as Hadded.
  destruct (addObjects_spec (added d) (applyRemovals (removed d) (candidates t)) hist1)
    as (hist2 & Hspec & _).
  rewrite Hspec in Hadded |- *. destruct Hadded as [Hhist Hobjs].
  assert (Hkeys : forall objs,
             anchoredObjects
               (applyAdditions (added d) (applyRemovals (removed d) (candidates t)))
               objs ->
             anchoredObjects
               (applyUpdates (updated d)
                  (applyAdditions (added d)
                     (applyRemovals (removed d) (candidates t))))
               objs).
  { intros objs Hin k Hk. rewrite applyUpdates_mergeById, lookup_mergeById.
    apply fmap_is_Some. by apply Hin. }
  intros kept [Hold| ->]%pushHistory_subset; apply Hkeys; [by apply Hhist|done].
Qed.

Lemma Anchored_clearState : Anchored clearState.
Proof. intros tab t Ht. simpl in Ht. by rewrite lookup_empty in Ht. Qed.

Lemma Anchored_handleTelemetry created now message st :
  Anchored st -> Anchored (handleTelemetry created now message st).
Proof.
  intros Hst. destruct message as [m|m|d|tab0 ? ? ?|tab0 ev|]; simpl; try done.
  - intros tab t. simpl. destruct (decide (tab = h_tabId m)) as [->|Hne].
    + rewrite lookup_insert_eq. intros [= <-]. simpl.
      destruct (tabs st !! h_tabId m) as [e|] eqn:He; simpl.
      * by apply (Hst _ _ He).
      * by intros kept ?%elem_of_nil.
    + rewrite lookup_insert_ne by done. apply Hst.
  - intros tab t. simpl. destruct (decide (tab = s_tabId m)) as [->|Hne].
    + rewrite lookup_insert_eq. intros [= <-]. simpl. by intros kept ?%elem_of_nil.
    + rewrite lookup_insert_ne by done. apply Hst.
  - unfold handleDelta. destruct (tabs st !! d_tabId d) as [e|] eqn:He; [|done].
    intros tab t. simpl. destruct (decide (tab = d_tabId d)) as [->|Hne].
    + rewrite lookup_insert_eq. intros [= <-].
      apply applyDelta_anchored. by apply (Hst _ _ He).
    + rewrite lookup_insert_ne by done. apply Hst.
  - destruct ev; try done. intros tab t. simpl.
    intros [_ Ht]%lookup_delete_Some. by apply (Hst _ _ Ht).
Qed.

Lemma Anchored_handleAll messages st :
  Anchored st -> Anchored (handleAll messages st).
Proof.
  unfold handleAll. revert st.
  induction messages as [|m messages IH]; intros st Hst; simpl; [done|].
  apply IH. by apply Anchored_handleTelemetry.
Qed.

Lemma updatesFor_id k (us : list CandidateUpdate) :
  u_id (updatesFor k us) = None \/ u_id (updatesFor k us) = Some k.
Proof.
  unfold updatesFor.
  assert (Hgen : forall acc,
             (u_id acc = None \/ u_id acc = Some k) ->
             let r := fold_left (fun a u => andThen a (updateFor k u)) us acc in
             u_id r = None \/ u_id r = Some k).
  { induction us as [|u us IH]; intros acc Hacc; simpl; [done|].
    apply IH. simpl. unfold updateFor.
    destruct (u_id u) as [i|] eqn:Hi; simpl.
    - destruct (String.eqb i ""); simpl.
      + destruct Hacc as [-> | ->]; auto.
      + destruct (String.eqb_spec i k) as [->|Hne]; simpl.
        * rewrite Hi. destruct Hacc as [-> | ->]; by right.
        * destruct Hacc as [-> | ->]; auto.
    - destruct Hacc as [-> | ->]; auto. }
  apply Hgen. by left.
Qed.

Lemma applyDelta_keyed now d t :
  (forall k c, candidates t !! k = Some c -> id c = k) ->
  forall k c, candidates (applyDelta now d t) !! k = Some c -> id c = k.
Proof.
  intros Hkeyed k c. rewrite lookup_applyDelta.
  destruct (addedMap (added d) !! k) as [c0|] eqn:Hadd.
  - apply addedMap_lookup_Some in Hadd as [_ Hid].
    assert (Hl : Some c0 ∪ (if decide (k ∈ removed d) then None else candidates t !! k)
                 = Some c0) by (by destruct (decide _), (candidates t !! k)).
    rewrite Hl. simpl. intros [= <-]. simpl.
    destruct (updatesFor_id k (updated d)) as [-> | ->]; simpl; done.
  - rewrite (left_id_L None (∪)).
    destruct (decide (k ∈ removed d)); [done|].
    destruct (candidates t !! k) as [c0|] eqn:Hc0; [|done].
    simpl. intros [= <-]. simpl. apply Hkeyed in Hc0.
    destruct (updatesFor_id k (updated d)) as [-> | ->]; simpl; done.
Qed.

Lemma WellKept_clearState : WellKept clearState.
Proof. intros tab t Ht. simpl in Ht. by rewrite lookup_empty in Ht. Qed.

Lemma WellKept_handleTelemetry created now message st :
  WellKept st -> WellKept (handleTelemetry created now message st).
Proof.
  intros Hst. destruct message as [m|m|d|tab0 ? ? ?|tab0 ev|]; simpl; try done.
  - intros tab t. simpl. destruct (decide (tab = h_tabId m)) as [->|Hne].
    + rewrite lookup_insert_eq. intros [= <-]. simpl. split; [done|].
      destruct (tabs st !! h_tabId m) as [e|] eqn:He; simpl.
      * destruct (Hst _ _ He) as (_ & Hk & Hh). by split.
      * split; [intros k c; by rewrite lookup_empty|lia].
    + rewrite lookup_insert_ne by done. apply Hst.
  - intros tab t. simpl. destruct (decide (tab = s_tabId m)) as [->|Hne].
    + rewrite lookup_insert_eq. intros [= <-]. simpl. split.
      * destruct (tabs st !! s_tabId m) as [e|] eqn:He; simpl; [|done].
        by destruct (Hst _ _ He).
      * split; [|lia]. intros k c Hc. by apply addedMap_lookup_Some in Hc as [_ ?].
    + rewrite lookup_insert_ne by done. apply Hst.
  - unfold handleDelta. destruct (tabs st !! d_tabId d) as [e|] eqn:He; [|done].
    intros tab t. simpl. destruct (decide (tab = d_tabId d)) as [->|Hne].
    + rewrite lookup_insert_eq. intros [= <-].
      destruct (Hst _ _ He) as (Hid & Hk & Hh). split; [done|]. split.
      * by apply applyDelta_keyed.
      * cbn [applyDelta deltaHistory].
        destruct (storeDelta_spec d (candidates e) (deltaHistory e))
          as (older & Holder & ->).
        apply pushHistory_last. by rewrite Holder.
    + rewrite lookup_insert_ne by done. apply Hst.
  - destruct ev; try done. intros tab t. simpl.
    intros [_ Ht]%lookup_delete_Some. by apply Hst.
Qed.

Lemma WellKept_handleAll messages st :
  WellKept st -> WellKept (handleAll messages st).
Proof.
  unfold handleAll. revert st.
  induction messages as [|m messages IH]; intros st Hst; simpl; [done|].
  apply IH. by apply WellKept_handleTelemetry.
Qed.

(** X4. Whatever messages the gateway has handled since it started, no
    tab's delta history is longer than 50, and every object a kept delta
    shares with the candidate map is in the map. A delta handled for a
    known tab becomes the newest entry of that tab's history. The entry
    holds, for every candidate the delta adds, the object the map now holds
    under its id, unless a later candidate of the same delta carries the
    same id: the entry shows such an object with the delta's own updates
    for its id already assigned, and will show whatever later deltas
    assign to it; a candidate that a later one has replaced is shown as it
    was sent. *)
Theorem deltaHistory_bounded messages tab t :
  tabs (handleAll messages clearState) !! tab = Some t ->
  (List.length (deltaHistory t) <= 50)%nat
  /\ (forall kept k,
        kept ∈ deltaHistory t -> inMap k ∈ sd_added kept ->
        is_Some (candidates t !! k))
  /\ (forall now d,
        d_tabId d = tab ->
        exists t',
          (handleDelta now d (handleAll messages clearState)).2 = Some t'
          /\ (List.length (deltaHistory t') <= 50)%nat
          /\ last (deltaHistory t')
             = Some {| sd_tabId := d_tabId d;
                       sd_frameId := d_frameId d;
                       sd_timestamp := d_timestamp d;
                       sd_added := imap (keptAs (added d)) (added d);
                       sd_removed := removed d;
                       sd_updated := updated d |}
          /\ (forall j c,
                added d !! j = Some c ->
                shown (candidates t') (keptAs (added d) j c)
                = Some (if decide (id c ∈ (id <$> drop (S j) (added d)))
                        then c
                        else assign c (updatesFor (id c) (updated d))))).
Proof.
  intros Ht.
  destruct (WellKept_handleAll messages clearState WellKept_clearState tab t Ht)
    as (_ & _ & Hlen).
  split; [exact Hlen|]. split.
  { intros kept k Hkept.
    exact (Anchored_handleAll messages clearState Anchored_clearState tab t Ht
             kept Hkept k). }
  intros now d Htab. subst tab. unfold handleDelta.
  rewrite Ht. eexists. split; [reflexivity|].
  cbn [applyDelta deltaHistory snd].
  destruct (storeDelta_spec d (candidates t) (deltaHistory t))
    as (older & Holder & ->).
  rewrite <- Holder in Hlen.
  destruct (pushHistory_last
              {| sd_tabId := d_tabId d; sd_frameId := d_frameId d;
                 sd_timestamp := d_timestamp d;
                 sd_added := imap (keptAs (added d)) (added d);
                 sd_removed := removed d; sd_updated := updated d |}
              older Hlen) as (Hbound & _ & Hlast).
  split; [exact Hbound|]. split; [exact Hlast|].
  intros j c Hj. unfold keptAs.
  destruct (decide (id c ∈ id <$> drop (S j) (added d))) as [Hin|Hnewest];
    [done|].
  simpl. rewrite applyUpdates_mergeById, lookup_mergeById.
  by rewrite (applyAdditions_lookup_last (added d) _ j c Hj Hnewest).
Qed.

(** X5. Whatever messages the gateway has handled since it started,
    [getCandidate(tabId, id)] answers with a candidate that carries that
    very id, and a tab state carries the id it is stored under. *)
Theorem getCandidate_id messages tab k c :
  getCandidate tab k (handleAll messages clearState) = Some c ->
  id c = k
  /\ exists t, getTab tab (handleAll messages clearState) = Some t
               /\ tabId t = tab.
Proof.
  unfold getCandidate, getTab.
  destruct (tabs (handleAll messages clearState) !! tab) as [t|] eqn:Ht; [|done].
  simpl. intros Hc.
  destruct (WellKept_handleAll messages clearState WellKept_clearState tab t Ht)
    as (Hid & Hk & _).
  split; [by apply Hk in Hc|]. by exists t.
Qed.

(** X6. A message changes the tab it names and no other; a delta for a tab
    the gateway does not know changes nothing and is answered with
    [null]. *)
Theorem handleTelemetry_other_tabs created now message st tab :
  messageTabId message <> Some tab ->
  tabs (handleTelemetry created now message st) !! tab = tabs st !! tab
  /\ (forall d, message = delta d -> tabs st !! d_tabId d = None ->
                handleDelta now d st = (st, None)).
Proof.
  intros Hother. split.
  - destruct message as [m|m|d|tab0 ? ? ?|tab0 ev|]; simpl in *; try done.
    + rewrite lookup_insert_ne; [done|congruence].
    + rewrite lookup_insert_ne; [done|congruence].
    + unfold handleDelta. destruct (tabs st !! d_tabId d); [|done]. simpl.
      rewrite lookup_insert_ne; [done|congruence].
    + destruct ev; try done. simpl. rewrite lookup_delete_ne; [done|congruence].
  - intros d _ Hnone. unfold handleDelta. by rewrite Hnone.
Qed.

(** X7. Once a tab has sent its unload event, searches of that tab return
    nothing and a delta for it is dropped, leaving the world state as it
    is. *)
Theorem unload_forgets_tab created now now' d st search filters :
  let st' := handleTelemetry created now (event (d_tabId d) unload) st in
  getTab (d_tabId d) st' = None
  /\ getCandidates (d_tabId d) st' = []
  /\ searchCandidates (d_tabId d) search filters st' = []
  /\ handleDelta now' d st' = (st', None).
Proof.
  simpl. unfold getTab, searchCandidates, getCandidates, handleDelta. simpl.
  rewrite lookup_delete_eq. done.
Qed.

End WorldInvariants.

Section WorldWitnesses.
Import Protocol WorldState Telemetry WorldSpec.

(** The delta [addThenRename] after a hello and a snapshot: the entry
    kept for it shares its button with the map, and shows it under the
    name "Pay", which the delta as sent did not carry. *)
Lemma deltaHistory_bounded_witness :
  let messages :=
    [(5, 5, helloFrom 1 "https://a/");
     (6, 6, snapshot (snapshotOf 1 "https://a/" [Sample.button "a_0" "Sign in" false]));
     (7, 7, delta Sample.scenarioDelta)] in
  (exists t, tabs (handleAll messages clearState) !! 1 = Some t
             /\ (List.length (deltaHistory t) <= 50)%nat)
  /\ (exists t',
        (handleDelta 8 addThenRename (handleAll messages clearState)).2 = Some t'
        /\ last (deltaHistory t')
           = Some {| sd_tabId := 1; sd_frameId := 0; sd_timestamp := 0;
                     sd_added := [inMap "a_5"];
                     sd_removed := [];
                     sd_updated := [rename "a_5" "Pay"] |}
        /\ shown (candidates t') (inMap "a_5")
           = Some (Sample.button "a_5" "Pay" false)).
Proof.
  intros messages.
  destruct (tabs (handleAll messages clearState) !! 1) as [t|] eqn:Ht;
    [|discriminate Ht].
  destruct (deltaHistory_bounded messages 1 t Ht) as (Hlen & _ & Hnewest).
  split; [by exists t|].
  destruct (Hnewest 8 addThenRename eq_refl) as (t' & Ht' & _ & Hlast & Hshown).
  exists t'. split; [exact Ht'|]. split; [exact Hlast|].
  exact (Hshown 0%nat (Sample.button "a_5" "Buy" false) eq_refl).
Defined.

(** What a kept delta shows follows the map: the entry kept for
    [addThenRename] shows its button under the name a later delta gives
    it, and keeps showing it so once the button has been removed. *)
Example kept_delta_follows_map :
  let messages :=
    [(6, 6, snapshot (snapshotOf 1 "https://a/" [Sample.button "a_0" "Sign in" false]));
     (7, 7, delta addThenRename);
     (8, 8, delta (update 1 [rename "a_5" "Checkout"]))] in
  let shownBy st :=
    (fun t => (fun kept => shown (candidates t) <$> sd_added kept)
                <$> deltaHistory t) <$> tabs st !! 1 in
  shownBy (handleAll messages clearState)
  = Some [[Some (Sample.button "a_5" "Checkout" false)]; []]
  /\ shownBy (handleAll (messages ++ [(9, 9, delta (removal 1 ["a_5"]))]) clearState)
     = Some [[Some (Sample.button "a_5" "Checkout" false)]; []; []]
  /\ getCandidates 1 (handleAll (messages ++ [(9, 9, delta (removal 1 ["a_5"]))])
                        clearState)
     = [Sample.button "a_0" "Sign in" false].
Proof. repeat split; vm_compute; reflexivity. Qed.

Lemma getCandidate_id_witness :
  let messages :=
    [(6, 6, snapshot (snapshotOf 1 "https://a/" [Sample.button "a_2" "Submit" false]));
     (7, 7, delta Sample.scenarioDelta)] in
  getCandidate 1 "a_2" (handleAll messages clearState)
  = Some (Sample.button "a_2" "Submit" true)
  /\ id (Sample.button "a_2" "Submit" true) = "a_2".
Proof.
  simpl.
  assert (Hget : getCandidate 1 "a_2"
                   (handleAll
                      [(6, 6, snapshot (snapshotOf 1 "https://a/"
                                          [Sample.button "a_2" "Submit" false]));
                       (7, 7, delta Sample.scenarioDelta)] clearState)
                 = Some (Sample.button "a_2" "Submit" true))
    by (vm_compute; reflexivity).
  split; [exact Hget|].
  exact (proj1 (getCandidate_id _ 1 "a_2" _ Hget)).
Defined.

Lemma handleTelemetry_other_tabs_witness :
  messageTabId (delta Sample.scenarioDelta) <> Some 2
  /\ tabs (handleTelemetry 7 7 (delta Sample.scenarioDelta)
             (handleTelemetry 5 5 (helloFrom 2 "https://b/") Sample.scenarioWorld))
       !! 2
     = tabs (handleTelemetry 5 5 (helloFrom 2 "https://b/") Sample.scenarioWorld) !! 2.
Proof.
  assert (Hne : messageTabId (delta Sample.scenarioDelta) <> Some 2) by discriminate.
  split; [exact Hne|].
  exact (proj1 (handleTelemetry_other_tabs 7 7 (delta Sample.scenarioDelta)
                  (handleTelemetry 5 5 (helloFrom 2 "https://b/") Sample.scenarioWorld)
                  2 Hne)).
Defined.

End WorldWitnesses.

(** ** World state: search, continued *)

Section SearchMore.
Import Protocol WorldState.

Lemma sublist_List_filter {A} (f : A -> bool) (l : list A) :
  sublist (List.filter f l) l.
Proof.
  induction l as [|a l IH]; simpl; [constructor|].
  destruct (f a); by constructor.
Qed.

Lemma List_filter_all {A} (f : A -> bool) (l : list A) :
  (forall a, f a = true) -> List.filter f l = l.
Proof.
  intros Hall. induction l as [|a l IH]; simpl; [done|]. by rewrite Hall, IH.
Qed.

(** X8. A search returns candidates of the tab in the order
    [getCandidates] has them; with an empty text and no filters it returns
    them all; and the controller's query without a search text returns
    them all whatever filters it carries. *)
Theorem search_returns_stored tab search filters st g :
  sublist (searchCandidates tab search filters st) (getCandidates tab st)
  /\ searchCandidates tab "" None st = getCandidates tab st
  /\ Server.handleQuery tab None filters g = getCandidates tab (Server.world g)
  /\ Server.handleQuery tab (Some "") filters g
     = getCandidates tab (Server.world g).
Proof.
  split; [apply sublist_List_filter|]. split; [|done].
  unfold searchCandidates. by apply List_filter_all.
Qed.

End SearchMore.

(** ** Watchers: the delta of two candidate sets *)

Section DeltaOfSets.
Import Protocol WorldState DeltaSpec Watchers WatchersSpec SyncSpec.

Lemma toMap_addedMap cs : toMap cs = addedMap cs.
Proof. reflexivity. Qed.

Lemma toMap_None cs k :
  toMap cs !! k = None <-> forall c, c ∈ cs -> id c <> k.
Proof.
  rewrite toMap_addedMap. split.
  - intros Hnone c Hin <-. apply addedMap_lookup_is_Some in Hin.
    rewrite Hnone in Hin. by destruct Hin.
  - intros Hall. destruct (addedMap cs !! k) as [c|] eqn:Hc; [|done].
    apply addedMap_lookup_Some in Hc as [Hin Hid]. by destruct (Hall c Hin).
Qed.

Lemma omap_pointwise {A B} (f g : A -> option B) (l : list A) :
  (forall a, f a = g a) -> omap f l = omap g l.
Proof.
  intros Heq. induction l as [|a l IH]; csimpl; [done|]. by rewrite Heq, IH.
Qed.

Lemma removed_computeDelta now previous current :
  removed (computeDelta now previous current)
  = omap (fun e : string * ActionCandidate =>
            match toMap current !! e.1 with
            | None => Some e.1
            | Some _ => None
            end) (map_to_list previous).
Proof. unfold computeDelta. by rewrite fold_compare. Qed.

Lemma updated_computeDelta now previous current :
  updated (computeDelta now previous current)
  = omap (fun e : string * ActionCandidate =>
            toMap current !! e.1 ≫= fun n =>
              if decide (differs e.2 n) then Some (entryFor e.1 e.2 n) else None)
      (map_to_list previous).
Proof.
  unfold computeDelta. rewrite fold_compare. simpl.
  apply omap_pointwise. intros e.
  destruct (toMap current !! e.1) as [n|]; simpl; [|done].
  by rewrite diffCandidate_entry.
Qed.

Lemma added_computeDelta now previous current :
  added (computeDelta now previous current)
  = List.filter (fun c => negb (bool_decide (is_Some (previous !! id c)))) current.
Proof. unfold computeDelta. by rewrite fold_compare. Qed.

Lemma elem_of_removed now previous current k :
  k ∈ removed (computeDelta now previous current) <->
  is_Some (previous !! k) /\ forall c, c ∈ current -> id c <> k.
Proof.
  rewrite removed_computeDelta, list_elem_of_omap, <- toMap_None. split.
  - intros ([i o] & Hin%elem_of_map_to_list & Hk). simpl in Hk.
    destruct (toMap current !! i) eqn:Hi; [done|]. injection Hk as <-. eauto.
  - intros [[o Ho] Hnone]. exists (k, o). split; [by apply elem_of_map_to_list|].
    simpl. by rewrite Hnone.
Qed.

Lemma elem_of_added now previous current c :
  c ∈ added (computeDelta now previous current) <->
  c ∈ current /\ previous !! id c = None.
Proof.
  rewrite added_computeDelta, list_elem_of_In, filter_In, <- list_elem_of_In.
  rewrite negb_true_iff, bool_decide_eq_false, <- eq_None_not_Some. done.
Qed.

(** X9. [computeDelta] lists as removed exactly the ids of the previous
    set that no current candidate has, and as added exactly the current
    candidates whose id the previous set does not have; so no id is both
    added and removed, and for the gateway "remove, then add" and
    "(prev ∪ added) \ removed" are the same map on every delta the
    watcher computes. *)
Theorem computeDelta_added_removed now previous current :
  (forall k, k ∈ removed (computeDelta now previous current) <->
             is_Some (previous !! k) /\ forall c, c ∈ current -> id c <> k)
  /\ (forall c, c ∈ added (computeDelta now previous current) <->
                c ∈ current /\ previous !! id c = None)
  /\ disjointIds (computeDelta now previous current)
  /\ (forall m, removeThenAdd m (computeDelta now previous current)
                = unionThenRemove m (computeDelta now previous current)).
Proof.
  split; [intros k; apply elem_of_removed|].
  split; [intros c; apply elem_of_added|].
  assert (Hdis : disjointIds (computeDelta now previous current)).
  { intros c [_ Hnew]%elem_of_added [[o Ho] _]%elem_of_removed. congruence. }
  split; [exact Hdis|]. intros m. by apply removeThenAdd_unionThenRemove.
Qed.

Lemma not_stateDiffers a b : ~ stateDiffers a b -> a = b.
Proof.
  unfold stateDiffers. destruct a as [d1 e1 c1 s1 f1], b as [d2 e2 c2 s2 f2].
  simpl. intros Hn.
  destruct (decide (d1 = d2)) as [->|]; [|tauto].
  destruct (decide (e1 = e2)) as [->|]; [|tauto].
  destruct (decide (c1 = c2)) as [->|]; [|tauto].
  destruct (decide (s1 = s2)) as [->|]; [|tauto].
  destruct (decide (f1 = f2)) as [->|]; [|tauto]. done.
Qed.

Lemma not_differs_iff o n :
  ~ differs o n <->
  ~ rectMoved (rect o) (rect n) /\ state o = state n /\ name o = name n
  /\ value o = value n /\ occluded o = occluded n
  /\ inModal (ctx o) = inModal (ctx n) /\ inNav (ctx o) = inNav (ctx n).
Proof.
  unfold differs, ctxDiffers. split.
  - intros Hn.
    destruct (decide (name o = name n)); [|tauto].
    destruct (decide (value o = value n)); [|tauto].
    destruct (decide (occluded o = occluded n)); [|tauto].
    destruct (decide (inModal (ctx o) = inModal (ctx n))); [|tauto].
    destruct (decide (inNav (ctx o) = inNav (ctx n))); [|tauto].
    repeat split; try done; [tauto|]. apply not_stateDiffers. tauto.
  - intros (Hr & Hs & Hname & Hv & Ho & Hm & Hnav) Hd.
    unfold stateDiffers in Hd. rewrite Hs in Hd. tauto.
Qed.

Lemma not_differs_self o : ~ differs o o.
Proof.
  apply not_differs_iff. repeat split; try done.
  unfold rectMoved. rewrite !Z.sub_diag. simpl. lia.
Qed.

Lemma computeDelta_empty now previous current :
  emptyDelta (computeDelta now previous current)
  <-> inStep previous (toMap current).
Proof.
  unfold emptyDelta, inStep. split.
  - intros (Ha & Hr & Hu) k.
    destruct (previous !! k) as [o|] eqn:Ho, (toMap current !! k) as [n|] eqn:Hn.
    + intros Hd.
      assert (Hin : entryFor k o n ∈ updated (computeDelta now previous current)).
      { apply elem_of_updated. by exists k, o, n. }
      rewrite Hu in Hin. by apply elem_of_nil in Hin.
    + assert (Hin : k ∈ removed (computeDelta now previous current)).
      { apply elem_of_removed. split; [by eexists|]. by apply toMap_None. }
      rewrite Hr in Hin. by apply elem_of_nil in Hin.
    + rewrite toMap_addedMap in Hn.
      apply addedMap_lookup_Some in Hn as [Hin Hid].
      assert (Hin' : n ∈ added (computeDelta now previous current)).
      { apply elem_of_added. split; [done|]. by rewrite Hid. }
      rewrite Ha in Hin'. by apply elem_of_nil in Hin'.
    + done.
  - intros Hstep. repeat split; apply elem_of_nil_inv.
    + intros c [Hin Hnew]%elem_of_added. specialize (Hstep (id c)).
      rewrite Hnew in Hstep. apply addedMap_lookup_is_Some in Hin as [n Hn].
      rewrite toMap_addedMap, Hn in Hstep. done.
    + intros k [[o Ho] Hnone]%elem_of_removed. specialize (Hstep k).
      apply toMap_None in Hnone. by rewrite Ho, Hnone in Hstep.
    + intros u (i & o & n & Ho & Hn & Hd & _)%elem_of_updated.
      specialize (Hstep i). by rewrite Ho, Hn in Hstep.
Qed.

(** X10. The delta of [computeDelta] is empty exactly when the previous
    and the current set hold the same ids and no pair of candidates under
    one id differs in a field the diff reports; in particular the delta
    of a set against itself is empty. *)
Theorem computeDelta_empty_iff now previous current :
  (emptyDelta (computeDelta now previous current)
   <-> inStep previous (toMap current))
  /\ emptyDelta (computeDelta now (toMap current) current).
Proof.
  split; [apply computeDelta_empty|].
  apply computeDelta_empty. intros k.
  destruct (toMap current !! k); [apply not_differs_self|done].
Qed.

End DeltaOfSets.

(** ** Gateway and watcher: a delta brings the gateway in step *)

Section InStep.
Import Protocol WorldState DeltaSpec Watchers WatchersSpec SyncSpec.

Lemma andThen_empty_r u : andThen u emptyUpdate = u.
Proof.
  destruct u. unfold andThen. simpl. f_equal; apply (left_id_L None (∪)).
Qed.

Lemma andThen_empty_l u : andThen emptyUpdate u = u.
Proof.
  destruct u. unfold andThen. simpl. f_equal; apply (right_id_L None (∪)).
Qed.

Lemma addedMap_cons c cs k :
  addedMap (c :: cs) !! k
  = addedMap cs !! k ∪ (if decide (id c = k) then Some c else None).
Proof.
  unfold addedMap at 1. simpl.
  fold (applyAdditions cs (<[id c:=c]> ∅)).
  rewrite applyAdditions_union, lookup_union. f_equal.
  destruct (decide (id c = k)) as [<-|Hne].
  - by rewrite lookup_insert_eq.
  - by rewrite lookup_insert_ne, lookup_empty.
Qed.

Lemma addedMap_filter (keep : string -> bool) cs k :
  addedMap (List.filter (fun c => keep (id c)) cs) !! k
  = if keep k then addedMap cs !! k else None.
Proof.
  induction cs as [|c cs IH]; simpl.
  - unfold addedMap. simpl. rewrite lookup_empty. by destruct (keep k).
  - destruct (keep (id c)) eqn:Hc.
    + rewrite !addedMap_cons, IH. destruct (keep k) eqn:Hk; [done|].
      destruct (decide (id c = k)) as [<-|]; [congruence|done].
    + rewrite addedMap_cons, IH. destruct (keep k) eqn:Hk; [|done].
      destruct (decide (id c = k)) as [<-|]; [congruence|].
      by rewrite (right_id_L None (∪)).
Qed.

Lemma updateFor_entryFor k i o n :
  updateFor k (entryFor i o n)
  = if String.eqb i "" then emptyUpdate
    else if String.eqb i k then entryFor i o n else emptyUpdate.
Proof. reflexivity. Qed.

Lemma fold_entries_other currentMap k (l : list (string * ActionCandidate)) acc :
  k ∉ l.*1 ->
  fold_left (fun a u => andThen a (updateFor k u)) (omap (entryOf currentMap) l) acc
  = acc.
Proof.
  revert acc. induction l as [|e l IH]; intros acc Hk; csimpl; [done|].
  rewrite fmap_cons, not_elem_of_cons in Hk. destruct Hk as [Hne Hk].
  destruct (entryOf currentMap e) as [u|] eqn:Hu; simpl; [|by apply IH].
  rewrite IH by done. unfold entryOf in Hu.
  destruct (currentMap !! e.1) as [n|]; simpl in Hu; [|done].
  destruct (decide (differs e.2 n)); [|done]. injection Hu as <-.
  rewrite updateFor_entryFor. destruct (String.eqb e.1 ""); [apply andThen_empty_r|].
  destruct (String.eqb_spec e.1 k); [congruence|apply andThen_empty_r].
Qed.

Lemma fold_entries_one currentMap k o (l : list (string * ActionCandidate)) acc :
  NoDup l.*1 -> (k, o) ∈ l ->
  fold_left (fun a u => andThen a (updateFor k u)) (omap (entryOf currentMap) l) acc
  = andThen acc (default emptyUpdate (updateFor k <$> entryOf currentMap (k, o))).
Proof.
  revert acc. induction l as [|e l IH]; intros acc Hnd Hin;
    [by apply elem_of_nil in Hin|].
  rewrite fmap_cons in Hnd. apply NoDup_cons in Hnd as [Hfresh Hnd]. csimpl.
  apply elem_of_cons in Hin as [<-|Hin].
  - simpl in Hfresh. destruct (entryOf currentMap (k, o)) as [u|]; simpl.
    + by rewrite fold_entries_other.
    + by rewrite fold_entries_other, andThen_empty_r.
  - assert (Hne : e.1 <> k).
    { intros Heq. apply Hfresh. rewrite Heq. apply list_elem_of_fmap. by exists (k, o). }
    destruct (entryOf currentMap e) as [u|] eqn:Hu; simpl; [|by apply IH].
    rewrite IH by done. f_equal. unfold entryOf in Hu.
    destruct (currentMap !! e.1) as [n|]; simpl in Hu; [|done].
    destruct (decide (differs e.2 n)); [|done]. injection Hu as <-.
    rewrite updateFor_entryFor. destruct (String.eqb e.1 ""); [apply andThen_empty_r|].
    destruct (String.eqb_spec e.1 k); [congruence|apply andThen_empty_r].
Qed.

Lemma updatesFor_computeDelta now previous current k :
  updatesFor k (updated (computeDelta now previous current))
  = match previous !! k with
    | Some o => default emptyUpdate (updateFor k <$> entryOf (toMap current) (k, o))
    | None => emptyUpdate
    end.
Proof.
  rewrite updated_computeDelta. unfold updatesFor.
  change (fun e : string * ActionCandidate =>
            toMap current !! e.1 ≫= fun n =>
              if decide (differs e.2 n) then Some (entryFor e.1 e.2 n) else None)
    with (entryOf (toMap current)).
  destruct (previous !! k) as [o|] eqn:Ho.
  - rewrite (fold_entries_one _ k o).
    + apply andThen_empty_l.
    + apply NoDup_fst_map_to_list.
    + by apply elem_of_map_to_list.
  - apply fold_entries_other. intros ([k' o] & Hk & Hin)%list_elem_of_fmap.
    simpl in Hk. subst k'. apply elem_of_map_to_list in Hin. congruence.
Qed.

Lemma assign_entryFor_in_step k o n : ~ differs (assign o (entryFor k o n)) n.
Proof.
  apply not_differs_iff. unfold entryFor, assign. simpl.
  destruct (decide (rectMoved (rect o) (rect n))) as [Hr|Hr],
    (decide (stateDiffers (state o) (state n))) as [Hs|Hs],
    (decide (name o <> name n)) as [Hn|Hn],
    (decide (value o <> value n)) as [Hv|Hv],
    (decide (occluded o <> occluded n)) as [Ho|Ho],
    (decide (ctxDiffers (ctx o) (ctx n))) as [Hc|Hc]; simpl.
  all: repeat split; try done.
  all: try (unfold rectMoved; rewrite !Z.sub_diag; simpl; lia).
  all: try (by apply not_stateDiffers).
  all: try (by destruct (decide (name o = name n)); [|destruct Hn]).
  all: try (by destruct (decide (value o = value n)); [|destruct Hv]).
  all: try (by destruct (decide (occluded o = occluded n)); [|destruct Ho]).
  all: try (by destruct (decide (inModal (ctx o) = inModal (ctx n)));
              [|destruct Hc; by left]).
  all: try (by destruct (decide (inNav (ctx o) = inNav (ctx n)));
              [|destruct Hc; by right]).
Qed.

Lemma fmap_omap {A B C} (f : B -> C) (g : A -> option B) (l : list A) :
  f <$> omap g l = omap (fun a => f <$> g a) l.
Proof.
  induction l as [|a l IH]; csimpl; [done|].
  destruct (g a); csimpl; by rewrite IH.
Qed.

Lemma updateFor_received k u :
  updateFor k (Wire.updateReceived u) = Wire.updateReceived (updateFor k u).
Proof.
  unfold updateFor. cbn [u_id Wire.updateReceived].
  destruct (u_id u) as [i|]; [|done].
  destruct (String.eqb i ""); [done|]. by destruct (String.eqb i k).
Qed.

Lemma received_entries_other currentMap k (l : list (string * ActionCandidate)) acc :
  k ∉ l.*1 ->
  fold_left (fun a u => andThen a (updateFor k u))
    (Wire.updateReceived <$> omap (entryOf currentMap) l) acc
  = acc.
Proof.
  rewrite fmap_omap.
  revert acc. induction l as [|e l IH]; intros acc Hk; csimpl; [done|].
  rewrite fmap_cons, not_elem_of_cons in Hk. destruct Hk as [Hne Hk].
  destruct (entryOf currentMap e) as [u|] eqn:Hu; csimpl; [|by apply IH].
  rewrite IH by done. unfold entryOf in Hu.
  destruct (currentMap !! e.1) as [n|]; simpl in Hu; [|done].
  destruct (decide (differs e.2 n)); [|done]. injection Hu as <-.
  rewrite updateFor_received, updateFor_entryFor.
  destruct (String.eqb e.1 ""); [apply andThen_empty_r|].
  destruct (String.eqb_spec e.1 k); [congruence|apply andThen_empty_r].
Qed.

Lemma received_entries_one currentMap k o (l : list (string * ActionCandidate)) acc :
  NoDup l.*1 -> (k, o) ∈ l ->
  fold_left (fun a u => andThen a (updateFor k u))
    (Wire.updateReceived <$> omap (entryOf currentMap) l) acc
  = andThen acc
      (Wire.updateReceived
         (default emptyUpdate (updateFor k <$> entryOf currentMap (k, o)))).
Proof.
  revert acc. induction l as [|e l IH]; intros acc Hnd Hin;
    [by apply elem_of_nil in Hin|].
  rewrite fmap_cons in Hnd. apply NoDup_cons in Hnd as [Hfresh Hnd]. csimpl.
  apply elem_of_cons in Hin as [<-|Hin].
  - simpl in Hfresh. destruct (entryOf currentMap (k, o)) as [u|]; csimpl.
    + by rewrite received_entries_other, updateFor_received.
    + by rewrite received_entries_other, andThen_empty_r.
  - assert (Hne : e.1 <> k).
    { intros Heq. apply Hfresh. rewrite Heq. apply list_elem_of_fmap. by exists (k, o). }
    destruct (entryOf currentMap e) as [u|] eqn:Hu; csimpl; [|by apply IH].
    rewrite IH by done. f_equal. unfold entryOf in Hu.
    destruct (currentMap !! e.1) as [n|]; simpl in Hu; [|done].
    destruct (decide (differs e.2 n)); [|done]. injection Hu as <-.
    rewrite updateFor_received, updateFor_entryFor.
    destruct (String.eqb e.1 ""); [apply andThen_empty_r|].
    destruct (String.eqb_spec e.1 k); [congruence|apply andThen_empty_r].
Qed.

(** The updates of a computed delta that concern [k], as the gateway
    parses them: the one entry of the delta for [k], without the keys
    that hold [undefined]. *)
Lemma updatesFor_received now previous current k :
  updatesFor k (Wire.updateReceived <$> updated (computeDelta now previous current))
  = Wire.updateReceived (updatesFor k (updated (computeDelta now previous current))).
Proof.
  rewrite updatesFor_computeDelta, updated_computeDelta. unfold updatesFor.
  change (fun e : string * ActionCandidate =>
            toMap current !! e.1 ≫= fun n =>
              if decide (differs e.2 n) then Some (entryFor e.1 e.2 n) else None)
    with (entryOf (toMap current)).
  destruct (previous !! k) as [o|] eqn:Ho.
  - rewrite (received_entries_one _ k o).
    + apply andThen_empty_l.
    + apply NoDup_fst_map_to_list.
    + by apply elem_of_map_to_list.
  - apply received_entries_other. intros ([k' o] & Hk & Hin)%list_elem_of_fmap.
    simpl in Hk. subst k'. apply elem_of_map_to_list in Hin. congruence.
Qed.

(** The gateway's map after a computed delta has come over the wire,
    whatever the map held. *)
Lemma lookup_after_received now now' tab frame previous current t k :
  previous !! "" = None ->
  candidates (applyDelta now'
                (Wire.deltaReceived tab frame (computeDelta now previous current)) t)
    !! k
  = match previous !! k, toMap current !! k with
    | Some o, Some n =>
        (fun g => if decide (differs o n)
                  then assign g (Wire.updateReceived (entryFor k o n))
                  else g)
          <$> candidates t !! k
    | Some _, None => None
    | None, Some n => Some n
    | None, None => candidates t !! k
    end.
Proof.
  intros Hempty. rewrite lookup_applyDelta.
  cbn [Wire.deltaReceived added removed updated].
  rewrite updatesFor_received, updatesFor_computeDelta, added_computeDelta.
  pose proof (addedMap_filter
                (fun i => negb (bool_decide (is_Some (previous !! i)))) current k)
    as Hadded.
  cbv beta in Hadded. rewrite Hadded. clear Hadded.
  destruct (previous !! k) as [o|] eqn:Ho.
  - rewrite bool_decide_eq_true_2 by (by eexists). simpl.
    rewrite (left_id_L None (∪)).
    destruct (toMap current !! k) as [n|] eqn:Hn.
    + destruct (decide (k ∈ _)) as [[_ Hgone]%elem_of_removed|_].
      { apply toMap_None in Hgone. congruence. }
      destruct (candidates t !! k) as [g|]; simpl; [|done]. f_equal.
      unfold entryOf. simpl. rewrite Hn. simpl.
      destruct (decide (differs o n)); simpl; [|apply assign_emptyUpdate].
      rewrite updateFor_entryFor.
      destruct (String.eqb_spec k "") as [->|_]; [congruence|].
      by rewrite String.eqb_refl.
    + destruct (decide (k ∈ _)) as [_|Hout]; [done|].
      destruct Hout. apply elem_of_removed. split; [by eexists|].
      by apply toMap_None.
  - rewrite bool_decide_eq_false_2 by (by intros [? ?]). simpl.
    rewrite <- toMap_addedMap.
    destruct (decide (k ∈ _)) as [[[? ?] _]%elem_of_removed|_]; [congruence|].
    destruct (toMap current !! k) as [n|]; simpl.
    + destruct (candidates t !! k); simpl; by rewrite assign_emptyUpdate.
    + rewrite (left_id_L None (∪)).
      destruct (candidates t !! k); simpl; by rewrite ?assign_emptyUpdate.
Qed.

(** Over the wire an entry loses nothing unless the value has been
    cleared. *)
Lemma entryFor_received k o n :
  (value n = None -> value o = None) ->
  Wire.updateReceived (entryFor k o n) = entryFor k o n.
Proof.
  intros Hkept. unfold Wire.updateReceived, entryFor. simpl. f_equal.
  destruct (decide (value o <> value n)) as [Hne|]; [|done]. simpl.
  destruct (value n) as [v|]; [done|]. destruct Hne. by rewrite Hkept.
Qed.

Lemma not_differsBesidesValue_self c : ~ differsBesidesValue c c.
Proof.
  intros Hd. apply (not_differs_self c). unfold differs.
  unfold differsBesidesValue in Hd. tauto.
Qed.

(** An entry that has come over the wire brings every field the diff
    reports in step, but for a value that has been cleared. *)
Lemma assign_received_in_step k o n :
  let g := assign o (Wire.updateReceived (entryFor k o n)) in
  ~ differsBesidesValue g n
  /\ value g = match value n with None => value o | Some _ => value n end.
Proof.
  intros g. split.
  - intros Hd. apply (assign_entryFor_in_step k o n).
    unfold differs. unfold differsBesidesValue in Hd. simpl in *. tauto.
  - unfold g, assign, Wire.updateReceived, entryFor. simpl.
    destruct (decide (value o <> value n)) as [Hne|Heq%dec_stable]; simpl.
    + by destruct (value n).
    + rewrite Heq. by destruct (value n).
Qed.

(** X11. When the gateway's copy of a tab is the watcher's previous set,
    with no candidate under the empty id, handling the delta of
    [computeDelta] as it comes over the wire leaves the copy with the
    ids of the current set, a candidate new to the gateway stored as it
    is, and no candidate differing from the current one in a field the
    diff reports other than the value. The value is the current one too,
    unless the page has cleared it: the entry's [value: undefined] does
    not survive [JSON.stringify], and the gateway keeps the previous
    value. When no value has been cleared, the copy is in step with the
    current set and the next delta against it is empty. *)
Theorem computed_delta_brings_in_step now now' now'' tab frame previous current t :
  previous !! "" = None ->
  candidates t = previous ->
  let t' := applyDelta now'
              (Wire.deltaReceived tab frame (computeDelta now previous current)) t in
  inStepButCleared previous (candidates t') (toMap current)
  /\ (forall k, previous !! k = None ->
                candidates t' !! k = toMap current !! k)
  /\ (noValueCleared previous (toMap current) ->
      inStep (candidates t') (toMap current)
      /\ emptyDelta (computeDelta now'' (candidates t') current)).
Proof.
  intros Hempty Ht t'.
  assert (Hlookup : forall k,
             candidates t' !! k
             = match previous !! k, toMap current !! k with
               | Some o, Some n =>
                   Some (if decide (differs o n)
                         then assign o (Wire.updateReceived (entryFor k o n))
                         else o)
               | Some _, None => None
               | None, new => new
               end).
  { intros k. unfold t'. rewrite lookup_after_received, Ht by done.
    destruct (previous !! k) as [o|], (toMap current !! k) as [n|]; done. }
  split; [|split].
  - intros k. rewrite Hlookup.
    destruct (previous !! k) as [o|] eqn:Ho, (toMap current !! k) as [n|];
      try done.
    + destruct (decide (differs o n)) as [Hd|Hd].
      * destruct (assign_received_in_step k o n) as [Hbesides Hvalue].
        split; [exact Hbesides|]. rewrite Hvalue. by destruct (value n).
      * apply not_differs_iff in Hd as (? & ? & ? & Hvalue & ? & ? & ?).
        split; [|rewrite Hvalue; by destruct (value n)].
        unfold differsBesidesValue, stateDiffers, ctxDiffers.
        intros [?|[Hs|[?|[?|Hc]]]]; try done.
        -- replace (state o) with (state n) in Hs. tauto.
        -- tauto.
    + split; [apply not_differsBesidesValue_self|by destruct (value n)].
  - intros k Hk. by rewrite Hlookup, Hk.
  - intros Hkept.
    assert (Hstep : inStep (candidates t') (toMap current)).
    { intros k. rewrite Hlookup.
      destruct (previous !! k) as [o|] eqn:Ho, (toMap current !! k) as [n|] eqn:Hn;
        try done.
      - destruct (decide (differs o n)); [|done].
        rewrite entryFor_received by (by apply (Hkept k)).
        apply assign_entryFor_in_step.
      - apply not_differs_self. }
    split; [exact Hstep|]. by apply computeDelta_empty.
Qed.

Lemma computed_delta_brings_in_step_witness :
  let previous := toMap [Sample.button "a_0" "Sign in" false;
                         Sample.button "a_2" "Submit" false] in
  let current := [Sample.button "a_1" "Register" false;
                  Sample.button "a_2" "Submit" true] in
  let t := Sample.tabWith "https://a/"
             [Sample.button "a_0" "Sign in" false;
              Sample.button "a_2" "Submit" false] in
  let t' := applyDelta 8 (Wire.deltaReceived 1 0 (computeDelta 7 previous current)) t in
  (previous !! "" = None /\ candidates t = previous)
  /\ inStepButCleared previous (candidates t') (toMap current)
  /\ candidates t' !! "a_1" = Some (Sample.button "a_1" "Register" false).
Proof.
  intros previous current t t'. split; [split; reflexivity|].
  destruct (computed_delta_brings_in_step 7 8 9 1 0 previous current t
              eq_refl eq_refl) as (Hstep & Hnew & _).
  split; [exact Hstep|]. exact (Hnew "a_1" eq_refl).
Defined.

(** A text field that held "abc" and has been emptied: the entry the
    watcher computes carries [value: undefined], which is lost on the
    wire. The gateway goes on holding "abc", and the watcher's next
    delta, computed against the set the watcher keeps, is empty. *)
Example cleared_value_stays :
  let previous := toMap [Sample.textField "a_3" (Some "abc")] in
  let current := [Sample.textField "a_3" None] in
  let t := Sample.tabWith "https://a/" [Sample.textField "a_3" (Some "abc")] in
  let sent := computeDelta 7 previous current in
  let t' := applyDelta 8 (Wire.deltaReceived 1 0 sent) t in
  (u_value <$> updated sent = [Some None]
   /\ u_value <$> updated (Wire.deltaReceived 1 0 sent) = [None])
  /\ candidates t' !! "a_3" = Some (Sample.textField "a_3" (Some "abc"))
  /\ emptyDelta (computeDelta 9 (toMap current) current).
Proof. repeat split; vm_compute; reflexivity. Qed.

End InStep.

(** ** The update loop of the watcher and the gateway's copy *)

Section WatcherRuns.
Import Protocol WorldState DeltaSpec Watchers WatchersSpec SyncSpec.
Import Telemetry Watching WatchingSpec.











Section OneTab.

Variables (tab frame : Z) (clock : ActionMapDelta -> Z).





End OneTab.

End WatcherRuns.

Section WatcherExamples.
Import Protocol WorldState Telemetry Watchers Watching WatchingSpec.




(** A snapshot asked for while a change is pending: the button [a_9] is
    on the page when the snapshot is taken and gone again when the
    timeout of the update loop fires. The watcher has never seen it and
    sends no delta; the gateway goes on holding it. *)
Example snapshot_request_out_of_step :
  let first := [Sample.button "a_0" "Sign in" false] in
  let between := [Sample.button "a_0" "Sign in" false;
                  Sample.button "a_9" "Accept" false] in
  let events :=
    [Session.Watched Changed;
     Session.SnapshotRequested 3 4 (WorldSpec.snapshotOf 0 "https://a/" between);
     Session.Watched (TimeoutFires 0%nat 7 first)] in
  let s := Session.run 1 0 d_timestamp events
             (Session.connect 1 1 2 (WorldSpec.snapshotOf 0 "https://a/" [])
                first idle clearState) in
  emitted (Session.watcher s) = []
  /\ previousCandidates (Session.watcher s) !! "a_9" = None
  /\ getCandidate 1 "a_9" (Session.gateway s)
     = Some (Sample.button "a_9" "Accept" false).
Proof. repeat split; vm_compute; reflexivity. Qed.

End WatcherExamples.

(** ** Debouncing *)

Section Debounce.
Import Protocol Watchers Watching WatchingSpec.

Lemma scheduleUpdate_pending w : pendingUpdate w = true -> scheduleUpdate w = w.
Proof. intros Hp. unfold scheduleUpdate. by rewrite Hp. Qed.

Lemma run_Changed_pending n w :
  pendingUpdate w = true -> run (replicate n Changed) w = w.
Proof.
  intros Hp. induction n as [|n IH]; [done|]. simpl.
  by rewrite scheduleUpdate_pending.
Qed.

(** X13. However many changes the observers report before the timeout
    fires, one timeout is armed and [processPendingUpdate] runs once: it
    compares the page as it is when the timeout fires with the previous
    set, and calls the callback only with a delta that carries
    something. The same timeout does not fire twice. *)
Theorem changes_coalesce w n now page :
  pendingUpdate w = false ->
  deltaCallback w = true ->
  let w1 := run (replicate (S n) Changed) w in
  let w2 := fireTimeout (nextTimeout w) now page w1 in
  let d := computeDelta now (previousCandidates w) page in
  w1 = scheduleUpdate w
  /\ updateTimeout w1 = Some (nextTimeout w)
  /\ previousCandidates w2 = toMap page
  /\ pendingUpdate w2 = false
  /\ emitted w2
     = emitted w ++ (if decide (SyncSpec.emptyDelta d) then [] else [d])
  /\ forall now' page', fireTimeout (nextTimeout w) now' page' w2 = w2.
Proof.
  intros Hp Hcb w1 w2 d.
  assert (H1 : w1 = scheduleUpdate w).
  { unfold w1. simpl. apply run_Changed_pending. unfold scheduleUpdate.
    by rewrite Hp. }
  assert (Hin : nextTimeout w ∈ armed w1).
  { rewrite H1. unfold scheduleUpdate. rewrite Hp. simpl. set_solver. }
  split; [exact H1|]. split; [rewrite H1; unfold scheduleUpdate; by rewrite Hp|].
  unfold w2, fireTimeout. destruct (decide (nextTimeout w ∈ armed w1)); [|done].
  rewrite H1. unfold scheduleUpdate. rewrite Hp. unfold processPendingUpdate.
  simpl. rewrite Hcb. simpl. fold d. split; [done|]. split; [done|]. split.
  - destruct (decide (SyncSpec.emptyDelta d)) as [(Ha & Hr & Hu)|Hne].
    + rewrite Ha, Hr, Hu. simpl. by rewrite app_nil_r.
    + destruct (added d) eqn:Ha, (removed d) eqn:Hr, (updated d) eqn:Hu;
        simpl; try done.
      destruct Hne. by repeat split.
  - intros now' page'.
    destruct (decide (nextTimeout w ∈ _)) as [Hin'|]; [|done].
    simpl in Hin'. apply elem_of_difference in Hin' as [_ Hout].
    destruct Hout. by apply elem_of_singleton.
Qed.

Lemma changes_coalesce_witness :
  let page := [Sample.button "a_1" "Register" false] in
  let w := (startWatching [] idle).1 in
  (pendingUpdate w = false /\ deltaCallback w = true)
  /\ run [Changed; Changed; Changed] w = scheduleUpdate w
  /\ emitted (fireTimeout 0%nat 7 page (run [Changed; Changed; Changed] w))
     = [computeDelta 7 ∅ page].
Proof.
  intros page w. split; [by split|].
  destruct (changes_coalesce w 2 7 page eq_refl eq_refl)
    as (H1 & _ & _ & _ & He & _).
  split; [exact H1|]. exact He.
Defined.

(** X14. [stopWatching] clears the timeout and leaves [pendingUpdate] as
    it is. A watcher that is stopped while an update is pending and
    started again schedules nothing from then on: [scheduleUpdate]
    returns at once and arms no timeout, however many changes are
    reported, until [forceUpdate] runs [processPendingUpdate]. *)
Theorem restart_keeps_pendingUpdate w page :
  isWatching w = true ->
  pendingUpdate w = true ->
  let w' := (startWatching page w).1 in
  w' = (startWatching page (stopWatching w)).1
  /\ pendingUpdate w' = true
  /\ updateTimeout w' = None
  /\ armed w' = clearTimeout (updateTimeout w) (armed w)
  /\ (forall n, run (replicate n Changed) w' = w')
  /\ (forall now page', pendingUpdate (forceUpdate now page' w') = false).
Proof.
  intros Hw Hp w'. unfold w', startWatching. rewrite Hw. simpl.
  repeat split; try done.
  intros n. by apply run_Changed_pending.
Qed.

Lemma restart_keeps_pendingUpdate_witness :
  let w := scheduleUpdate (startWatching [] idle).1 in
  (isWatching w = true /\ pendingUpdate w = true)
  /\ run [Changed; Changed] (startWatching [] w).1 = (startWatching [] w).1
  /\ armed (startWatching [] w).1 = clearTimeout (Some 0%nat) ({[0%nat]} ∪ ∅).
Proof.
  intros w. split; [by split|].
  destruct (restart_keeps_pendingUpdate w [] eq_refl eq_refl)
    as (_ & _ & _ & Ha & Hrun & _).
  split; [exact (Hrun 2%nat)|]. exact Ha.
Defined.

End Debounce.

(** ** Policy: the budget of a session *)

Section RateBudget.
Import Command Policy PolicySpec PolicyState RateSpec.

Lemma filter_length_le {A} (f g : A -> bool) (l : list A) :
  (forall a, f a = true -> g a = true) ->
  (List.length (List.filter f l) <= List.length (List.filter g l))%nat.
Proof.
  intros Hfg. induction l as [|a l IH]; simpl; [done|].
  destruct (f a) eqn:Hf.
  - rewrite (Hfg a Hf). simpl. lia.
  - destruct (g a); simpl; lia.
Qed.

Lemma filter_length_suffix {A} (f : A -> bool) (dropped l : list A) :
  (List.length (List.filter f l)
   <= List.length (List.filter f (dropped ++ l)))%nat.
Proof. rewrite List.filter_app, length_app. lia. Qed.

Lemma withinBudget_suffix config dropped h :
  withinBudget config (dropped ++ h) -> withinBudget config h.
Proof.
  intros [Hlen Hsec]. split.
  - rewrite length_app in Hlen. lia.
  - intros T. specialize (Hsec T). unfold inSecond in *.
    pose proof (filter_length_suffix
                  (fun t => (T - 1000 <? t) && (t <=? T)) dropped h).
    lia.
Qed.

Variable hostname : string -> option string.

(** An allowed command found room under both limits. *)
Lemma checkCommand_allowed_room config now recNow command tabUrl elementName h :
  allowed (checkCommand hostname config now recNow command tabUrl elementName h).1
  = true ->
  Z.of_nat (List.length (dropOld (now - 60000) h)) < maxCommandsPerMinute config
  /\ Z.of_nat (List.length
                 (List.filter (fun t => t >? now - 1000) (dropOld (now - 60000) h)))
     < maxCommandsPerSecond config.
Proof.
  unfold checkCommand.
  destruct (JsString.truthy tabUrl && _); [done|].
  unfold checkRateLimits.
  destruct (Z.geb_spec (Z.of_nat (List.length (dropOld (now - 60000) h)))
              (maxCommandsPerMinute config)) as [|Hmin]; [done|].
  destruct (Z.geb_spec
              (Z.of_nat (List.length
                 (List.filter (fun t => t >? now - 1000) (dropOld (now - 60000) h))))
              (maxCommandsPerSecond config)) as [|Hsec]; [done|].
  done.
Qed.

Lemma withinBudget_checkCommand config now recNow command tabUrl elementName h :
  now <= recNow ->
  withinBudget config h ->
  withinBudget config
    (checkCommand hostname config now recNow command tabUrl elementName h).2.
Proof.
  intros Hclock Hb.
  pose proof (checkCommand_history hostname config now recNow command tabUrl
                elementName h) as [Hok Hno].
  pose proof (checkCommand_allowed_room config now recNow command tabUrl
                elementName h) as Hroom.
  simpl in Hok, Hno.
  destruct (allowed (checkCommand hostname config now recNow command tabUrl
                       elementName h).1).
  - rewrite (Hok eq_refl). destruct (Hroom eq_refl) as [Hmin Hsec].
    destruct (dropOld_split (now - 60000) h) as (dropped & Hh & _).
    assert (Hkept : withinBudget config (dropOld (now - 60000) h)).
    { apply (withinBudget_suffix config dropped). by rewrite <- Hh. }
    destruct Hkept as [_ Hkept]. split.
    + rewrite length_app. simpl. lia.
    + intros T. unfold inSecond. rewrite List.filter_app, length_app. simpl.
      destruct (Z.ltb_spec (T - 1000) recNow) as [Hlo|Hlo]; simpl;
        [destruct (Z.leb_spec recNow T) as [Hhi|Hhi]; simpl|].
      * pose proof (filter_length_le
                      (fun t => (T - 1000 <? t) && (t <=? T))
                      (fun t => t >? now - 1000)
                      (dropOld (now - 60000) h)) as Hle.
        assert (forall a, (T - 1000 <? a) && (a <=? T) = true
                          -> (a >? now - 1000) = true) as Himp.
        { intros a [Ha _]%andb_true_iff. apply Z.ltb_lt in Ha.
          apply Z.gtb_lt. lia. }
        specialize (Hle Himp). lia.
      * specialize (Hkept T). unfold inSecond in Hkept. lia.
      * specialize (Hkept T). unfold inSecond in Hkept. lia.
  - destruct (Hno eq_refl) as (dropped & Hh).
    apply (withinBudget_suffix config dropped). by rewrite <- Hh.
Qed.

(** X15. In a session that starts with an empty history and keeps one
    configuration, with limits that are not negative and a clock that
    does not run backwards between the check and the recording of a
    command, the history never holds more than [maxCommandsPerMinute]
    timestamps, and no interval of one second, wherever it lies, holds
    more than [maxCommandsPerSecond] of them. *)
Theorem rate_budget_kept config calls :
  0 <= maxCommandsPerSecond config ->
  0 <= maxCommandsPerMinute config ->
  (forall c, c ∈ calls -> c_now c <= c_recNow c) ->
  let h := checkAll hostname config calls [] in
  Z.of_nat (List.length h) <= maxCommandsPerMinute config
  /\ forall T, inSecond T h <= maxCommandsPerSecond config.
Proof.
  intros Hsec Hmin Hclock. unfold checkAll.
  assert (Hstart : withinBudget config []) by (by split).
  revert Hstart. generalize (@nil Z) as h.
  induction calls as [|c calls IH]; intros h Hb; [exact Hb|]. simpl.
  apply IH.
  - intros c' Hin. apply Hclock. by right.
  - apply withinBudget_checkCommand; [|done]. apply Hclock. by left.
Qed.

(** X16. [getRateLimitStatus] counts the last second as the check does,
    and the last minute without the timestamp that lies exactly 60000 ms
    back: whenever [checkRateLimits] allows a command, the status read at
    the same time reports room under both limits; on a history in
    ascending order without a timestamp exactly 60000 ms back, the check
    allows a command exactly when the status reports room under both. *)
Theorem rate_status_agrees config now h :
  let status := getRateLimitStatus config now h in
  let verdict := (checkRateLimits config now h).1 in
  commandsLastSecond status = lastSecond now h
  /\ (allowed verdict = true ->
      0 < remainingPerSecond status /\ 0 < remainingPerMinute status)
  /\ (StronglySorted Z.le h -> now - 60000 ∉ h ->
      (allowed verdict = true <->
       0 < remainingPerSecond status /\ 0 < remainingPerMinute status)).
Proof.
  simpl.
  assert (Hsec : List.filter (fun t => t >? now - 1000) h
                 = List.filter (fun t => now - 1000 <? t) h).
  { apply List.filter_ext. intros t. apply Z.gtb_ltb. }
  assert (Hminute : (List.length (List.filter (fun t => t >? now - 60000) h)
                     <= List.length (dropOld (now - 60000) h))%nat).
  { destruct (dropOld_split (now - 60000) h) as (dropped & Hh & Hold).
    rewrite Hh at 1. rewrite List.filter_app, length_app.
    rewrite (filter_none _ dropped).
    - simpl. apply List.filter_length_le.
    - eapply Forall_impl; [exact Hold|]. intros t Ht. simpl in Ht.
      rewrite Z.gtb_ltb. apply Z.ltb_ge. lia. }
  split; [unfold lastSecond; by rewrite Hsec|].
  rewrite checkRateLimits_cases. simpl. rewrite Hsec. fold (lastSecond now h).
  split.
  - destruct (Z.geb_spec (Z.of_nat (List.length (dropOld (now - 60000) h)))
                (maxCommandsPerMinute config)); [done|].
    destruct (Z.geb_spec (lastSecond now h) (maxCommandsPerSecond config));
      [done|].
    intros _. lia.
  - intros Hsorted Hedge.
    assert (Hsame : List.length (List.filter (fun t => t >? now - 60000) h)
                    = List.length (dropOld (now - 60000) h)).
    { destruct (dropOld_split (now - 60000) h) as (dropped & Hh & Hold).
      rewrite Hh at 1. rewrite List.filter_app, length_app.
      rewrite (filter_none _ dropped).
      - simpl. f_equal. apply forallb_filter_id. apply forallb_forall.
        intros t Hin. apply Z.gtb_lt.
        assert (Hge : now - 60000 <= t).
        { rewrite (dropOld_sorted (now - 60000) h Hsorted) in Hin.
          apply filter_In in Hin as [_ Hge]. by apply Z.leb_le. }
        assert (t <> now - 60000).
        { intros ->. apply Hedge. rewrite Hh. apply elem_of_app. right.
          by apply list_elem_of_In. }
        lia.
      - eapply Forall_impl; [exact Hold|]. intros t Ht. simpl in Ht.
        rewrite Z.gtb_ltb. apply Z.ltb_ge. lia. }
    rewrite Hsame.
    destruct (Z.geb_spec (Z.of_nat (List.length (dropOld (now - 60000) h)))
                (maxCommandsPerMinute config)); simpl.
    + split; [done|]. lia.
    + destruct (Z.geb_spec (lastSecond now h) (maxCommandsPerSecond config));
        simpl.
      * split; [done|]. lia.
      * split; [lia|done].
Qed.

End RateBudget.

Section RateBudgetExamples.
Import Command Policy PolicySpec RateSpec.

Lemma rate_budget_kept_witness :
  let calls := [callAt 0 (hoverOver "a_0"); callAt 400 (hoverOver "a_0");
                callAt 1500 (hoverOver "a_0")] in
  (0 <= maxCommandsPerSecond onePerSecond
   /\ 0 <= maxCommandsPerMinute onePerSecond
   /\ forall c, c ∈ calls -> c_now c <= c_recNow c)
  /\ checkAll schemeHost onePerSecond calls [] = [0; 1500]
  /\ forall T, inSecond T (checkAll schemeHost onePerSecond calls []) <= 1.
Proof.
  intros calls.
  assert (Hclock : forall c, c ∈ calls -> c_now c <= c_recNow c).
  { intros c Hc. repeat (apply elem_of_cons in Hc as [->|Hc]; [done|]).
    by apply elem_of_nil in Hc. }
  split; [repeat split; [done..|exact Hclock]|].
  split; [reflexivity|].
  apply (rate_budget_kept schemeHost onePerSecond calls); [done..|exact Hclock].
Defined.

End RateBudgetExamples.

(** ** Policy: domains and their subdomains *)

Section DomainClosure.
Import Command Policy PolicySpec.

Lemma toLowerCase_app s1 s2 :
  JsString.toLowerCase (s1 +:+ s2)
  = JsString.toLowerCase s1 +:+ JsString.toLowerCase s2.
Proof.
  induction s1 as [|c s1 IH]; [by rewrite !append_empty|].
  rewrite append_cons. simpl. by rewrite append_cons, IH.
Qed.

Lemma append_assoc_string (s1 s2 s3 : string) :
  (s1 +:+ s2) +:+ s3 = s1 +:+ (s2 +:+ s3).
Proof.
  induction s1 as [|c s1 IH]; [by rewrite !append_empty|].
  by rewrite !append_cons, IH.
Qed.

Lemma hostMatches_subdomain host sub d :
  hostMatches host d -> hostMatches (sub +:+ "." +:+ host) d.
Proof.
  intros Hm. right. rewrite !toLowerCase_app.
  change (JsString.toLowerCase ".") with ".".
  destruct Hm as [->|[s ->]].
  - by exists (JsString.toLowerCase sub).
  - exists (JsString.toLowerCase sub +:+ "." +:+ s).
    by rewrite !append_assoc_string.
Qed.

Lemma hostMatches_case host host' d d' :
  JsString.toLowerCase host' = JsString.toLowerCase host ->
  JsString.toLowerCase d' = JsString.toLowerCase d ->
  hostMatches host d -> hostMatches host' d'.
Proof. unfold hostMatches. by intros -> ->. Qed.

Variable hostname : string -> option string.

(** X17. The verdict on a domain extends to its subdomains, at every
    depth: when a url passes an allowlist, so does every url whose host
    is a subdomain of its host; when a url is denied by a blocklist, so
    is every url of a subdomain. The comparison ignores the case of the
    host: two hosts that differ in case only get the same verdict. *)
Theorem domain_verdict_closed config url url' url'' host sub host'' :
  hostname url = Some host ->
  hostname url' = Some (sub +:+ "." +:+ host) ->
  hostname url'' = Some host'' ->
  JsString.toLowerCase host'' = JsString.toLowerCase host ->
  (domainMode config = allowlist ->
   isDomainAllowed hostname config url = true ->
   isDomainAllowed hostname config url' = true)
  /\ (domainMode config = blocklist ->
      isDomainAllowed hostname config url = false ->
      isDomainAllowed hostname config url' = false)
  /\ isDomainAllowed hostname config url''
     = isDomainAllowed hostname config url.
Proof.
  intros Hurl Hurl' Hurl'' Hcase.
  assert (Hsub : listed config host -> listed config (sub +:+ "." +:+ host)).
  { intros (d & Hin & Hm). exists d. split; [done|].
    by apply hostMatches_subdomain. }
  split; [|split].
  - intros Hmode Hok.
    apply (isDomainAllowed_allowlist hostname config url' _ Hmode Hurl').
    apply Hsub.
    by apply (isDomainAllowed_allowlist hostname config url host Hmode Hurl).
  - intros Hmode Hno.
    apply not_true_is_false. intros Hok.
    apply (isDomainAllowed_blocklist hostname config url' _ Hmode Hurl') in Hok.
    assert (Hnl : ~ listed config host) by (intros Hl; by apply Hok, Hsub).
    apply (isDomainAllowed_blocklist hostname config url host Hmode Hurl) in Hnl.
    congruence.
  - unfold isDomainAllowed. by rewrite Hurl, Hurl'', Hcase.
Qed.

End DomainClosure.

Section DomainClosureExamples.
Import Command Policy PolicySpec.

Lemma domain_verdict_closed_witness :
  (schemeHost "https://example.com/" = Some "example.com"
   /\ schemeHost "https://a.b.example.com/x" = Some ("a.b" +:+ "." +:+ "example.com")
   /\ schemeHost "https://EXAMPLE.com/" = Some "EXAMPLE.com"
   /\ JsString.toLowerCase "EXAMPLE.com" = JsString.toLowerCase "example.com")
  /\ isDomainAllowed schemeHost (allowOnly ["Example.com"]) "https://a.b.example.com/x"
     = true
  /\ isDomainAllowed schemeHost (allowOnly ["Example.com"]) "https://EXAMPLE.com/"
     = isDomainAllowed schemeHost (allowOnly ["Example.com"]) "https://example.com/".
Proof.
  split; [repeat split; reflexivity|].
  destruct (domain_verdict_closed schemeHost (allowOnly ["Example.com"])
              "https://example.com/" "https://a.b.example.com/x"
              "https://EXAMPLE.com/" "example.com" "a.b" "EXAMPLE.com"
              eq_refl eq_refl eq_refl eq_refl) as (Hallow & _ & Hcase).
  split; [apply Hallow; reflexivity|exact Hcase].
Defined.

End DomainClosureExamples.

(** ** Policy: names that contain a blocked name *)

Section PatternClosure.
Import Command Policy PolicySpec.

Lemma starWs_app (k : string -> bool) post :
  (forall s, k s = true -> k (s +:+ post) = true) ->
  forall s, starWs k s = true -> starWs k (s +:+ post) = true.
Proof.
  intros Hk s. induction s as [|c s IH]; simpl.
  - rewrite orb_false_r, append_empty. intros Hs.
    specialize (Hk "" Hs). rewrite append_empty in Hk.
    destruct post; simpl; by rewrite Hk.
  - intros [Hs|[Hc Hs]%andb_true_iff]%orb_true_iff.
    + specialize (Hk _ Hs). rewrite append_cons in Hk. by rewrite Hk.
    + by rewrite Hc, (IH Hs), orb_true_r.
Qed.

Lemma matchHere_app p post : forall s,
  matchHere p s = true -> matchHere p (s +:+ post) = true.
Proof.
  induction p as [|[c|] p IH]; intros s; simpl.
  - done.
  - destruct s as [|d s]; [done|]. rewrite append_cons.
    intros [Hc Hs]%andb_true_iff. by rewrite Hc, (IH _ Hs).
  - by apply starWs_app.
Qed.

Lemma test_app p pre post s :
  test p s = true -> test p (pre +:+ s +:+ post) = true.
Proof.
  intros Hs.
  assert (Hpost : test p (s +:+ post) = true).
  { induction s as [|c s IH].
    - simpl in Hs. rewrite orb_false_r in Hs.
      apply (matchHere_app p post) in Hs.
      apply (test_at_offset p "") in Hs. exact Hs.
    - cbn [test] in Hs. apply orb_true_iff in Hs as [Hs|Hs].
      + apply (matchHere_app p post) in Hs.
        apply (test_at_offset p "") in Hs. exact Hs.
      + rewrite append_cons. cbn [test]. by rewrite (IH Hs), orb_true_r. }
  clear Hs. induction pre as [|a pre IH]; [by rewrite append_empty|].
  rewrite append_cons. simpl. by rewrite IH, orb_true_r.
Qed.

Lemma canonicalize_lower_unit c :
  canonicalize (JsString.lower_unit c) = canonicalize c.
Proof. destruct c as [[] [] [] [] [] [] [] []]; reflexivity. Qed.

Lemma isWhiteSpace_lower_unit c :
  isWhiteSpace (JsString.lower_unit c) = isWhiteSpace c.
Proof. destruct c as [[] [] [] [] [] [] [] []]; reflexivity. Qed.

Lemma starWs_toLowerCase (k : string -> bool) :
  (forall s, k (JsString.toLowerCase s) = k s) ->
  forall s, starWs k (JsString.toLowerCase s) = starWs k s.
Proof.
  intros Hk s. induction s as [|c s IH]; simpl.
  - done.
  - change (String (JsString.lower_unit c) (JsString.toLowerCase s))
      with (JsString.toLowerCase (String c s)).
    by rewrite Hk, isWhiteSpace_lower_unit, IH.
Qed.

Lemma matchHere_toLowerCase p : forall s,
  matchHere p (JsString.toLowerCase s) = matchHere p s.
Proof.
  induction p as [|[c|] p IH]; intros s; simpl.
  - done.
  - destruct s as [|d s]; simpl; [done|].
    by rewrite canonicalize_lower_unit, IH.
  - by apply starWs_toLowerCase.
Qed.

Lemma test_toLowerCase p s : test p (JsString.toLowerCase s) = test p s.
Proof.
  induction s as [|c s IH].
  - simpl. done.
  - change (JsString.toLowerCase (String c s))
      with (String (JsString.lower_unit c) (JsString.toLowerCase s)).
    cbn [test]. rewrite IH. f_equal.
    apply (matchHere_toLowerCase p (String c s)).
Qed.

Lemma existsb_test_closed (patterns : list Pattern) n pre post :
  existsb (fun pattern => test pattern n) patterns = true ->
  existsb (fun pattern => test pattern (pre +:+ n +:+ post)) patterns = true
  /\ existsb (fun pattern => test pattern (JsString.toLowerCase n)) patterns = true.
Proof.
  rewrite !existsb_exists. intros (p & Hin & Hp). split; exists p; split; try done.
  - by apply test_app.
  - by rewrite test_toLowerCase.
Qed.

Lemma nonempty_closed n pre post :
  String.eqb n "" = false ->
  String.eqb (pre +:+ n +:+ post) "" = false
  /\ String.eqb (JsString.toLowerCase n) "" = false.
Proof.
  destruct n as [|c n]; [done|]. intros _. split; [|done].
  destruct pre; [|done]. by rewrite append_empty, append_cons.
Qed.

Lemma isPaymentAction_closed config n pre post :
  isPaymentAction config (Some n) = true ->
  isPaymentAction config (Some (pre +:+ n +:+ post)) = true
  /\ isPaymentAction config (Some (JsString.toLowerCase n)) = true.
Proof.
  unfold isPaymentAction. destruct (blockPaymentActions config); cbn [negb]; [|done].
  destruct (String.eqb n "") eqn:Hn; [done|].
  destruct (nonempty_closed n pre post Hn) as [-> ->].
  apply existsb_test_closed.
Qed.

Lemma isDeleteAction_closed config n pre post :
  isDeleteAction config (Some n) = true ->
  isDeleteAction config (Some (pre +:+ n +:+ post)) = true
  /\ isDeleteAction config (Some (JsString.toLowerCase n)) = true.
Proof.
  unfold isDeleteAction. destruct (blockDeleteActions config); cbn [negb]; [|done].
  destruct (String.eqb n "") eqn:Hn; [done|].
  destruct (nonempty_closed n pre post Hn) as [-> ->].
  apply existsb_test_closed.
Qed.

Lemma patternDenies_closed config command n pre post :
  patternDenies config command (Some n) = true ->
  patternDenies config command (Some (pre +:+ n +:+ post)) = true
  /\ patternDenies config command (Some (JsString.toLowerCase n)) = true.
Proof.
  unfold patternDenies.
  destruct (commandType command); try done;
    (intros [Hp|Hd]%orb_true_iff;
     [destruct (isPaymentAction_closed config n pre post Hp) as [-> ->]; by split
     |destruct (isDeleteAction_closed config n pre post Hd) as [-> ->];
      by rewrite !orb_true_r]).
Qed.

Variable hostname : string -> option string.

(** X18. When the pattern tables make [checkCommand] deny a command for an
    element name, they make it deny the same command for every name that
    contains that name, and for the name in lower case: nothing around a
    blocked wording and no change of case gets the command through. *)
Theorem blocked_name_stays_blocked config now recNow command tabUrl n pre post h :
  domainPasses hostname config tabUrl ->
  allowed (checkRateLimits config now h).1 = true ->
  allowed (checkCommand hostname config now recNow command tabUrl (Some n) h).1
  = false ->
  allowed (checkCommand hostname config now recNow command tabUrl
             (Some (pre +:+ n +:+ post)) h).1 = false
  /\ allowed (checkCommand hostname config now recNow command tabUrl
                (Some (JsString.toLowerCase n)) h).1 = false.
Proof.
  intros Hdom Hrate.
  rewrite !(checkCommand_after_domain hostname config now recNow command tabUrl)
    by exact Hdom.
  simpl. rewrite Hrate. simpl.
  destruct (patternDenies config command (Some n)) eqn:Hn; [|done].
  destruct (patternDenies_closed config command n pre post Hn) as [-> ->].
  done.
Qed.

End PatternClosure.

Section PatternClosureExamples.
Import Command Policy PolicySpec.

Lemma blocked_name_stays_blocked_witness :
  (domainPasses schemeHost defaultConfig None
   /\ allowed (checkRateLimits defaultConfig 5 []).1 = true
   /\ allowed (checkCommand schemeHost defaultConfig 5 5 (clickOn "a_0") None
                 (Some "Buy now") []).1 = false)
  /\ allowed (checkCommand schemeHost defaultConfig 5 5 (clickOn "a_0") None
                (Some ("Yes, " +:+ "Buy now" +:+ "!")) []).1 = false
  /\ allowed (checkCommand schemeHost defaultConfig 5 5 (clickOn "a_0") None
                (Some (JsString.toLowerCase "Buy now")) []).1 = false.
Proof.
  split; [repeat split; reflexivity|].
  apply (blocked_name_stays_blocked schemeHost defaultConfig 5 5 (clickOn "a_0")
           None "Buy now" "Yes, " "!" []); reflexivity.
Defined.

End PatternClosureExamples.

(** ** Gateway: a command on its way to the agent and back *)

Section RoundTrip.
Import Command Policy Server ServerSpec.

Lemma find_first_open (closed rest : list Socket) s :
  Forall (fun c => isOpen c = false) closed ->
  isOpen s = true ->
  List.find isOpen (closed ++ s :: rest) = Some s.
Proof.
  intros Hclosed Hopen. induction Hclosed as [|c closed Hc _ IH]; simpl.
  - by rewrite Hopen.
  - by rewrite Hc.
Qed.

Lemma find_none_open (conns : list Socket) :
  Forall (fun c => isOpen c = false) conns -> List.find isOpen conns = None.
Proof.
  induction 1 as [|c conns Hc _ IH]; simpl; [done|]. by rewrite Hc.
Qed.

Variable hostname : string -> option string.

(** What [executeCommand] does with a command the policy allows, while an
    agent socket is open. *)
Lemma executeCommand_sent clk gen command g closed s rest :
  allowed (consultPolicy hostname clk (ensureCommandId gen command) g).1 = true ->
  extensionConnections g = closed ++ s :: rest ->
  Forall (fun c => isOpen c = false) closed ->
  isOpen s = true ->
  let command' := ensureCommandId gen command in
  let g1 := executeCommand hostname clk gen command g in
  trace g1 = trace g ++ [Created (nextPromise g) command'; ToExtension (ws s) command']
  /\ pendingCommands g1
     = <[idOf command' := {| resolve := nextPromise g; timeout := nextTimer g |}]>
         (pendingCommands g)
  /\ timers g1
     = <[nextTimer g := {| armedAt := atArm clk; delay := COMMAND_TIMEOUT;
                           t_command := command'; t_resolve := nextPromise g |}]>
         (timers g)
  /\ replConnections g1 = replConnections g.
Proof.
  intros Hallow Hconns Hclosed Hopen. simpl. unfold executeCommand.
  destruct (consultPolicy hostname clk (ensureCommandId gen command) g)
    as [policyResult history].
  simpl in Hallow. rewrite Hallow. simpl.
  unfold sendToExtension. rewrite Hconns, (find_first_open closed rest s) by done.
  done.
Qed.

(** X19. A command the policy allows goes to the first open agent socket
    and to no other. When the agent's acknowledgment with the command's id
    comes in, the caller's promise is resolved with that very
    acknowledgment, the pending entry is gone and the timeout is cleared:
    the timer never fires, and a second acknowledgment with the same id
    resolves nothing. *)
Theorem ack_round_trip clk gen command g closed s rest ack :
  Consistent g ->
  allowed (consultPolicy hostname clk (ensureCommandId gen command) g).1 = true ->
  extensionConnections g = closed ++ s :: rest ->
  Forall (fun c => isOpen c = false) closed ->
  isOpen s = true ->
  a_commandId ack = idOf (ensureCommandId gen command) ->
  let command' := ensureCommandId gen command in
  let g1 := executeCommand hostname clk gen command g in
  let g2 := handleCommandAck ack g1 in
  agentFrames (trace g1) = agentFrames (trace g) ++ [(ws s, command')]
  /\ resolutions (nextPromise g) (trace g1) = []
  /\ resolutions (nextPromise g) (trace g2) = [ack]
  /\ pendingCommands g2 !! idOf command' = None
  /\ timers g2 !! nextTimer g = None
  /\ (forall now, fireTimer now (nextTimer g) g2 = g2)
  /\ (forall p, resolutions p (trace (handleCommandAck ack g2))
                = resolutions p (trace g2)).
Proof.
  intros Hg Hallow Hconns Hclosed Hopen Hid command' g1 g2.
  destruct (executeCommand_sent clk gen command g closed s rest Hallow Hconns
              Hclosed Hopen) as (Htrace & Hpending & Htimers & _).
  fold command' g1 in Htrace, Hpending, Htimers.
  destruct (promise_fresh g Hg (nextPromise g) (le_n _)) as [_ Hfresh].
  assert (Hlookup : pendingCommands g1 !! a_commandId ack
                    = Some {| resolve := nextPromise g; timeout := nextTimer g |}).
  { rewrite Hpending, Hid. apply lookup_insert_eq. }
  assert (Htrace2 : trace g2 = trace g1 ++ Resolved (nextPromise g) ack
                                 :: broadcastToRepl ack (a_tabId ack) (replConnections g1)).
  { unfold g2, handleCommandAck. by rewrite Hlookup. }
  assert (Hpending2 : pendingCommands g2 !! idOf command' = None).
  { unfold g2, handleCommandAck. rewrite Hlookup. simpl. rewrite Hid.
    apply lookup_delete_eq. }
  assert (Htimers2 : timers g2 !! nextTimer g = None).
  { unfold g2, handleCommandAck. rewrite Hlookup. simpl. apply lookup_delete_eq. }
  assert (H1 : resolutions (nextPromise g) (trace g1) = []).
  { rewrite Htrace, resolutions_app, Hfresh. done. }
  split; [by rewrite Htrace, agentFrames_app|].
  split; [exact H1|].
  split.
  { rewrite Htrace2, resolutions_app, H1.
    change (Resolved (nextPromise g) ack :: ?l)
      with ([Resolved (nextPromise g) ack] ++ l).
    rewrite resolutions_app, resolutions_resolved, Nat.eqb_refl.
    destruct (quiet_broadcast ack (a_tabId ack) (replConnections g1) (nextPromise g))
      as [-> _].
    done. }
  split; [exact Hpending2|]. split; [exact Htimers2|]. split.
  - intros now. unfold fireTimer. by rewrite Htimers2.
  - apply handleCommandAck_not_pending. by rewrite Hid.
Qed.

(** X20. A command the policy allows while no agent socket is open is
    resolved at once with an acknowledgment whose status is "fail" and
    whose reason is "No extension connected": nothing is sent, nothing is
    left pending and no timer is armed. The command has been recorded in
    the history of the rate limit all the same, and the failure is not
    written to the audit log. *)
Theorem no_agent_still_counts clk gen command g :
  Consistent g ->
  allowed (consultPolicy hostname clk (ensureCommandId gen command) g).1 = true ->
  Forall (fun c => isOpen c = false) (extensionConnections g) ->
  let command' := ensureCommandId gen command in
  let g1 := executeCommand hostname clk gen command g in
  let ack := {| a_commandId := idOf command';
                status := fail "No extension connected";
                timestamp := atAck clk;
                a_tabId := None |} in
  trace g1
  = trace g ++ [Created (nextPromise g) command'; Resolved (nextPromise g) ack]
  /\ resolutions (nextPromise g) (trace g1) = [ack]
  /\ pendingCommands g1 = pendingCommands g
  /\ timers g1 = timers g
  /\ commandHistory g1
     = dropOld (atCheck clk - 60000) (commandHistory g) ++ [atRecord clk].
Proof.
  intros Hg Hallow Hclosed command' g1 ack. fold command' in Hallow.
  pose proof (checkCommand_history hostname (policy g) (atCheck clk) (atRecord clk)
                command'
                (WorldState.url <$> WorldState.getTab (tabId command') (world g))
                (Protocol.name <$>
                   (WorldState.getTab (tabId command') (world g) ≫= fun t =>
                      targetId command' ≫= fun i => WorldState.candidates t !! i))
                (commandHistory g)) as [Hhistory _].
  fold (consultPolicy hostname clk command' g) in Hhistory.
  specialize (Hhistory Hallow).
  unfold g1, executeCommand. fold command'.
  destruct (consultPolicy hostname clk command' g) as [policyResult history].
  simpl in Hallow, Hhistory. rewrite Hallow. simpl.
  unfold sendToExtension. rewrite (find_none_open _ Hclosed). simpl.
  split; [done|]. split; [|by repeat split].
  destruct (promise_fresh g Hg (nextPromise g) (le_n _)) as [_ Hfresh].
  rewrite resolutions_app, Hfresh. simpl. by rewrite Nat.eqb_refl.
Qed.

(** X21. Once the timer of a command has fired, the caller's promise is
    resolved with an acknowledgment whose status is "fail" and whose
    reason is "Command timeout", and the pending entry under the command's
    id is gone, whichever command it belonged to: an acknowledgment with
    that id that comes in later resolves nothing and changes no table; it
    is only broadcast, to the controllers whose socket is open and whose
    subscription admits the tab it names. *)
Theorem late_ack_after_timeout now tid timer g ack :
  Consistent g ->
  timers g !! tid = Some timer ->
  armedAt timer + delay timer <= now ->
  a_commandId ack = idOf (t_command timer) ->
  let g1 := fireTimer now tid g in
  let g2 := handleCommandAck ack g1 in
  resolutions (t_resolve timer) (trace g1)
  = [{| a_commandId := idOf (t_command timer);
        status := fail "Command timeout";
        timestamp := now;
        a_tabId := None |}]
  /\ pendingCommands g1 !! idOf (t_command timer) = None
  /\ pendingCommands g2 = pendingCommands g1
  /\ timers g2 = timers g1
  /\ (forall p, resolutions p (trace g2) = resolutions p (trace g1))
  /\ controllerFrames (trace g2)
     = controllerFrames (trace g1) ++ forwardedTo (replConnections g) ack.
Proof.
  intros Hg Htimer Hdue Hid g1 g2.
  assert (Hpending : pendingCommands g1 !! idOf (t_command timer) = None).
  { unfold g1, fireTimer. rewrite Htimer.
    destruct (Z.leb_spec (armedAt timer + delay timer) now); [|lia].
    simpl. apply lookup_delete_eq. }
  assert (Hconns : replConnections g1 = replConnections g).
  { unfold g1, fireTimer. rewrite Htimer.
    by destruct (armedAt timer + delay timer <=? now). }
  split; [exact (fireTimer_resolves now tid timer g Hg Htimer Hdue)|].
  split; [exact Hpending|].
  rewrite <- Hconns. apply handleCommandAck_not_pending. by rewrite Hid.
Qed.

End RoundTrip.

Section RoundTripExamples.
Import Command Policy Server ServerSpec RoundTripSample.

Lemma Consistent_connected : Consistent connected.
Proof. apply Consistent_run, Consistent_init. Qed.

Lemma ack_round_trip_witness :
  (allowed (consultPolicy schemeHost noon (ensureCommandId "cmd_1" click)
              connected).1 = true
   /\ extensionConnections connected = [] ++ agentSocket :: []
   /\ isOpen agentSocket = true
   /\ a_commandId clickAck = idOf (ensureCommandId "cmd_1" click))
  /\ resolutions 0%nat
       (trace (handleCommandAck clickAck
                 (executeCommand schemeHost noon "cmd_1" click connected)))
     = [clickAck].
Proof.
  split; [repeat split; reflexivity|].
  refine (proj1 (proj2 (proj2
    (ack_round_trip schemeHost noon "cmd_1" click connected [] agentSocket []
       clickAck Consistent_connected eq_refl eq_refl (List.Forall_nil _) eq_refl
       eq_refl)))).
Defined.

Lemma no_agent_still_counts_witness :
  let g1 := executeCommand schemeHost noon "cmd_1" click init in
  let ack := {| a_commandId := "cmd_1";
                status := fail "No extension connected";
                timestamp := 5001;
                a_tabId := None |} in
  (allowed (consultPolicy schemeHost noon (ensureCommandId "cmd_1" click) init).1
   = true
   /\ Forall (fun c => isOpen c = false) (extensionConnections init))
  /\ trace g1 = [] ++ [Created 0%nat (ensureCommandId "cmd_1" click);
                       Resolved 0%nat ack]
  /\ resolutions 0%nat (trace g1) = [ack]
  /\ commandHistory g1 = [] ++ [5000]
  /\ pendingCommands g1 = ∅.
Proof.
  intros g1 ack.
  split; [split; [reflexivity|apply List.Forall_nil]|].
  destruct (no_agent_still_counts schemeHost noon "cmd_1" click init
              Consistent_init eq_refl (List.Forall_nil _))
    as (Htrace & Hres & Hpending & _ & Hhistory).
  split; [exact Htrace|]. split; [exact Hres|].
  split; [exact Hhistory|exact Hpending].
Defined.

Lemma Consistent_click_sent :
  Consistent (executeCommand schemeHost noon "cmd_1" click connected).
Proof. apply Consistent_executeCommand, Consistent_connected. Qed.

Lemma late_ack_after_timeout_witness :
  let g := executeCommand schemeHost noon "cmd_1" click connected in
  let g1 := fireTimer 35001 0%nat g in
  let g2 := handleCommandAck clickAck g1 in
  (timers g !! 0%nat = Some clickTimer
   /\ armedAt clickTimer + delay clickTimer <= 35001
   /\ a_commandId clickAck = idOf (t_command clickTimer))
  /\ resolutions 0%nat (trace g1)
     = [{| a_commandId := "cmd_1";
           status := fail "Command timeout";
           timestamp := 35001;
           a_tabId := None |}]
  /\ resolutions 0%nat (trace g2) = resolutions 0%nat (trace g1)
  /\ controllerFrames (trace g2)
     = controllerFrames (trace g1) ++ [(7%nat, clickAck)].
Proof.
  intros g g1 g2.
  assert (Htimer : timers g !! 0%nat = Some clickTimer) by reflexivity.
  assert (Hdue : armedAt clickTimer + delay clickTimer <= 35001) by done.
  split; [by repeat split|].
  destruct (late_ack_after_timeout 35001 0%nat clickTimer g clickAck
              Consistent_click_sent Htimer Hdue eq_refl)
    as (Hfired & _ & _ & _ & Hsame & Hframes).
  split; [exact Hfired|]. split; [exact (Hsame 0%nat)|exact Hframes].
Defined.

End RoundTripExamples.

(** ** Executor: what an acknowledgment carries *)

Section ExecutorAcks.
Import Protocol Command Executor ExecutorSpec.

Context {Element Page : Type} `{Browser Element Page}.







End ExecutorAcks.

(** ** ActionMap: where a candidate is hit *)

Section Geometry.
Import Protocol Executor ActionMap.

Lemma round_half a b :
  round (inject_Z a + inject_Z b / 2)%Q = a + (b + 1) / 2.
Proof.
  unfold round.
  assert (Heq : (inject_Z a + inject_Z b / 2 + (1 # 2) == (2 * a + b + 1) # 2)%Q).
  { rewrite (Qmake_Qdiv (2 * a + b + 1) 2).
    rewrite !inject_Z_plus, inject_Z_mult. field. }
  rewrite (Qfloor_comp _ _ Heq). unfold Qfloor.
  replace (2 * a + b + 1) with (a * 2 + (b + 1)) by lia.
  by rewrite Z.div_add_l.
Qed.

Lemma round_nonneg q : (0 <= q)%Q -> 0 <= round q.
Proof.
  intros Hq. unfold round. change 0 with (Qfloor 0).
  apply Qfloor_resp_le.
  apply Qle_trans with q; [done|].
  rewrite <- (Qplus_0_r q) at 1. apply Qplus_le_r. done.
Qed.

Lemma getHitPoint_inside rect :
  cx (getHitPoint rect) = x rect + (w rect + 1) / 2
  /\ cy (getHitPoint rect) = y rect + (h rect + 1) / 2
  /\ (0 <= w rect ->
      x rect <= cx (getHitPoint rect) <= x rect + w rect)
  /\ (0 <= h rect ->
      y rect <= cy (getHitPoint rect) <= y rect + h rect).
Proof.
  unfold getHitPoint. simpl. rewrite !round_half.
  split; [done|]. split; [done|].
  split; intros Hpos; Z.to_euclidean_division_equations; lia.
Qed.

Lemma isVisible_true style rect vw vh :
  isVisible style rect vw vh = true ->
  w rect <> 0 /\ h rect <> 0
  /\ display style <> "none" /\ visibility style <> "hidden"
  /\ opacity style <> "0"
  /\ 0 <= x rect + w rect /\ x rect <= vw
  /\ 0 <= y rect + h rect /\ y rect <= vh.
Proof.
  unfold isVisible.
  destruct (Z.eqb_spec (w rect) 0); [done|].
  destruct (Z.eqb_spec (h rect) 0); [done|]. simpl.
  destruct (String.eqb_spec (display style) "none"); [done|].
  destruct (String.eqb_spec (visibility style) "hidden"); [done|].
  destruct (String.eqb_spec (opacity style) "0"); [done|].
  destruct (Z.ltb_spec (x rect + w rect) 0); [done|].
  destruct (Z.gtb_spec (x rect) vw); [done|]. simpl.
  destruct (Z.ltb_spec (y rect + h rect) 0); [done|].
  destruct (Z.gtb_spec (y rect) vh); [done|]. simpl.
  intros _. repeat split; try done; lia.
Qed.

Lemma elem_of_extractActionMap vw vh elements c :
  c ∈ extractActionMap vw vh elements <->
  exists e, e ∈ elements /\ candidateOf vw vh e = Some c.
Proof. unfold extractActionMap. apply list_elem_of_omap. Qed.

(** X23. Every candidate [extractActionMap] returns comes from an element
    that passes [isVisible]: its rect has a width and a height that are
    not 0 and touches the viewport; its hit point is the centre of that
    rect, rounded half up, and lies within the rect when the box of the
    element has no negative extent. The candidates keep the order of the
    elements. *)
Theorem extracted_candidates_geometry vw vh elements c :
  (forall e, e ∈ elements ->
             (0 <= b_width (e_bounds e))%Q /\ (0 <= b_height (e_bounds e))%Q) ->
  c ∈ extractActionMap vw vh elements ->
  (0 < w (rect c) /\ 0 < h (rect c))
  /\ (0 <= x (rect c) + w (rect c) /\ x (rect c) <= vw
      /\ 0 <= y (rect c) + h (rect c) /\ y (rect c) <= vh)
  /\ hit c = getHitPoint (rect c)
  /\ (x (rect c) <= cx (hit c) <= x (rect c) + w (rect c)
      /\ y (rect c) <= cy (hit c) <= y (rect c) + h (rect c))
  /\ sublist (id <$> extractActionMap vw vh elements) (e_id <$> elements).
Proof.
  intros Hboxes [e [Hin Hc]]%elem_of_extractActionMap.
  destruct (Hboxes e Hin) as [Hw Hh].
  unfold candidateOf, getRect in Hc.
  destruct (isVisible _ _ vw vh) eqn:Hvis; [|done]. simpl in Hc.
  injection Hc as <-. simpl.
  apply isVisible_true in Hvis as (Hw0 & Hh0 & _ & _ & _ & Hx1 & Hx2 & Hy1 & Hy2).
  simpl in *.
  apply round_nonneg in Hw, Hh.
  set (r := {| x := round (b_left (e_bounds e)); y := round (b_top (e_bounds e));
               w := round (b_width (e_bounds e));
               h := round (b_height (e_bounds e)) |}).
  destruct (getHitPoint_inside r) as (_ & _ & Hcx & Hcy).
  split; [lia|]. split; [done|]. split; [done|].
  split; [split; [by apply Hcx|by apply Hcy]|].
  clear. induction elements as [|e elements IH]; csimpl; [done|].
  unfold extractActionMap in IH.
  destruct (candidateOf vw vh e) as [c|] eqn:Hc; csimpl.
  - assert (id c = e_id e) as ->.
    { unfold candidateOf, getRect in Hc.
      destruct (negb _); [done|]. by injection Hc as <-. }
    by apply sublist_skip.
  - by apply sublist_cons.
Qed.

End Geometry.

Section GeometryExamples.
Import Protocol Executor ActionMap GeometrySample.

Lemma sample_boxes e :
  e ∈ [hiddenReading; reading] ->
  (0 <= b_width (e_bounds e))%Q /\ (0 <= b_height (e_bounds e))%Q.
Proof.
  intros He. apply elem_of_cons in He as [->|He]; [by split|].
  apply elem_of_cons in He as [->|He]; [by split|]. by apply elem_of_nil in He.
Qed.

Lemma extracted_candidates_geometry_witness :
  exists c,
    extractActionMap 1024 768 [hiddenReading; reading] = [c]
    /\ rect c = {| x := 11; y := 10; w := 100; h := 30 |}
    /\ hit c = {| cx := 61; cy := 25 |}
    /\ (x (rect c) <= cx (hit c) <= x (rect c) + w (rect c)
        /\ y (rect c) <= cy (hit c) <= y (rect c) + h (rect c)).
Proof.
  assert (Hrun : exists c,
             extractActionMap 1024 768 [hiddenReading; reading] = [c]
             /\ rect c = {| x := 11; y := 10; w := 100; h := 30 |}
             /\ hit c = {| cx := 61; cy := 25 |}).
  { eexists. split; [reflexivity|]. split; reflexivity. }
  destruct Hrun as (c & Hrun & Hrect & Hhit).
  exists c. split; [exact Hrun|]. split; [exact Hrect|]. split; [exact Hhit|].
  refine (proj1 (proj2 (proj2 (proj2
    (extracted_candidates_geometry 1024 768 [hiddenReading; reading] c
       sample_boxes _))))).
  rewrite Hrun. by left.
Defined.

End GeometryExamples.

(** ** The service worker: the queue under backpressure *)

Section Backpressure.
Import Command Telemetry Background.









End Backpressure.

(** ** The agent's query and the gateway's search *)

Section AgentQueries.
Import Protocol WorldState SearchSpec ActionMap AgentQuery.














End AgentQueries.

(** ** A command for a tab the service worker does not know *)

Section UnknownTab.
Import Command Policy Server ServerSpec Background Routing.

Variable hostname : string -> option string.
Variable showNumber : Z -> string.

Lemma ensureCommandId_truthy gen command :
  gen <> "" -> JsString.truthy (commandId (ensureCommandId gen command)) = true.
Proof.
  intros Hgen. unfold ensureCommandId.
  destruct (JsString.truthy (commandId command)) eqn:Hid; [exact Hid|].
  simpl. by destruct (String.eqb_spec gen "").
Qed.

(** X26. A command the gateway has sent for a tab that has no port in the
    service worker is not handed to any content script: the service
    worker answers it on the spot with a failure that carries the
    command's id and names the tab, and when that answer reaches the
    gateway it resolves the promise of the command. *)
Theorem unknown_tab_answered clk gen command g closed s rest now tabPorts queue :
  Consistent g ->
  gen <> "" ->
  allowed (consultPolicy hostname clk (ensureCommandId gen command) g).1 = true ->
  extensionConnections g = closed ++ s :: rest ->
  Forall (fun c => isOpen c = false) closed ->
  isOpen s = true ->
  tabPorts !! tabId command = None ->
  let command' := ensureCommandId gen command in
  let g1 := executeCommand hostname clk gen command g in
  let ack :=
    {| a_commandId := idOf command';
       status := fail ("Tab " +:+ showNumber (tabId command) +:+ " not connected");
       timestamp := now;
       a_tabId := None |} in
  agentFrames (trace g1) = agentFrames (trace g) ++ [(ws s, command')]
  /\ handleBackendMessage showNumber now (Open false) (CommandFrame command')
       tabPorts queue
     = ([], Some (Ack ack), queue)
  /\ resolutions (nextPromise g) (trace (handleCommandAck ack g1)) = [ack]
  /\ pendingCommands (handleCommandAck ack g1) !! idOf command' = None.
Proof.
  intros Hg Hgen Hallow Hconns Hclosed Hopen Hport command' g1 ack.
  destruct (executeCommand_sent hostname clk gen command g closed s rest Hallow
              Hconns Hclosed Hopen) as (Htrace & Hpending & _ & _).
  fold command' g1 in Htrace, Hpending.
  destruct (promise_fresh g Hg (nextPromise g) (le_n _)) as [_ Hfresh].
  assert (Htab : tabId command' = tabId command).
  { unfold command', ensureCommandId. by destruct (JsString.truthy _). }
  assert (Hlookup : pendingCommands g1 !! a_commandId ack
                    = Some {| resolve := nextPromise g; timeout := nextTimer g |}).
  { rewrite Hpending. apply lookup_insert_eq. }
  split; [by rewrite Htrace, agentFrames_app|]. split; [|split].
  - unfold handleBackendMessage.
    pose proof (ensureCommandId_truthy gen command Hgen) as Hid.
    fold command' in Hid. by rewrite Hid, Htab, Hport.
  - assert (Htrace2 : trace (handleCommandAck ack g1)
                      = trace g1 ++ [Resolved (nextPromise g) ack]
                          ++ broadcastToRepl ack (a_tabId ack) (replConnections g1)).
    { unfold handleCommandAck. by rewrite Hlookup. }
    destruct (quiet_broadcast ack (a_tabId ack) (replConnections g1) (nextPromise g))
      as [Hquiet _].
    rewrite Htrace2, Htrace, !resolutions_app, Hfresh, Hquiet.
    rewrite resolutions_resolved, Nat.eqb_refl. done.
  - unfold handleCommandAck. rewrite Hlookup. simpl. apply lookup_delete_eq.
Qed.

End UnknownTab.

Section UnknownTabExamples.
Import Command Policy Server ServerSpec Background Routing RoundTripSample.

Lemma unknown_tab_answered_witness :
  ("cmd_1" <> ""
   /\ allowed (consultPolicy schemeHost noon (ensureCommandId "cmd_1" click)
                 connected).1 = true
   /\ extensionConnections connected = [] ++ agentSocket :: []
   /\ isOpen agentSocket = true
   /\ (∅ : gmap Z Port) !! tabId click = None)
  /\ handleBackendMessage (fun _ => "1") 6000 (Open false)
       (CommandFrame (ensureCommandId "cmd_1" click)) ∅ []
     = ([], Some (Ack {| a_commandId := "cmd_1";
                         status := fail "Tab 1 not connected";
                         timestamp := 6000;
                         a_tabId := None |}), []).
Proof.
  split; [repeat split; done|].
  refine (proj1 (proj2
    (unknown_tab_answered schemeHost (fun _ => "1") noon "cmd_1" click connected
       [] agentSocket [] 6000 ∅ [] Consistent_connected _ eq_refl eq_refl
       (List.Forall_nil _) eq_refl eq_refl))).
  done.
Defined.

End UnknownTabExamples.
